(** * Training and checkpointing notebooks of intro_to_pytorch

    A shallow embedding of the two notebooks
    "Part 3 - Training Neural Networks" and "Saving and Loading Models":
    the flattening of image batches, the training pass and the epoch loop,
    the checkpoint dictionary and [load_checkpoint].

    The notebooks are glue code over PyTorch.  What the notebooks themselves
    write (the order of the calls, the literals, the dictionary) is embedded
    as written.  What PyTorch does inside a call is embedded from its
    contract as far as the notebooks rely on it and record it in their
    outputs; the numerical heart (the network function, the loss and
    automatic differentiation) stays a parameter, see [Autograd]. *)

From stdpp Require Import base option list strings pretty gmap.
From Stdlib Require Import ZArith Lia.
From Stdlib Require Floats.SpecFloat.

(** ** Scalars

    The element type of a tensor.  The notebooks never name a dtype, so the
    tensors are PyTorch's default single-precision floats; [float32] below
    is that type, with IEEE 754 rounding to nearest even as specified by
    the Standard Library's [SpecFloat].  The definitions of this file only
    use a few operations, so they are written over a class.

    [ssubmul x lr d] is [x - lr * d] as the optimizer computes it, by
    [x.add_(d, alpha=-lr)]: one operation, which in floating point
    rounds once, the product not being rounded before the subtraction. *)

Class Scalar (A : Type) := {
  szero : A;
  sadd : A → A → A;
  ssub : A → A → A;
  smul : A → A → A;
  ssubmul : A → A → A → A
}.

(** Python's [float], the type of [loss.item()] and of [running_loss]:
    [item] converts a tensor element, [pf_of_nat] is the conversion of a
    Python [int] that [+] and [/] apply to a mixed pair of operands. *)
Class PyFloat (A F : Type) := {
  item : A → F;
  pf_of_nat : nat → F;
  pf_add : F → F → F;
  pf_div : F → F → F
}.

Module Float32.
Import SpecFloat.

Definition prec : Z := 24.
Definition emax : Z := 128.

Definition float32 : Type := spec_float.

Definition add : float32 → float32 → float32 := SFadd prec emax.
Definition sub : float32 → float32 → float32 := SFsub prec emax.
Definition mul : float32 → float32 → float32 := SFmul prec emax.
Definition opp : float32 → float32 := SFopp.

(** [x - lr * d] with one rounding: the exact product is subtracted from
    [x] and the difference rounded.  Where the product is exact as a
    float (a zero, an infinity) or undefined, and where [x] is a zero,
    the two operations in sequence round once as well; an infinite or
    undefined [x] stays, whatever the finite product. *)
Definition submul (x lr d : float32) : float32 :=
  match x, lr, d with
  | S754_finite sx mx ex, S754_finite sl ml el, S754_finite sd md ed =>
      let ez := Z.min ex (el + ed) in
      binary_normalize prec emax
        (cond_Zopp sx (Zpos (fst (shl_align mx ex ez)))
         - cond_Zopp (xorb sl sd) (Zpos (fst (shl_align (ml * md) (el + ed) ez))))
        ez false
  | (S754_infinity _ | S754_nan), S754_finite _ _ _, S754_finite _ _ _ => x
  | S754_zero _, S754_finite _ _ _, S754_finite _ _ _ => opp (mul lr d)
  | _, _, _ => sub x (mul lr d)
  end.

(** The product [lr * d] is, in absolute value, at least one unit in the
    last place of the finite float [x]: with [x = mx * 2^ex],
    [2^ex <= |lr * d|]. *)
Definition at_least_one_ulp (x lr d : float32) : Prop :=
  match x, lr, d with
  | S754_finite _ _ ex, S754_finite _ ml el, S754_finite _ md ed =>
      (2 ^ (ex - (el + ed)) ≤ Zpos (ml * md))%Z
  | _, _, _ => False
  end.

Definition zero : float32 := S754_zero false.
(** 1.0 *)
Definition one : float32 := S754_finite false 8388608 (-23).
(** 2.0 *)
Definition two : float32 := S754_finite false 8388608 (-22).
(** The float nearest to 0.01, the learning rate of the first optimizer
    (bit pattern 0x3C23D70A). *)
Definition lr_0_01 : float32 := S754_finite false 10737418 (-30).
(** The float nearest to 0.003, the learning rate of the training loop
    (bit pattern 0x3B449BA6). *)
Definition lr_0_003 : float32 := S754_finite false 12884902 (-32).
(** The smallest positive float, 2^-149. *)
Definition tiny : float32 := S754_finite false 1 (-149).
(** 22.0 *)
Definition twenty_two : float32 := S754_finite false 11534336 (-19).
End Float32.

Module Float64.
Import SpecFloat.

Definition prec : Z := 53.
Definition emax : Z := 1024.

Definition float64 : Type := spec_float.

Definition add : float64 → float64 → float64 := SFadd prec emax.
Definition div : float64 → float64 → float64 := SFdiv prec emax.

Definition of_Z (z : Z) : float64 := binary_normalize prec emax z 0 false.

(** Widening a single-precision value is exact. *)
Definition of_float32 (x : Float32.float32) : float64 :=
  match x with
  | S754_finite s m e => binary_round prec emax s m e
  | _ => x
  end.
End Float64.

#[export] Instance float32_scalar : Scalar Float32.float32 := {|
  szero := Float32.zero;
  sadd := Float32.add;
  ssub := Float32.sub;
  smul := Float32.mul;
  ssubmul := Float32.submul
|}.

#[export] Instance float64_pyfloat : PyFloat Float32.float32 Float64.float64 := {|
  item := Float64.of_float32;
  pf_of_nat := λ n, Float64.of_Z (Z.of_nat n);
  pf_add := Float64.add;
  pf_div := Float64.div
|}.

(** Exact arithmetic, on the integers: the instance at which the laws of
    [ExactScalar] below hold. *)
#[export] Instance Z_scalar : Scalar Z := {|
  szero := 0%Z;
  sadd := Z.add;
  ssub := Z.sub;
  smul := Z.mul;
  ssubmul := λ x lr d, (x - lr * d)%Z
|}.

(** The laws of exact arithmetic that the statements about "a different
    value" need.  Floating-point arithmetic has none of them: adding to
    zero turns -0.0 into 0.0, a small term is absorbed by a large one, and
    a product underflows to zero. *)
Class ExactScalar (A : Type) `{Scalar A} : Prop := {
  sadd_zero_l : ∀ x : A, sadd szero x = x;
  sadd_cancel_r : ∀ x y : A, sadd x y = y → x = szero;
  ssub_cancel : ∀ x y : A, ssub x y = x → y = szero;
  smul_integral : ∀ x y : A, smul x y = szero → x = szero ∨ y = szero
}.

(** The arithmetic in which, besides, the update of the optimizer is the
    subtraction of the product: nothing is rounded. *)
Class ExactUpdate (A : Type) `{Scalar A} : Prop :=
  ssubmul_exact : ∀ x lr d : A, ssubmul x lr d = ssub x (smul lr d).

(** ** Tensors

    A contiguous tensor: its shape and its elements in row-major order. *)

Record Tensor (A : Type) := mkTensor {
  shape : list nat;
  data : list A
}.
Arguments mkTensor {A} _ _.
Arguments shape {A} _.
Arguments data {A} _.

(** Number of elements of a shape. *)
Definition numel (sh : list nat) : nat := foldr Nat.mul 1 sh.

(** Row-major offset of a multi-index; [None] when the index has the wrong
    rank or is out of range (Python's IndexError). *)
Fixpoint ravel (sh idx : list nat) (acc : nat) : option nat :=
  match sh, idx with
  | [], [] => Some acc
  | d :: sh', i :: idx' =>
      if decide (i < d) then ravel sh' idx' (acc * d + i) else None
  | _, _ => None
  end.

(** [t[i0, i1, ...]] *)
Definition tensor_get {A} (t : Tensor A) (idx : list nat) : option A :=
  off ← ravel (shape t) idx 0; data t !! off.

(** [t.view(d0, -1)]: the second dimension is inferred.  PyTorch refuses
    when [d0] is 0 or does not divide the number of elements. *)
Definition view_infer {A} (t : Tensor A) (d0 : nat) : option (Tensor A) :=
  let n := numel (shape t) in
  if decide (d0 ≠ 0 ∧ n `mod` d0 = 0)
  then Some (mkTensor [d0; n `div` d0] (data t))
  else None.

(** [images.view(images.shape[0], -1)], the flattening of the training
    loop. *)
Definition flatten_batch {A} (images : Tensor A) : option (Tensor A) :=
  match shape images with
  | d0 :: _ => view_infer images d0
  | [] => None
  end.

(** [t.resize_(d0, d1, ...)]: the tensor keeps its storage and gets the new shape.
    With fewer elements than before the storage is cut short; with more,
    it is extended by uninitialised memory, whose contents [uninit] (by
    offset) are whatever the allocator left there. *)
Definition resize_ {A} (uninit : nat → A) (t : Tensor A) (sh : list nat)
    : Tensor A :=
  let n := numel sh in
  let old := data t in
  mkTensor sh (take n old ++ (uninit <$> seq (length old) (n - length old))).

(** [images.resize_(64, 784)], the flattening of the demonstration step. *)
Definition resize_64_784 {A} (uninit : nat → A) (images : Tensor A) : Tensor A :=
  resize_ uninit images [64; 784].

(** Elementwise operations on tensors of one shape. *)
Definition tensor_zip {A} (f : A → A → A) (t u : Tensor A) : Tensor A :=
  mkTensor (shape t) (zip_with f (data t) (data u)).

(** [torch.zeros_like(t)], and what [t.zero_()] leaves in [t]. *)
Definition zeros_like {A} `{Scalar A} (t : Tensor A) : Tensor A :=
  mkTensor (shape t) ((λ _, szero) <$> data t).

(** ** Exceptions and results *)

(** One entry of the message of the RuntimeError that [load_state_dict]
    raises, as the notebook records it ("size mismatch for
    hidden_layers.0.weight: copying a param with shape ... from checkpoint,
    the shape in current model is ..."). *)
Inductive LoadError :=
  | SizeMismatch (key : string) (saved_shape model_shape : list nat)
  | MissingKeys (keys : list string)
  | UnexpectedKeys (keys : list string).

Inductive Exception :=
  | RuntimeError (error_msgs : list LoadError)
  | FileNotFoundError (path : string)
  | KeyError (key : string).

Inductive Result (X : Type) :=
  | Return (x : X)
  | Raise (e : Exception).
Arguments Return {X} _.
Arguments Raise {X} _.

(** A Python dictionary with string keys, in insertion order. *)
Fixpoint dict_get {V} (d : list (string * V)) (k : string) : option V :=
  match d with
  | [] => None
  | (k', v) :: d' => if decide (k = k') then Some v else dict_get d' k
  end.

(** ** Modules and their parameters *)

Section Modules.
Context {A : Type}.

(** The generator that initialises fresh parameters: a stream of values,
    read from the offset that the previous draws have reached. *)
Variable rng : nat → A.

Definition fresh (k : nat) (sh : list nat) : Tensor A :=
  mkTensor sh (rng <$> seq k (numel sh)).

Record Linear := mkLinear {
  in_features : nat;
  out_features : nat;
  weight : Tensor A;
  bias : Tensor A
}.

(** [nn.Linear(i, o)]: a weight of shape [o, i] and a bias of shape [o],
    as the notebook's error message prints them. *)
Definition nn_Linear (i o : nat) (k : nat) : Linear * nat :=
  (mkLinear i o (fresh k [o; i]) (fresh (k + o * i) [o]), k + o * i + o).

(** The printed [Network]: a list of hidden layers and an output layer.
    Its dropout module has no parameter and no entry in the state
    dictionary. *)
Record Network := mkNetwork {
  hidden_layers : list Linear;
  output : Linear
}.

Fixpoint build_layers (i : nat) (hs : list nat) (k : nat)
    : list Linear * nat :=
  match hs with
  | [] => ([], k)
  | h :: hs' =>
      let '(l, k1) := nn_Linear i h k in
      let '(ls, k2) := build_layers h hs' k1 in
      (l :: ls, k2)
  end.

(** Modelled from the spec: [fc_model.Network(input_size, output_size,
    hidden_layers)], whose file is not part of the sources.  The spec has
    it "instantiate a model of the declared shape" with "weights and
    biases for each layer"; the notebook prints the result for three
    hidden widths: [Linear(input_size, h0)], [Linear(h0, h1)],
    [Linear(h1, h2)] and the output [Linear(h2, output_size)].  What it
    does with no hidden width the spec does not say; here the output
    layer then reads the input. *)
Definition fc_model_Network (input_size output_size : nat) (hs : list nat)
    : Network :=
  let '(ls, k) := build_layers input_size hs 0 in
  let '(out, _) := nn_Linear (default input_size (last hs)) output_size k in
  mkNetwork ls out.

(** The names of the parameters, as the notebook prints the keys of the state
    dictionary. *)
Definition hidden_prefix (i : nat) : string :=
  "hidden_layers." +:+ pretty i +:+ ".".
Definition output_prefix : string := "output.".

Definition layer_entries (prefix : string) (l : Linear)
    : list (string * Tensor A) :=
  [(prefix +:+ "weight", weight l); (prefix +:+ "bias", bias l)].

Fixpoint hidden_entries (i : nat) (ls : list Linear)
    : list (string * Tensor A) :=
  match ls with
  | [] => []
  | l :: ls' => layer_entries (hidden_prefix i) l ++ hidden_entries (S i) ls'
  end.

(** [model.state_dict()] *)
Definition state_dict (model : Network) : list (string * Tensor A) :=
  hidden_entries 0 (hidden_layers model)
  ++ layer_entries output_prefix (output model).

(** *** [load_state_dict]

    PyTorch's strict loading, by the contract the spec gives ("copy each
    saved tensor into the corresponding named parameter; fails if any
    name is missing or any tensor's shape disagrees") and the message
    the notebook records. *)

(** Every parameter of the model is looked up by name: a saved tensor of
    the parameter's shape is copied into it ([param.copy_(input_param)]),
    one of another shape is reported and not copied, an absent one is a
    missing key. *)
Definition load_tensor (sd : list (string * Tensor A)) (key : string)
    (param : Tensor A) : Tensor A * (list LoadError * list string) :=
  match dict_get sd key with
  | Some input_param =>
      if decide (shape input_param = shape param)
      then (mkTensor (shape param) (data input_param), ([], []))
      else (param, ([SizeMismatch key (shape input_param) (shape param)], []))
  | None => (param, ([], [key]))
  end.

Definition load_Linear (sd : list (string * Tensor A)) (prefix : string)
    (l : Linear) : Linear * (list LoadError * list string) :=
  let '(w, (e1, m1)) := load_tensor sd (prefix +:+ "weight") (weight l) in
  let '(b, (e2, m2)) := load_tensor sd (prefix +:+ "bias") (bias l) in
  (mkLinear (in_features l) (out_features l) w b, (e1 ++ e2, m1 ++ m2)).

Fixpoint load_hidden (sd : list (string * Tensor A)) (i : nat)
    (ls : list Linear) : list Linear * (list LoadError * list string) :=
  match ls with
  | [] => ([], ([], []))
  | l :: ls' =>
      let '(l1, (e1, m1)) := load_Linear sd (hidden_prefix i) l in
      let '(ls1, (e2, m2)) := load_hidden sd (S i) ls' in
      (l1 :: ls1, (e1 ++ e2, m1 ++ m2))
  end.

(** The model as the call leaves it, with the size mismatches and the
    missing keys it met. *)
Definition load_params (model : Network) (sd : list (string * Tensor A))
    : Network * (list LoadError * list string) :=
  let '(ls, (e1, m1)) := load_hidden sd 0 (hidden_layers model) in
  let '(out, (e2, m2)) := load_Linear sd output_prefix (output model) in
  (mkNetwork ls out, (e1 ++ e2, m1 ++ m2)).

(** Saved names that name no parameter of the model, here in the order
    of the dictionary (PyTorch lists them module by module). *)
Definition unexpected_keys (model : Network) (sd : list (string * Tensor A))
    : list string :=
  filter (λ k, k ∉ (state_dict model).*1) (sd.*1).

(** The message list of the RuntimeError: missing keys first, then
    unexpected keys, then the size mismatches in parameter order. *)
Definition error_msgs (model : Network) (sd : list (string * Tensor A))
    : list LoadError :=
  let '(_, (mismatches, missing_keys)) := load_params model sd in
  let unexpected := unexpected_keys model sd in
  (if decide (missing_keys = []) then [] else [MissingKeys missing_keys])
  ++ (if decide (unexpected = []) then [] else [UnexpectedKeys unexpected])
  ++ mismatches.

(** [model.load_state_dict(sd)]; [Return] carries the model after the
    call, which Python mutates in place. *)
Definition load_state_dict (model : Network) (sd : list (string * Tensor A))
    : Result Network :=
  match error_msgs model sd with
  | [] => Return (load_params model sd).1
  | msgs => Raise (RuntimeError msgs)
  end.

(** ** Checkpoints *)

(** The dictionary of the notebook, with its four keys. *)
Record Checkpoint := mkCheckpoint {
  ckpt_input_size : nat;
  ckpt_output_size : nat;
  ckpt_hidden_layers : list nat;
  ckpt_state_dict : list (string * Tensor A)
}.

(** What the notebook writes to a file: the bare state dictionary in its
    first attempt, the checkpoint dictionary in its second.  Files of
    another content (a dictionary with some of the four keys, bytes that
    are no pickle) are outside this type, and so are the exceptions that
    [load_checkpoint] raises on them. *)
Inductive Pickle :=
  | PickledStateDict (sd : list (string * Tensor A))
  | PickledCheckpoint (ck : Checkpoint).

(** [torch.save(obj, path)] creates the file or replaces its contents. *)
Definition torch_save (obj : Pickle) (path : string)
    (fs : gmap string Pickle) : gmap string Pickle :=
  <[path := obj]> fs.

(** [torch.load(path)] *)
Definition torch_load (path : string) (fs : gmap string Pickle)
    : Result Pickle :=
  match fs !! path with
  | Some obj => Return obj
  | None => Raise (FileNotFoundError path)
  end.

(** The checkpoint the notebook builds from [model]:
<<
    checkpoint = {'input_size': 784,
                  'output_size': 10,
                  'hidden_layers': [each.out_features for each in model.hidden_layers],
                  'state_dict': model.state_dict()}
>>
*)
Definition checkpoint (model : Network) : Checkpoint := {|
  ckpt_input_size := 784;
  ckpt_output_size := 10;
  ckpt_hidden_layers := out_features <$> hidden_layers model;
  ckpt_state_dict := state_dict model
|}.

(** The dictionary of the same cell for a model constructed as
    [fc_model.Network(input_size, output_size, ...)]: the two sizes are
    written in the cell as the numbers with which the model was
    constructed.  Every model of the notebook is constructed with 784 and
    10, and [checkpoint] is [checkpoint_for 784 10]. *)
Definition checkpoint_for (input_size output_size : nat) (model : Network)
    : Checkpoint := {|
  ckpt_input_size := input_size;
  ckpt_output_size := output_size;
  ckpt_hidden_layers := out_features <$> hidden_layers model;
  ckpt_state_dict := state_dict model
|}.

(** [torch.save(checkpoint, 'checkpoint.pth')] *)
Definition save_checkpoint (model : Network) (filepath : string)
    (fs : gmap string Pickle) : gmap string Pickle :=
  torch_save (PickledCheckpoint (checkpoint model)) filepath fs.

(** [load_checkpoint(filepath)].  Subscripting a loaded state dictionary
    with ['input_size'] is a KeyError. *)
Definition load_checkpoint (filepath : string) (fs : gmap string Pickle)
    : Result Network :=
  match torch_load filepath fs with
  | Raise e => Raise e
  | Return (PickledStateDict _) => Raise (KeyError "input_size")
  | Return (PickledCheckpoint checkpoint) =>
      let model := fc_model_Network (ckpt_input_size checkpoint)
                                    (ckpt_output_size checkpoint)
                                    (ckpt_hidden_layers checkpoint) in
      load_state_dict model (ckpt_state_dict checkpoint)
  end.

(** The declared architecture of a model. *)
Definition architecture (model : Network) : nat * nat * list nat :=
  (default (in_features (output model))
           (in_features <$> head (hidden_layers model)),
   out_features (output model),
   out_features <$> hidden_layers model).
End Modules.

Arguments Linear : clear implicits.
Arguments Network : clear implicits.
Arguments Checkpoint : clear implicits.
Arguments Pickle : clear implicits.

(** ** Training

    The network function, the loss and automatic differentiation belong to
    PyTorch.  [forward_fn] is [model(images)] as a function of the current
    parameter values, [criterion_fn] is [criterion(output, labels)], and
    [grad_fn] is the gradient of their composition with respect to each
    parameter, which [loss.backward()] computes.  The three are functions
    on the batches that the network and the loss accept; that a batch of
    another width, or a batch with another number of labels than rows,
    makes [model(images)] or [criterion(output, labels)] raise is not
    part of them. *)

Class Autograd (A : Type) := {
  forward_fn : list (Tensor A) → Tensor A → Tensor A;
  criterion_fn : Tensor A → list nat → A;
  grad_fn : list (Tensor A) → Tensor A → list nat → list (Tensor A)
}.

(** The calls into the framework that a training pass makes. *)
Inductive Call :=
  | CallZeroGrad
  | CallForward
  | CallCriterion
  | CallBackward
  | CallStep.

Section Training.
Context {A : Type} `{Scalar A} `{Autograd A}.

(** A parameter: its value and its [.grad], which is [None] until the
    first backward pass reaches it. *)
Record Param := mkParam {
  p_data : Tensor A;
  p_grad : option (Tensor A)
}.

(** The objects the notebook cell shares: the parameters of [model],
    which [optimizer] holds too, and the calls made so far. *)
Record Session := mkSession {
  model_parameters : list Param;
  calls : list Call
}.

(** The result of [model(images)]: its value and what the graph
    remembers, the parameter values and the input. *)
Record Output := mkOutput {
  out_value : Tensor A;
  out_graph : list (Tensor A) * Tensor A
}.

(** The result of [criterion(output, labels)]. *)
Record Loss := mkLoss {
  loss_value : A;
  loss_graph : list (Tensor A) * Tensor A * list nat
}.

Definition M (X : Type) : Type := Session → X * Session.
Definition ret {X} (x : X) : M X := λ s, (x, s).
Definition bind {X Y} (m : M X) (k : X → M Y) : M Y :=
  λ s, let '(x, s') := m s in k x s'.

Notation "x ←← m ;; k" := (bind m (λ x, k))
  (at level 100, m at next level, right associativity).
Notation "m ;;; k" := (bind m (λ _, k))
  (at level 100, right associativity).

Definition record_call (c : Call) : M () :=
  λ s, ((), mkSession (model_parameters s) (calls s ++ [c])).

Definition update_parameters (f : list Param → list Param) : M () :=
  λ s, ((), mkSession (f (model_parameters s)) (calls s)).

Definition parameter_values : M (list (Tensor A)) :=
  λ s, (p_data <$> model_parameters s, s).

(** [optimizer.zero_grad()]: every gradient that exists is zeroed in
    place. *)
Definition zero_grad (p : Param) : Param :=
  mkParam (p_data p) (zeros_like <$> p_grad p).

Definition optimizer_zero_grad : M () :=
  record_call CallZeroGrad ;;;
  update_parameters (fmap zero_grad).

(** [model(images)], also written [model.forward(images)]. *)
Definition model_forward (images : Tensor A) : M Output :=
  record_call CallForward ;;;
  θ ←← parameter_values ;;
  ret (mkOutput (forward_fn θ images) (θ, images)).

(** [criterion(output, labels)] *)
Definition criterion (output : Output) (labels : list nat) : M Loss :=
  record_call CallCriterion ;;;
  ret (mkLoss (criterion_fn (out_value output) labels)
              (out_graph output, labels)).

(** [loss.backward()]: the gradient of each parameter is added to its
    [.grad]; a [.grad] that is [None] is set. *)
Definition accumulate (p : Param) (g : Tensor A) : Param :=
  mkParam (p_data p)
    (Some (match p_grad p with
           | None => g
           | Some old => tensor_zip sadd old g
           end)).

Fixpoint backward_into (ps : list Param) (gs : list (Tensor A))
    : list Param :=
  match ps, gs with
  | p :: ps', g :: gs' => accumulate p g :: backward_into ps' gs'
  | _, _ => ps
  end.

Definition loss_backward (loss : Loss) : M () :=
  record_call CallBackward ;;;
  let '(θ, images, labels) := loss_graph loss in
  update_parameters (λ ps, backward_into ps (grad_fn θ images labels)).

(** [optimizer.step()] of [optim.SGD(model.parameters(), lr=lr)], with
    no momentum and no weight decay: [p.add_(p.grad, alpha=-lr)], that is
    [p = p - lr * p.grad] in one operation, for every parameter that has a
    gradient. *)
Definition sgd_update (lr : A) (p : Param) : Param :=
  match p_grad p with
  | None => p
  | Some g =>
      mkParam (tensor_zip (λ x d, ssubmul x lr d) (p_data p) g)
                  (Some g)
  end.

Definition optimizer_step (lr : A) : M () :=
  record_call CallStep ;;;
  update_parameters (fmap (sgd_update lr)).

(** The training pass of the loop:
<<
      optimizer.zero_grad()
      output = model.forward(images)
      loss = criterion(output, labels)
      loss.backward()
      optimizer.step()
>>
*)
Definition training_pass (lr : A) (images : Tensor A) (labels : list nat)
    : M Loss :=
  optimizer_zero_grad ;;;
  output ←← model_forward images ;;
  loss ←← criterion output labels ;;
  loss_backward loss ;;;
  optimizer_step lr ;;;
  ret loss.

(** The same pass without its first line. *)
Definition training_pass_without_zero_grad (lr : A) (images : Tensor A)
    (labels : list nat) : M Loss :=
  output ←← model_forward images ;;
  loss ←← criterion output labels ;;
  loss_backward loss ;;;
  optimizer_step lr ;;;
  ret loss.

(** The demonstration step, two notebook cells run one after the other:
<<
    images.resize_(64, 784)
    optimizer.zero_grad()
    output = model(images)
    loss = criterion(output, labels)
    loss.backward()
    optimizer.step()
>>
*)
Definition demonstration_step (uninit : nat → A) (lr : A)
    (images : Tensor A) (labels : list nat) : M Loss :=
  let images := resize_64_784 uninit images in
  optimizer_zero_grad ;;;
  output ←← model_forward images ;;
  loss ←← criterion output labels ;;
  loss_backward loss ;;;
  optimizer_step lr ;;;
  ret loss.

(** Two consecutive steps on the batches [b1] and [b2]. *)
Definition two_steps (step : Tensor A → list nat → M Loss)
    (b1 b2 : Tensor A * list nat) : M Loss :=
  step b1.1 b1.2 ;;;
  step b2.1 b2.2.

(** *** The epoch loop *)

Context {F : Type} `{PyFloat A F}.

(** The body of [for images, labels in trainloader], from the running
    loss so far; [None] when flattening a batch raises. *)
Fixpoint epoch_batches (lr : A) (batches : list (Tensor A * list nat))
    (running_loss : F) (s : Session) : option (F * Session) :=
  match batches with
  | [] => Some (running_loss, s)
  | (images, labels) :: rest =>
      images ← flatten_batch images;
      let '(loss, s') := training_pass lr images labels s in
      epoch_batches lr rest (pf_add running_loss (item (loss_value loss))) s'
  end.

(** One epoch: [running_loss = 0], the loop, and the value that
    [print(f"Training loss: {running_loss/len(trainloader)}")] prints.
    Dividing by the length of an empty loader raises
    ZeroDivisionError. *)
Definition epoch (lr : A) (trainloader : list (Tensor A * list nat))
    (s : Session) : option (F * Session) :=
  '(running_loss, s') ← epoch_batches lr trainloader (pf_of_nat 0) s;
  if decide (length trainloader = 0) then None
  else Some (pf_div running_loss (pf_of_nat (length trainloader)), s').

(** [for e in range(epochs)]: the loader yields the batches of each
    epoch, reshuffled; the result is what the cell prints. *)
Fixpoint train (lr : A) (loaders : list (list (Tensor A * list nat)))
    (s : Session) : option (list F * Session) :=
  match loaders with
  | [] => Some ([], s)
  | trainloader :: rest =>
      '(training_loss, s') ← epoch lr trainloader s;
      '(printed, s'') ← train lr rest s';
      Some (training_loss :: printed, s'')
  end.

(** The scalar losses of the batches of an epoch, in order: each is the
    loss of its batch at the parameter values the earlier batches have
    left. *)
Fixpoint batch_losses (lr : A) (batches : list (Tensor A * list nat))
    (θ : list Param) : list A :=
  match batches with
  | [] => []
  | (images, labels) :: rest =>
      match flatten_batch images with
      | None => []
      | Some images =>
          let values := p_data <$> θ in
          let grads := grad_fn values images labels in
          criterion_fn (forward_fn values images) labels
          :: batch_losses lr rest
               (sgd_update lr <$> backward_into (zero_grad <$> θ) grads)
      end
  end.
End Training.

Arguments Param : clear implicits.
Arguments Session : clear implicits.
Arguments Output : clear implicits.
Arguments Loss : clear implicits.

(** ** What a training step is required to do *)

Section TrainingSpec.
Context {A : Type} `{Scalar A} `{Autograd A}.

(** The effect that the spec requires of three of the five calls, on one
    parameter, in the spec's words. *)

(** "Clear the previously accumulated gradient state": the value stays;
    a gradient that exists becomes zeros of its shape; one that does not
    exist stays absent. *)
Definition gradient_cleared (before after : Param A) : Prop :=
  p_data after = p_data before
  ∧ match p_grad before with
    | None => p_grad after = None
    | Some old =>
        ∃ zeros, p_grad after = Some zeros
          ∧ shape zeros = shape old
          ∧ data zeros = replicate (length (data old)) szero
    end.

(** "Propagate gradients backward into every differentiable parameter":
    the value stays; the gradient [g] of the parameter is stored where
    there was none and added, element by element, to the one that was
    there. *)
Definition gradient_propagated (g : Tensor A) (before after : Param A)
    : Prop :=
  p_data after = p_data before
  ∧ match p_grad before with
    | None => p_grad after = Some g
    | Some old =>
        ∃ sum, p_grad after = Some sum
          ∧ shape sum = shape old
          ∧ length (data sum) = length (data old) `min` length (data g)
          ∧ ∀ j a b, data old !! j = Some a → data g !! j = Some b →
              data sum !! j = Some (sadd a b)
    end.

(** "Apply one optimizer update using the current gradient and the
    configured learning rate": the gradient stays; every element [x] of a
    parameter with the gradient element [d] becomes [x - lr * d]; a
    parameter without gradient stays. *)
Definition parameter_updated (lr : A) (before after : Param A) : Prop :=
  p_grad after = p_grad before
  ∧ match p_grad before with
    | None => p_data after = p_data before
    | Some d =>
        shape (p_data after) = shape (p_data before)
        ∧ length (data (p_data after))
          = length (data (p_data before)) `min` length (data d)
        ∧ ∀ j x dj, data (p_data before) !! j = Some x →
            data d !! j = Some dj →
            data (p_data after) !! j = Some (ssubmul x lr dj)
    end.

(** "A batch of inputs and matching target labels", as the network of
    the notebook and its loss accept them: rows of 784 inputs, and one
    label for each row. *)
Definition matching_batch (images : Tensor A) (labels : list nat) : Prop :=
  shape images = [length labels; 784]
  ∧ length (data images) = length labels * 784.

(** [result] is what the five calls, made in this order from [s], give.
    Each call is recorded when it is made and has the effect the spec
    names: the gradients are cleared; the output is computed from the
    parameter values; the loss from the output and the labels; the
    gradient of each parameter is propagated into it; the optimizer
    updates every parameter.  Nothing else changes a parameter, and none
    is added or dropped. *)
Definition five_calls_in_order (lr : A) (images : Tensor A)
    (labels : list nat) (s : Session A) (result : Loss A * Session A) : Prop :=
  let θ := p_data <$> model_parameters s in
  let gs := grad_fn θ images labels in
  ∃ s1 output s2 loss s3 s4 s5,
    optimizer_zero_grad s = ((), s1)
    ∧ model_forward images s1 = (output, s2)
    ∧ criterion output labels s2 = (loss, s3)
    ∧ loss_backward loss s3 = ((), s4)
    ∧ optimizer_step lr s4 = ((), s5)
    ∧ result = (loss, s5)
    ∧ calls s1 = calls s ++ [CallZeroGrad]
    ∧ calls s2 = calls s1 ++ [CallForward]
    ∧ calls s3 = calls s2 ++ [CallCriterion]
    ∧ calls s4 = calls s3 ++ [CallBackward]
    ∧ calls s5 = calls s4 ++ [CallStep]
    ∧ Forall2 gradient_cleared (model_parameters s) (model_parameters s1)
    ∧ model_parameters s2 = model_parameters s1
    ∧ out_value output = forward_fn θ images
    ∧ model_parameters s3 = model_parameters s2
    ∧ loss_value loss = criterion_fn (out_value output) labels
    ∧ length (model_parameters s4) = length (model_parameters s3)
    ∧ (∀ k p3, model_parameters s3 !! k = Some p3 →
         match gs !! k with
         | Some g =>
             ∃ p4, model_parameters s4 !! k = Some p4
               ∧ gradient_propagated g p3 p4
         | None => model_parameters s4 !! k = Some p3
         end)
    ∧ Forall2 (parameter_updated lr) (model_parameters s4)
        (model_parameters s5).

(** Two tensors of one shape and size. *)
Definition same_size (t u : Tensor A) : Prop :=
  shape t = shape u ∧ length (data t) = length (data u).

(** Two parameters of equal value whose gradients, if they have
    accumulated any, may hold any values. *)
Definition same_value_any_grad (p q : Param A) : Prop :=
  p_data p = p_data q
  ∧ match p_grad p, p_grad q with
    | None, None => True
    | Some g, Some g' => same_size g g'
    | _, _ => False
    end.

(** A session as the notebook cell starts it: no gradient yet. *)
Definition fresh_session (s : Session A) : Prop :=
  Forall (λ p, p_grad p = None) (model_parameters s).

(** Some element of the tensor is not zero. *)
Definition nonzero (t : Tensor A) : Prop :=
  ∃ j d, data t !! j = Some d ∧ d ≠ szero.
End TrainingSpec.


(** A model whose gradient is known in closed form, for concrete runs: one
    weight vector [w], the output [w . x] and the output itself as loss.
    The gradient of the loss with respect to [w] is the input [x]. *)
Definition dot {A} `{Scalar A} (w x : list A) : A :=
  foldr sadd szero (zip_with smul w x).

Definition linear_scorer (A : Type) `{Scalar A} : Autograd A := {|
  forward_fn := λ θ images,
    mkTensor [1] [dot (mjoin (data <$> θ)) (data images)];
  criterion_fn := λ output _, default szero (head (data output));
  grad_fn := λ θ images _,
    match θ with
    | w :: _ => [mkTensor (shape w) (data images)]
    | [] => []
    end
|}.


(** ** Architectures

    What it means for a model, and for a checkpoint, to have a declared
    architecture: an input size, an output size and a sequence of hidden
    widths. *)

Section Architecture.
Context {A : Type}.

Definition linear_ok (i o : nat) (l : Linear A) : Prop :=
  in_features l = i ∧ out_features l = o
  ∧ shape (weight l) = [o; i] ∧ shape (bias l) = [o].

Fixpoint layers_ok (i : nat) (hs : list nat) (ls : list (Linear A)) : Prop :=
  match hs, ls with
  | [], [] => True
  | h :: hs', l :: ls' => linear_ok i h l ∧ layers_ok h hs' ls'
  | _, _ => False
  end.

(** [model] is a network of this architecture, whatever the values of
    its parameters. *)
Definition has_architecture (input_size output_size : nat) (hs : list nat)
    (model : Network A) : Prop :=
  layers_ok input_size hs (hidden_layers model)
  ∧ linear_ok (default input_size (last hs)) output_size (output model).

(** The names and shapes of the parameters of an architecture. *)
Fixpoint hidden_shapes (j i : nat) (hs : list nat)
    : list (string * list nat) :=
  match hs with
  | [] => []
  | h :: hs' =>
      [(hidden_prefix j +:+ "weight", [h; i]);
       (hidden_prefix j +:+ "bias", [h])]
      ++ hidden_shapes (S j) h hs'
  end.

Definition declared_shapes (input_size output_size : nat) (hs : list nat)
    : list (string * list nat) :=
  hidden_shapes 0 input_size hs
  ++ [(output_prefix +:+ "weight",
       [output_size; default input_size (last hs)]);
      (output_prefix +:+ "bias", [output_size])].

Definition param_shapes (sd : list (string * Tensor A))
    : list (string * list nat) :=
  (λ kv, (kv.1, shape kv.2)) <$> sd.

(** The invariant of a checkpoint: its declared architecture is the one
    of the tensors in its state dictionary. *)
Definition consistent (ck : Checkpoint A) : Prop :=
  param_shapes (ckpt_state_dict ck)
  = declared_shapes (ckpt_input_size ck) (ckpt_output_size ck)
                    (ckpt_hidden_layers ck).

(** Loading [sd] into [model] affects the parameter [key] when the two
    disagree on it: the model has it and [sd] has not, or has it with
    another shape, or [sd] has it and the model has not. *)
Definition affected (model : Network A) (sd : list (string * Tensor A))
    (key : string) : Prop :=
  (∃ param, (key, param) ∈ state_dict model
     ∧ match dict_get sd key with
       | None => True
       | Some input_param => shape input_param ≠ shape param
       end)
  ∨ (key ∈ sd.*1 ∧ key ∉ (state_dict model).*1).

(** What loading does entry by entry to the parameters [entries] of a
    model: the tensors it leaves, the size mismatches and the missing
    keys. *)
Definition loaded_entries (sd entries : list (string * Tensor A))
    : list (string * Tensor A) :=
  (λ kv, (kv.1, (load_tensor sd kv.1 kv.2).1)) <$> entries.

Definition entry_mismatches (sd entries : list (string * Tensor A))
    : list LoadError :=
  mjoin ((λ kv, (load_tensor sd kv.1 kv.2).2.1) <$> entries).

Definition entry_missing (sd entries : list (string * Tensor A))
    : list string :=
  mjoin ((λ kv, (load_tensor sd kv.1 kv.2).2.2) <$> entries).

(** The entry [e] of an error message names the parameter [key]. *)
Definition names_parameter (e : LoadError) (key : string) : Prop :=
  match e with
  | SizeMismatch k _ _ => k = key
  | MissingKeys ks | UnexpectedKeys ks => key ∈ ks
  end.
End Architecture.

(** ** Concrete models *)

(** [fc_model.Network(3, 2, [4])] with the parameter values 0, 1, 2, ... *)
Definition small_network : Network Z :=
  fc_model_Network (λ k, Z.of_nat k) 3 2 [4].

(** The model of the notebook, [fc_model.Network(784, 10, [512, 256, 128])],
    with every parameter equal to 1.0. *)
Definition notebook_network : Network Float32.float32 :=
  fc_model_Network (λ _, Float32.one) 784 10 [512; 256; 128].

(** The model the notebook builds next and fails to load into,
    [fc_model.Network(784, 10, [400, 200, 100])], freshly initialised. *)
Definition notebook_other_network : Network Float32.float32 :=
  fc_model_Network (λ _, Float32.zero) 784 10 [400; 200; 100].

(** ** Concrete sessions

    One weight vector with one element, trained with [linear_scorer]. *)

(** In single precision: the weight 1.0, no gradient yet. *)
Definition float32_session : Session Float32.float32 :=
  mkSession [mkParam (mkTensor [1] [Float32.one]) None] [].

(** The same weight after gradients 1.0 and 2.0 have accumulated. *)
Definition float32_session_grad_one : Session Float32.float32 :=
  mkSession [mkParam (mkTensor [1] [Float32.one])
                     (Some (mkTensor [1] [Float32.one]))] [].
Definition float32_session_grad_two : Session Float32.float32 :=
  mkSession [mkParam (mkTensor [1] [Float32.one])
                     (Some (mkTensor [1] [Float32.two]))] [].

(** The same weight with the gradient 2^-149, as a backward pass has
    left it. *)
Definition float32_session_grad_tiny : Session Float32.float32 :=
  mkSession [mkParam (mkTensor [1] [Float32.one])
                     (Some (mkTensor [1] [Float32.tiny]))] [].

(** Inputs with one element: 2^-149, 0.0 and 1.0. *)
Definition float32_tiny_input : Tensor Float32.float32 :=
  mkTensor [1] [Float32.tiny].
Definition float32_zero_input : Tensor Float32.float32 :=
  mkTensor [1] [Float32.zero].
Definition float32_one_input : Tensor Float32.float32 :=
  mkTensor [1] [Float32.one].

(** The input 22.0, and a batch of one row of 784 inputs 1.0. *)
Definition float32_twenty_two_input : Tensor Float32.float32 :=
  mkTensor [1] [Float32.twenty_two].
Definition float32_batch : Tensor Float32.float32 :=
  mkTensor [1; 784] (replicate 784 Float32.one).


(** In exact arithmetic: the weight 1, no gradient yet, and the inputs 2
    and 3. *)
Definition Z_session : Session Z :=
  mkSession [mkParam (mkTensor [1] [1%Z]) None] [].
Definition Z_input_two : Tensor Z := mkTensor [1] [2%Z].
Definition Z_input_three : Tensor Z := mkTensor [1] [3%Z].

(** ** The input pipeline

    [transform], [trainset] and [trainloader] of the first cell of the
    training notebook. *)

Module Transform.
Import SpecFloat.

Definition div : Float32.float32 → Float32.float32 → Float32.float32 :=
  SFdiv Float32.prec Float32.emax.

(** The conversion of an integer to single precision. *)
Definition of_Z (z : Z) : Float32.float32 :=
  binary_normalize Float32.prec Float32.emax z 0 false.

(** 0.5 and -1.0 *)
Definition half : Float32.float32 := S754_finite false 8388608 (-24).
Definition minus_one : Float32.float32 := S754_finite true 8388608 (-23).

(** [transforms.ToTensor()] on an 8-bit greyscale image of [h] rows and
    [w] columns, given by its pixels row by row: a float tensor of shape
    [1, h, w], every pixel converted to float and divided by 255
    ([img.float().div(255)]). *)
Definition ToTensor (h w : nat) (pixels : list Byte.byte)
    : Tensor Float32.float32 :=
  mkTensor [1; h; w]
    ((λ p, div (of_Z (Z.of_N (Byte.to_N p))) (of_Z 255)) <$> pixels).

(** [transforms.Normalize((mean,), (std,))] on a tensor of one channel:
    [(x - mean) / std] for every element. *)
Definition Normalize (mean std : Float32.float32)
    (t : Tensor Float32.float32) : Tensor Float32.float32 :=
  mkTensor (shape t) ((λ x, div (Float32.sub x mean) std) <$> data t).

(** [transforms.Compose([transforms.ToTensor(),
                        transforms.Normalize((0.5,), (0.5,))])] *)
Definition transform (h w : nat) (pixels : list Byte.byte)
    : Tensor Float32.float32 :=
  Normalize half half (ToTensor h w pixels).
End Transform.

(** A list of floats in strictly increasing order. *)
Fixpoint strictly_increasing (l : list Float32.float32) : bool :=
  match l with
  | [] => true
  | v :: rest => forallb (SpecFloat.SFltb v) rest && strictly_increasing rest
  end.

Section DataLoader.
Context {A : Type}.

(** PyTorch's [BatchSampler(sampler, batch_size, drop_last=False)], which
    a loader with [batch_size] uses: the batches of indices drawn from
    the indices that the sampler yields.  An index is appended to the
    current batch, a batch of [batch_size] indices is yielded and a new
    one begun, and at the end what is left is yielded if it is not
    empty. *)
Fixpoint batch_sampler (batch_size : nat) (sampler batch : list nat)
    : list (list nat) :=
  match sampler with
  | [] => if decide (0 < length batch) then [batch] else []
  | idx :: rest =>
      let batch := batch ++ [idx] in
      if decide (length batch = batch_size)
      then batch :: batch_sampler batch_size rest []
      else batch_sampler batch_size rest batch
  end.

(** [torch.stack(tensors, 0)]: the tensors, all of one shape, along a new
    first dimension. *)
Definition stack (tensors : list (Tensor A)) : option (Tensor A) :=
  match tensors with
  | [] => None
  | t :: _ =>
      if decide (Forall (λ u, shape u = shape t) tensors)
      then Some (mkTensor (length tensors :: shape t) (mjoin (data <$> tensors)))
      else None
  end.

(** The default [collate_fn] on the samples of a batch, pairs of an image
    and a label: the images stacked, the labels in a list. *)
Definition default_collate (samples : list (Tensor A * nat))
    : option (Tensor A * list nat) :=
  images ← stack samples.*1; Some (images, samples.*2).

(** The batch of a list of indices,
    [collate_fn([trainset[idx] for idx in batch])]; [None] when an index
    is out of range or the images cannot be stacked. *)
Definition fetch (trainset : list (Tensor A * nat)) (batch : list nat)
    : option (Tensor A * list nat) :=
  samples ← mapM (λ idx, trainset !! idx) batch; default_collate samples.

(** [len(DataLoader(trainset, batch_size=batch_size))], the length of its
    batch sampler, for a dataset on which the loader can be
    constructed. *)
Definition DataLoader_len (batch_size : nat) (trainset : list (Tensor A * nat))
    : nat :=
  (length trainset + batch_size - 1) `div` batch_size.

(** One pass over [DataLoader(trainset, batch_size=batch_size,
    shuffle=True)]: the batches in the order [perm] that the shuffle of
    this pass has drawn, a permutation of the indices of [trainset].
    [None] when the dataset is empty, for which constructing the loader
    with [shuffle=True] raises ValueError, when a sample cannot be
    fetched and when a batch cannot be collated. *)
Definition DataLoader_iter (batch_size : nat) (perm : list nat)
    (trainset : list (Tensor A * nat)) : option (list (Tensor A * list nat)) :=
  match trainset with
  | [] => None
  | _ :: _ => mapM (fetch trainset) (batch_sampler batch_size perm [])
  end.

(** [trainloader], with the notebook's [batch_size=64], and
    [next(iter(trainloader))]. *)
Definition trainloader_len (trainset : list (Tensor A * nat)) : nat :=
  DataLoader_len 64 trainset.

Definition trainloader_iter (perm : list nat)
    (trainset : list (Tensor A * nat)) : option (list (Tensor A * list nat)) :=
  DataLoader_iter 64 perm trainset.

Definition trainloader_next (perm : list nat)
    (trainset : list (Tensor A * nat)) : option (Tensor A * list nat) :=
  batches ← trainloader_iter perm trainset; head batches.
End DataLoader.

(** ** The prediction cell *)

(** [t[i]]: the slice of index [i] along the first dimension (IndexError
    when [i] is out of range or [t] has no dimension). *)
Definition tensor_select {A} (t : Tensor A) (i : nat) : option (Tensor A) :=
  match shape t with
  | d0 :: rest =>
      if decide (i < d0)
      then Some (mkTensor rest
                   (take (numel rest) (drop (i * numel rest) (data t))))
      else None
  | [] => None
  end.

(** [t.view(d0, d1, ...)] with every size given: PyTorch refuses sizes
    that do not give the number of elements of [t]. *)
Definition view {A} (t : Tensor A) (sh : list nat) : option (Tensor A) :=
  if decide (numel sh = numel (shape t)) then Some (mkTensor sh (data t))
  else None.

(** [img = images[0].view(1, 784)] *)
Definition first_image {A} (images : Tensor A) : option (Tensor A) :=
  img ← tensor_select images 0; view img [1; 784].

(** ** The cells of the checkpoint notebook *)

Section Cells.
Context {A : Type}.

(** What a successful [load_state_dict] returns and the notebook
    displays, [IncompatibleKeys(missing_keys=[], unexpected_keys=[])]. *)
Record IncompatibleKeys := mkIncompatibleKeys {
  ik_missing_keys : list string;
  ik_unexpected_keys : list string
}.

(** [model.load_state_dict(sd)] as a statement of a cell: the object
    [model] after the call, which copies the tensors that fit into it
    before it raises, and what the call returns or raises. *)
Definition load_state_dict_statement (model : Network A)
    (sd : list (string * Tensor A)) : Network A * Result IncompatibleKeys :=
  ((load_params model sd).1,
   match load_state_dict model sd with
   | Return _ =>
       Return (mkIncompatibleKeys (load_params model sd).2.2
                                  (unexpected_keys model sd))
   | Raise e => Raise e
   end).

(** [torch.save(model.state_dict(), 'checkpoint.pth')] *)
Definition save_state_dict (model : Network A) (fs : gmap string (Pickle A))
    : gmap string (Pickle A) :=
  torch_save (PickledStateDict (state_dict model)) "checkpoint.pth" fs.

(** The cell that builds a model of other widths and loads the state
    dictionary of the first into it:
<<
    model = fc_model.Network(784, 10, [400, 200, 100])
    model.load_state_dict(state_dict)
>>
    The variable [model] is bound when the second line raises. *)
Definition other_model_cell (rng : nat → A) (sd : list (string * Tensor A))
    : Network A * Result IncompatibleKeys :=
  let model := fc_model_Network rng 784 10 [400; 200; 100] in
  load_state_dict_statement model sd.
End Cells.

(** Two layers, and two networks, whose parameters have the same names
    and shapes, whatever their values. *)
Definition same_shapes_Linear {A} (l l' : Linear A) : Prop :=
  in_features l = in_features l' ∧ out_features l = out_features l'
  ∧ shape (weight l) = shape (weight l') ∧ shape (bias l) = shape (bias l').

Definition same_shapes {A} (model model' : Network A) : Prop :=
  Forall2 same_shapes_Linear (hidden_layers model) (hidden_layers model')
  ∧ same_shapes_Linear (output model) (output model').

(** ** Rounding

    The state of SpecFloat's right shift after [k] steps from the
    mantissa [m0]: the quotient by [2^k], the bit shifted out last and
    whether a lower bit was set. *)
Definition shifted (m0 k : Z) (mrs : SpecFloat.shr_record) : Prop :=
  (0 ≤ SpecFloat.shr_m mrs)%Z
  ∧ ∃ low : Z,
      (0 ≤ low < 2 ^ k)%Z
      ∧ (2 * m0 = 2 * SpecFloat.shr_m mrs * 2 ^ k
                  + (if SpecFloat.shr_r mrs then 2 ^ k else 0) + low)%Z
      ∧ (SpecFloat.shr_s mrs = true ↔ (0 < low)%Z).

(** * Properties *)

(** ** Single precision *)

(** The constants are numbers of the format. *)
Example float32_constants_valid :
  Forall (λ x, SpecFloat.valid_binary Float32.prec Float32.emax x = true)
    [Float32.zero; Float32.one; Float32.two; Float32.lr_0_01; Float32.tiny].
Proof. repeat constructor. Qed.

(** 0.01 * 2^-149 rounds to zero, 1.0 - 0.01 * 2^-149 rounds to 1.0, and
    2^-149 is absorbed by 1.0. *)
Example float32_absorption :
  Float32.mul Float32.lr_0_01 Float32.tiny = Float32.zero
  ∧ Float32.submul Float32.one Float32.lr_0_01 Float32.tiny = Float32.one
  ∧ Float32.add Float32.tiny Float32.one = Float32.one.
Proof. repeat split; vm_compute; reflexivity. Qed.

(** 1.0 - 0.01 * 1.0 is 0.99.  1.0 - 0.01 * 22.0 is rounded once: the
    product and the difference rounded one after the other give the
    float below it. *)
Example float32_step :
  Float32.submul Float32.one Float32.lr_0_01 Float32.one
  = SpecFloat.S754_finite false 16609444 (-24)
  ∧ Float32.submul Float32.one Float32.lr_0_01
      (SpecFloat.S754_finite false 11534336 (-19))
    = SpecFloat.S754_finite false 13086229 (-24)
  ∧ Float32.sub Float32.one
      (Float32.mul Float32.lr_0_01 (SpecFloat.S754_finite false 11534336 (-19)))
    = SpecFloat.S754_finite false 13086228 (-24).
Proof. repeat split; vm_compute; reflexivity. Qed.

(** ** Flattening a batch of images *)

Lemma numel_batch n : numel [n; 1; 28; 28] = n * 784.
Proof. unfold numel; cbn [foldr]. lia. Qed.

Lemma numel_64_784 : numel [64; 784] = 64 * 784.
Proof. unfold numel; cbn [foldr]. lia. Qed.

Lemma view_infer_batch {A} (images : Tensor A) n :
  0 < n → shape images = [n; 1; 28; 28] →
  view_infer images n = Some (mkTensor [n; 784] (data images)).
Proof.
  intros Hn Hsh. unfold view_infer. rewrite Hsh, numel_batch.
  rewrite decide_True.
  - rewrite (Nat.mul_comm n 784), Nat.div_mul by lia. done.
  - split; [lia|]. rewrite Nat.mul_comm. apply Nat.Div0.mod_mul.
Qed.

Lemma resize_length {A} (uninit : nat → A) (t : Tensor A) sh :
  length (data (resize_ uninit t sh)) = numel sh.
Proof.
  unfold resize_; cbn [data].
  rewrite length_app, length_take, length_fmap, length_seq. lia.
Qed.

Lemma resize_same_numel {A} (uninit : nat → A) (t : Tensor A) sh :
  length (data t) = numel sh → data (resize_ uninit t sh) = data t.
Proof.
  intros Hlen. unfold resize_; cbn [data].
  rewrite take_ge by lia. rewrite Hlen, Nat.sub_diag. cbn. by rewrite app_nil_r.
Qed.

(** C10.  A batch of [n >= 1] images of shape [n, 1, 28, 28] is flattened
    by the training loop's [images.view(images.shape[0], -1)] into a tensor
    of shape [n, 784] with the same elements in the same order: pixel
    [(y, x)] of image [i] is element [28 * y + x] of row [i].  The
    demonstration step's [images.resize_(64, 784)] always yields shape
    [64, 784], and its elements are those of the batch exactly when the
    batch has 64 images. *)
Theorem flatten_view_every_batch_resize_only_64 {A} (uninit : nat → A)
    (images : Tensor A) (n : nat) :
  0 < n →
  shape images = [n; 1; 28; 28] →
  length (data images) = numel (shape images) →
  (∃ flat, flatten_batch images = Some flat
     ∧ shape flat = [n; 784]
     ∧ data flat = data images
     ∧ ∀ i y x, i < n → y < 28 → x < 28 →
         is_Some (tensor_get images [i; 0; y; x])
         ∧ tensor_get flat [i; 28 * y + x] = tensor_get images [i; 0; y; x])
  ∧ shape (resize_64_784 uninit images) = [64; 784]
  ∧ (data (resize_64_784 uninit images) = data images ↔ n = 64).
Proof.
  intros Hn Hsh Hlen. rewrite Hsh, numel_batch in Hlen. split; [|split].
  - exists (mkTensor [n; 784] (data images)). split; [|split; [done|split; [done|]]].
    { unfold flatten_batch. rewrite Hsh. by apply view_infer_batch. }
    intros i y x Hi Hy Hx. unfold tensor_get; cbn [shape data]. rewrite Hsh.
    cbn [ravel]. rewrite !decide_True by lia. cbn [mbind option_bind].
    replace (0 * n + i) with i by lia.
    replace (((i * 1 + 0) * 28 + y) * 28 + x) with (i * 784 + (28 * y + x)) by lia.
    split; [|done]. apply lookup_lt_is_Some. lia.
  - done.
  - unfold resize_64_784. split.
    + intros Heq. apply (f_equal length) in Heq.
      rewrite resize_length, numel_64_784, Hlen in Heq. lia.
    + intros ->. apply resize_same_numel. rewrite numel_64_784. done.
Qed.

(** The final batch of the loader has 32 images (60000 = 937 * 64 + 32):
    the loop flattens it to shape [32, 784]. *)
Lemma flatten_view_every_batch_resize_only_64_witness :
  ∃ flat,
    flatten_batch (mkTensor [32; 1; 28; 28] (replicate (32 * 784) Float32.zero))
    = Some flat
    ∧ shape flat = [32; 784]
    ∧ data (resize_64_784 (λ _, Float32.one)
              (mkTensor [32; 1; 28; 28] (replicate (32 * 784) Float32.zero)))
      ≠ replicate (32 * 784) Float32.zero.
Proof.
  destruct (flatten_view_every_batch_resize_only_64 (λ _, Float32.one)
    (mkTensor [32; 1; 28; 28] (replicate (32 * 784) Float32.zero)) 32)
    as ((flat & Hflat & Hsh & _) & _ & Hresize).
  - lia.
  - reflexivity.
  - cbn [data shape]. rewrite length_replicate, numel_batch. reflexivity.
  - exists flat. split; [exact Hflat|]. split; [exact Hsh|].
    intros Heq. apply Hresize in Heq. lia.
Defined.

(** ** Parameter names *)

Lemma chars_app s1 s2 :
  String.list_ascii_of_string (s1 +:+ s2)
  = String.list_ascii_of_string s1 ++ String.list_ascii_of_string s2.
Proof.
  induction s1 as [|a s1 IH]; [done|].
  change (String a s1 +:+ s2) with (String a (s1 +:+ s2)).
  cbn [String.list_ascii_of_string]. by rewrite IH.
Qed.

Lemma chars_inj s1 s2 :
  String.list_ascii_of_string s1 = String.list_ascii_of_string s2 → s1 = s2.
Proof.
  intros Heq. rewrite <-(String.string_of_list_ascii_of_string s1),
    <-(String.string_of_list_ascii_of_string s2). by rewrite Heq.
Qed.

Lemma string_app_inv_tail s1 s2 t : s1 +:+ t = s2 +:+ t → s1 = s2.
Proof.
  intros Heq. apply chars_inj. apply (f_equal String.list_ascii_of_string) in Heq.
  rewrite !chars_app in Heq. by apply app_inv_tail in Heq.
Qed.

Lemma hidden_prefix_inj i j : hidden_prefix i = hidden_prefix j → i = j.
Proof.
  unfold hidden_prefix. intros Heq.
  apply (inj (String.app "hidden_layers.")) in Heq.
  apply string_app_inv_tail in Heq. by apply (inj pretty) in Heq.
Qed.

Lemma weight_ne_bias p q : p +:+ "weight" ≠ q +:+ "bias".
Proof.
  intros Heq. apply (f_equal String.list_ascii_of_string) in Heq.
  rewrite !chars_app in Heq. apply (f_equal reverse) in Heq.
  rewrite !reverse_app in Heq. discriminate Heq.
Qed.

Lemma hidden_ne_output i f g : hidden_prefix i +:+ f ≠ output_prefix +:+ g.
Proof.
  intros Heq. apply (f_equal String.list_ascii_of_string) in Heq.
  unfold hidden_prefix in Heq. rewrite !chars_app in Heq. discriminate Heq.
Qed.

(** ** Dictionaries *)

Lemma dict_get_app {V} (d1 d2 : list (string * V)) k :
  dict_get (d1 ++ d2) k
  = match dict_get d1 k with Some v => Some v | None => dict_get d2 k end.
Proof.
  induction d1 as [|[k' v] d1 IH]; [done|]. cbn [app dict_get].
  by destruct (decide (k = k')).
Qed.

Lemma dict_get_Some_elem_of {V} (d : list (string * V)) k v :
  dict_get d k = Some v → (k, v) ∈ d.
Proof.
  induction d as [|[k' v'] d IH]; [done|]. cbn [dict_get].
  destruct (decide (k = k')) as [->|]; intros Hget.
  - injection Hget as ->. apply elem_of_cons; by left.
  - apply elem_of_cons; right; auto.
Qed.

Lemma dict_get_None_keys {V} (d : list (string * V)) k :
  dict_get d k = None ↔ k ∉ d.*1.
Proof.
  induction d as [|[k' v'] d IH]; cbn [dict_get fmap list_fmap fst].
  - split; [intros _; apply not_elem_of_nil|done].
  - rewrite not_elem_of_cons. destruct (decide (k = k')) as [->|Hne].
    + split; [done|]. intros [? _]; done.
    + rewrite IH. tauto.
Qed.

Lemma filter_nil_iff {X} (P : X → Prop) `{∀ x, Decision (P x)} (l : list X) :
  filter P l = [] ↔ ∀ x, x ∈ l → ¬ P x.
Proof.
  induction l as [|y l IH].
  - split; [|done]. intros _ x Hx. by apply elem_of_nil in Hx.
  - rewrite filter_cons. destruct (decide (P y)) as [Hy|Hy].
    + split; [done|]. intros Hall. destruct (Hall y); [apply elem_of_cons; by left|done].
    + rewrite IH. split.
      * intros Hall x [->|Hx]%elem_of_cons; auto.
      * intros Hall x Hx. apply Hall, elem_of_cons; by right.
Qed.

(** ** The state dictionary of a network *)

Section StateDict.
Context {A : Type}.
Implicit Types (l : Linear A) (ls : list (Linear A)) (model : Network A).
Implicit Types (sd : list (string * Tensor A)).

Lemma dict_get_layer_weight p l :
  dict_get (layer_entries p l) (p +:+ "weight") = Some (weight l).
Proof. unfold layer_entries; cbn [dict_get]. by rewrite decide_True. Qed.

Lemma dict_get_layer_bias p l :
  dict_get (layer_entries p l) (p +:+ "bias") = Some (bias l).
Proof.
  unfold layer_entries; cbn [dict_get].
  rewrite decide_False; [by rewrite decide_True|].
  intros Heq. by apply (weight_ne_bias p p).
Qed.

Lemma dict_get_hidden_weight j ls k :
  dict_get (hidden_entries j ls) (hidden_prefix k +:+ "weight")
  = if decide (j ≤ k) then weight <$> ls !! (k - j) else None.
Proof.
  revert j. induction ls as [|l ls IH]; intros j.
  - cbn. by destruct (decide (j ≤ k)).
  - cbn [hidden_entries]. rewrite dict_get_app.
    unfold layer_entries; cbn [dict_get].
    destruct (decide (hidden_prefix k +:+ "weight"
                      = hidden_prefix j +:+ "weight")) as [Heq|Hne].
    + apply string_app_inv_tail, hidden_prefix_inj in Heq as ->.
      rewrite decide_True, Nat.sub_diag by lia. done.
    + rewrite decide_False by apply weight_ne_bias.
      rewrite IH. assert (k ≠ j) by congruence.
      destruct (decide (S j ≤ k)), (decide (j ≤ k)); try lia; [|done].
      replace (k - j) with (S (k - S j)) by lia. done.
Qed.

Lemma dict_get_hidden_bias j ls k :
  dict_get (hidden_entries j ls) (hidden_prefix k +:+ "bias")
  = if decide (j ≤ k) then bias <$> ls !! (k - j) else None.
Proof.
  revert j. induction ls as [|l ls IH]; intros j.
  - cbn. by destruct (decide (j ≤ k)).
  - cbn [hidden_entries]. rewrite dict_get_app.
    unfold layer_entries; cbn [dict_get].
    rewrite decide_False by (intros Heq; symmetry in Heq; by apply weight_ne_bias in Heq).
    destruct (decide (hidden_prefix k +:+ "bias"
                      = hidden_prefix j +:+ "bias")) as [Heq|Hne].
    + apply string_app_inv_tail, hidden_prefix_inj in Heq as ->.
      rewrite decide_True, Nat.sub_diag by lia. done.
    + rewrite IH. assert (k ≠ j) by congruence.
      destruct (decide (S j ≤ k)), (decide (j ≤ k)); try lia; [|done].
      replace (k - j) with (S (k - S j)) by lia. done.
Qed.

Lemma dict_get_hidden_output j ls f :
  dict_get (hidden_entries j ls) (output_prefix +:+ f) = None.
Proof.
  revert j. induction ls as [|l ls IH]; intros j; [done|].
  cbn [hidden_entries]. rewrite dict_get_app.
  unfold layer_entries; cbn [dict_get].
  rewrite !decide_False
    by (intros Heq; symmetry in Heq; by apply hidden_ne_output in Heq).
  apply IH.
Qed.

Lemma state_dict_hidden_weight model k :
  dict_get (state_dict model) (hidden_prefix k +:+ "weight")
  = weight <$> hidden_layers model !! k.
Proof.
  unfold state_dict. rewrite dict_get_app, dict_get_hidden_weight.
  rewrite decide_True, Nat.sub_0_r by lia.
  destruct (hidden_layers model !! k); [done|]. cbn.
  unfold layer_entries; cbn [dict_get].
  by rewrite !decide_False by apply hidden_ne_output.
Qed.

Lemma state_dict_hidden_bias model k :
  dict_get (state_dict model) (hidden_prefix k +:+ "bias")
  = bias <$> hidden_layers model !! k.
Proof.
  unfold state_dict. rewrite dict_get_app, dict_get_hidden_bias.
  rewrite decide_True, Nat.sub_0_r by lia.
  destruct (hidden_layers model !! k); [done|]. cbn.
  unfold layer_entries; cbn [dict_get].
  by rewrite !decide_False by apply hidden_ne_output.
Qed.

Lemma state_dict_output_weight model :
  dict_get (state_dict model) (output_prefix +:+ "weight")
  = Some (weight (output model)).
Proof.
  unfold state_dict.
  by rewrite dict_get_app, dict_get_hidden_output, dict_get_layer_weight.
Qed.

Lemma state_dict_output_bias model :
  dict_get (state_dict model) (output_prefix +:+ "bias")
  = Some (bias (output model)).
Proof.
  unfold state_dict.
  by rewrite dict_get_app, dict_get_hidden_output, dict_get_layer_bias.
Qed.

(** Every entry of the state dictionary is found under its name. *)
Lemma hidden_entries_lookup j ls key t :
  (key, t) ∈ hidden_entries j ls →
  ∃ k l, ls !! k = Some l
    ∧ ((key = hidden_prefix (j + k) +:+ "weight" ∧ t = weight l)
       ∨ (key = hidden_prefix (j + k) +:+ "bias" ∧ t = bias l)).
Proof.
  revert j. induction ls as [|l ls IH]; intros j; cbn [hidden_entries].
  - by intros ?%elem_of_nil.
  - unfold layer_entries. rewrite elem_of_app, !elem_of_cons, elem_of_nil.
    intros [[Heq|[Heq|[]]]|Hin].
    + injection Heq as -> ->. exists 0, l. rewrite Nat.add_0_r. auto.
    + injection Heq as -> ->. exists 0, l. rewrite Nat.add_0_r. auto.
    + apply IH in Hin as (k & l' & Hk & Hkey). exists (S k), l'.
      replace (j + S k) with (S j + k) by lia. auto.
Qed.

Lemma state_dict_elem_of model key t :
  (key, t) ∈ state_dict model → dict_get (state_dict model) key = Some t.
Proof.
  unfold state_dict at 1. rewrite elem_of_app. intros [Hin|Hin].
  - apply hidden_entries_lookup in Hin as (k & l & Hk & [[-> ->]|[-> ->]]);
      cbn [Nat.add].
    + by rewrite state_dict_hidden_weight, Hk.
    + by rewrite state_dict_hidden_bias, Hk.
  - unfold layer_entries in Hin.
    rewrite !elem_of_cons, elem_of_nil in Hin.
    destruct Hin as [Heq|[Heq|[]]]; injection Heq as -> ->.
    + apply state_dict_output_weight.
    + apply state_dict_output_bias.
Qed.

(** The names depend on the number of hidden layers only. *)
Lemma hidden_entries_names j ls ls' :
  length ls = length ls' →
  (hidden_entries j ls).*1 = (hidden_entries j ls').*1.
Proof.
  revert j ls'. induction ls as [|l ls IH]; intros j [|l' ls'] Hlen;
    try done.
  cbn [hidden_entries]. rewrite !fmap_app. f_equal.
  apply IH. by injection Hlen.
Qed.

Lemma state_dict_names model model' :
  length (hidden_layers model) = length (hidden_layers model') →
  (state_dict model).*1 = (state_dict model').*1.
Proof.
  intros Hlen. unfold state_dict. rewrite !fmap_app. f_equal.
  by apply hidden_entries_names.
Qed.
End StateDict.

(** ** Loading a state dictionary *)

Section Loading.
Context {A : Type}.
Implicit Types (l : Linear A) (ls : list (Linear A)) (model : Network A).
Implicit Types (sd : list (string * Tensor A)).

Lemma loaded_entries_app sd e1 e2 :
  loaded_entries sd (e1 ++ e2) = loaded_entries sd e1 ++ loaded_entries sd e2.
Proof. unfold loaded_entries. by rewrite fmap_app. Qed.

Lemma entry_mismatches_app sd e1 e2 :
  entry_mismatches sd (e1 ++ e2)
  = entry_mismatches sd e1 ++ entry_mismatches sd e2.
Proof. unfold entry_mismatches. by rewrite fmap_app, join_app. Qed.

Lemma entry_missing_app sd e1 e2 :
  entry_missing sd (e1 ++ e2) = entry_missing sd e1 ++ entry_missing sd e2.
Proof. unfold entry_missing. by rewrite fmap_app, join_app. Qed.

Lemma load_Linear_spec sd p l :
  let r := load_Linear sd p l in
  layer_entries p r.1 = loaded_entries sd (layer_entries p l)
  ∧ r.2.1 = entry_mismatches sd (layer_entries p l)
  ∧ r.2.2 = entry_missing sd (layer_entries p l)
  ∧ in_features r.1 = in_features l ∧ out_features r.1 = out_features l.
Proof.
  unfold load_Linear, loaded_entries, entry_mismatches, entry_missing,
    layer_entries. cbn [fmap list_fmap mjoin list_join fst snd].
  destruct (load_tensor sd (p +:+ "weight") (weight l)) as [w [e1 m1]].
  destruct (load_tensor sd (p +:+ "bias") (bias l)) as [b [e2 m2]].
  cbn. by rewrite !app_nil_r.
Qed.

Lemma load_hidden_spec sd j ls :
  let r := load_hidden sd j ls in
  hidden_entries j r.1 = loaded_entries sd (hidden_entries j ls)
  ∧ r.2.1 = entry_mismatches sd (hidden_entries j ls)
  ∧ r.2.2 = entry_missing sd (hidden_entries j ls)
  ∧ length r.1 = length ls.
Proof.
  revert j. induction ls as [|l ls IH]; intros j; [done|].
  cbn [load_hidden hidden_entries].
  pose proof (load_Linear_spec sd (hidden_prefix j) l) as Hl.
  pose proof (IH (S j)) as Hls. cbn zeta in Hl, Hls.
  destruct (load_Linear sd (hidden_prefix j) l) as [l1 [e1 m1]].
  destruct (load_hidden sd (S j) ls) as [ls1 [e2 m2]].
  cbn [fst snd] in *. destruct Hl as (Hl1 & -> & -> & _).
  destruct Hls as (Hls1 & -> & -> & Hlen).
  rewrite loaded_entries_app, entry_mismatches_app, entry_missing_app.
  cbn [hidden_entries length]. by rewrite Hl1, Hls1, Hlen.
Qed.

Lemma load_params_spec model sd :
  let r := load_params model sd in
  state_dict r.1 = loaded_entries sd (state_dict model)
  ∧ r.2.1 = entry_mismatches sd (state_dict model)
  ∧ r.2.2 = entry_missing sd (state_dict model)
  ∧ length (hidden_layers r.1) = length (hidden_layers model).
Proof.
  unfold load_params, state_dict.
  pose proof (load_hidden_spec sd 0 (hidden_layers model)) as Hls.
  pose proof (load_Linear_spec sd output_prefix (output model)) as Hl.
  cbn zeta in Hl, Hls.
  destruct (load_hidden sd 0 (hidden_layers model)) as [ls1 [e1 m1]].
  destruct (load_Linear sd output_prefix (output model)) as [l1 [e2 m2]].
  cbn [fst snd hidden_layers output] in *.
  destruct Hl as (Hl1 & -> & -> & _). destruct Hls as (Hls1 & -> & -> & Hlen).
  rewrite loaded_entries_app, entry_mismatches_app, entry_missing_app.
  by rewrite Hl1, Hls1.
Qed.

(** Every mismatch and every missing key is recorded. *)
Lemma entry_mismatches_elem_of sd entries key param input_param :
  (key, param) ∈ entries →
  dict_get sd key = Some input_param →
  shape input_param ≠ shape param →
  SizeMismatch key (shape input_param) (shape param)
    ∈ entry_mismatches sd entries.
Proof.
  intros Hin Hget Hne. unfold entry_mismatches.
  apply list_elem_of_join. eexists. split; [|apply list_elem_of_fmap].
  2: { exists (key, param). split; [reflexivity|done]. }
  cbn. unfold load_tensor. rewrite Hget, decide_False by done.
  cbn. apply list_elem_of_singleton. done.
Qed.

Lemma entry_missing_elem_of sd entries key :
  key ∈ entry_missing sd entries
  ↔ ∃ param, (key, param) ∈ entries ∧ dict_get sd key = None.
Proof.
  unfold entry_missing. rewrite list_elem_of_join. split.
  - intros (ks & Hkey & Hks). apply list_elem_of_fmap in Hks as ([k p] & -> & Hin).
    cbn in Hkey. unfold load_tensor in Hkey.
    destruct (dict_get sd k) as [t|] eqn:Hget.
    + destruct (decide (shape t = shape p)); cbn in Hkey;
        by apply elem_of_nil in Hkey.
    + cbn in Hkey. apply list_elem_of_singleton in Hkey as ->. eauto.
  - intros (param & Hin & Hget). eexists. split; [|apply list_elem_of_fmap].
    2: { exists (key, param). split; [reflexivity|done]. }
    cbn. unfold load_tensor. rewrite Hget. cbn. by apply list_elem_of_singleton.
Qed.

(** A loaded tensor is the old parameter or the saved tensor itself. *)
Lemma loaded_entries_elem_of sd entries key t :
  (key, t) ∈ loaded_entries sd entries →
  ∃ param, (key, param) ∈ entries
    ∧ (dict_get sd key = Some t ∧ shape t = shape param
       ∨ t = param ∧ ∀ input_param, dict_get sd key = Some input_param →
                       shape input_param ≠ shape param).
Proof.
  unfold loaded_entries. intros ([k p] & Heq & Hin)%list_elem_of_fmap.
  cbn in Heq. injection Heq as -> ->. exists p. split; [done|].
  unfold load_tensor. destruct (dict_get sd k) as [input|] eqn:Hget.
  - destruct (decide (shape input = shape p)) as [Hsh|Hsh]; cbn.
    + left. split; [|done]. rewrite <-Hsh. by destruct input.
    + right. split; [done|]. by intros ? [= <-].
  - right. split; [done|]. by intros ? [=].
Qed.
End Loading.

(** ** Architectures *)

Section ArchitectureFacts.
Context {A : Type}.
Implicit Types (l : Linear A) (ls : list (Linear A)) (model : Network A).
Implicit Types (sd : list (string * Tensor A)).

Lemma nn_Linear_ok (rng : nat → A) i o k : linear_ok i o (nn_Linear rng i o k).1.
Proof. done. Qed.

Lemma build_layers_ok (rng : nat → A) i hs k :
  layers_ok i hs (build_layers rng i hs k).1.
Proof.
  revert i k. induction hs as [|h hs IH]; intros i k; [done|].
  cbn [build_layers]. unfold nn_Linear at 1.
  specialize (IH h (k + h * i + h)).
  destruct (build_layers rng h hs (k + h * i + h)) as [ls k2].
  cbn [fst layers_ok] in *. done.
Qed.

(** A fresh network has the architecture it was asked for. *)
Lemma fc_model_Network_architecture (rng : nat → A) i o hs :
  has_architecture i o hs (fc_model_Network rng i o hs).
Proof.
  unfold fc_model_Network, has_architecture.
  pose proof (build_layers_ok rng i hs 0) as Hls.
  destruct (build_layers rng i hs 0) as [ls k]. cbn [fst] in Hls.
  unfold nn_Linear. cbn [hidden_layers output]. done.
Qed.

Lemma layers_ok_out_features i hs ls :
  layers_ok i hs ls → out_features <$> ls = hs.
Proof.
  revert i ls. induction hs as [|h hs IH]; intros i [|l ls]; try done.
  cbn [layers_ok]. intros [(_ & Ho & _) Hls]. cbn. rewrite Ho. f_equal. eauto.
Qed.

Lemma layers_ok_bias_shape i hs ls k l :
  layers_ok i hs ls → ls !! k = Some l → shape (bias l) = [out_features l].
Proof.
  revert i ls k. induction hs as [|h hs IH]; intros i [|l' ls] k; try done.
  cbn [layers_ok]. intros [(_ & Ho & _ & Hb) Hls]. destruct k as [|k]; cbn.
  - intros [= <-]. by rewrite Hb, Ho.
  - eauto.
Qed.

Lemma has_architecture_architecture i o hs model :
  has_architecture i o hs model → architecture model = (i, o, hs).
Proof.
  intros [Hls (Hi & Ho & _)]. unfold architecture.
  rewrite (layers_ok_out_features _ _ _ Hls), Ho.
  destruct hs as [|h hs], (hidden_layers model) as [|l ls]; try done.
  - cbn in *. by rewrite Hi.
  - cbn in *. destruct Hls as [(-> & _) _]. done.
Qed.

Lemma hidden_shapes_spec j i hs ls :
  layers_ok i hs ls → param_shapes (hidden_entries j ls) = hidden_shapes j i hs.
Proof.
  revert j i ls. induction hs as [|h hs IH]; intros j i [|l ls]; try done.
  cbn [layers_ok]. intros [(_ & _ & Hw & Hb) Hls].
  cbn [hidden_entries hidden_shapes]. unfold param_shapes in *.
  rewrite fmap_app. cbn. rewrite Hw, Hb. do 2 f_equal. by apply IH.
Qed.

(** The tensors of a network have the names and shapes of its
    architecture. *)
Lemma has_architecture_shapes i o hs model :
  has_architecture i o hs model →
  param_shapes (state_dict model) = declared_shapes i o hs.
Proof.
  intros [Hls (_ & _ & Hw & Hb)]. unfold state_dict, declared_shapes.
  unfold param_shapes at 1. rewrite fmap_app.
  fold (param_shapes (hidden_entries 0 (hidden_layers model))).
  rewrite (hidden_shapes_spec _ _ _ _ Hls). cbn. by rewrite Hw, Hb.
Qed.

Lemma load_Linear_same sd p i o saved fresh :
  linear_ok i o saved → linear_ok i o fresh →
  dict_get sd (p +:+ "weight") = Some (weight saved) →
  dict_get sd (p +:+ "bias") = Some (bias saved) →
  load_Linear sd p fresh = (saved, ([], [])).
Proof.
  intros (Hi & Ho & Hw & Hb) (Hi' & Ho' & Hw' & Hb') Hgw Hgb.
  unfold load_Linear, load_tensor. rewrite Hgw, Hgb.
  rewrite !decide_True by congruence. cbn.
  rewrite Hw', Hb', Hi', Ho', <-Hw, <-Hb, <-Hi, <-Ho.
  by destruct saved as [? ? [] []].
Qed.

Lemma load_hidden_same sd j i hs saved fresh :
  layers_ok i hs saved → layers_ok i hs fresh →
  (∀ k l, saved !! k = Some l →
     dict_get sd (hidden_prefix (j + k) +:+ "weight") = Some (weight l)
     ∧ dict_get sd (hidden_prefix (j + k) +:+ "bias") = Some (bias l)) →
  load_hidden sd j fresh = (saved, ([], [])).
Proof.
  revert j i saved fresh.
  induction hs as [|h hs IH]; intros j i [|l ls] [|l' ls']; try done.
  cbn [layers_ok]. intros [Hl Hls] [Hl' Hls'] Hget. cbn [load_hidden].
  destruct (Hget 0 l eq_refl) as [Hgw Hgb]. rewrite Nat.add_0_r in Hgw, Hgb.
  rewrite (load_Linear_same sd _ i h l l') by done.
  rewrite (IH (S j) h ls ls'); [done..|].
  intros k l0 Hk. specialize (Hget (S k) l0 Hk).
  by replace (j + S k) with (S j + k) in Hget by lia.
Qed.

(** Loading the state dictionary of a model into any model of the same
    architecture gives the first model back. *)
Lemma load_state_dict_same i o hs (saved fresh : Network A) :
  has_architecture i o hs saved → has_architecture i o hs fresh →
  load_state_dict fresh (state_dict saved) = Return saved.
Proof.
  intros [Hls Hl] [Hls' Hl'].
  assert (load_params fresh (state_dict saved) = (saved, ([], []))) as Hload.
  { unfold load_params.
    rewrite (load_hidden_same _ 0 i hs (hidden_layers saved)); [|done..|].
    - rewrite (load_Linear_same _ _ (default i (last hs)) o (output saved));
        [by destruct saved|done..| |].
      + apply state_dict_output_weight.
      + apply state_dict_output_bias.
    - intros k l Hk. cbn [Nat.add].
      by rewrite state_dict_hidden_weight, state_dict_hidden_bias, Hk. }
  unfold load_state_dict, error_msgs. rewrite Hload. cbn [fst snd].
  assert (unexpected_keys fresh (state_dict saved) = []) as ->.
  { unfold unexpected_keys. apply filter_nil_iff. intros key Hkey Hnot.
    apply Hnot. erewrite state_dict_names; [done|].
    apply layers_ok_out_features, (f_equal length) in Hls, Hls'.
    rewrite length_fmap in Hls, Hls'. congruence. }
  by rewrite !decide_True by done.
Qed.
End ArchitectureFacts.

(** ** Checkpoints *)

Section CheckpointFacts.
Context {A : Type}.
Implicit Types (model : Network A) (fs : gmap string (Pickle A)).

Lemma torch_load_save (obj : Pickle A) path fs :
  torch_load path (torch_save obj path fs) = Return obj.
Proof. unfold torch_load, torch_save. by rewrite lookup_insert_eq. Qed.

Lemma load_checkpoint_save (rng : nat → A) model path fs :
  load_checkpoint rng path (save_checkpoint model path fs)
  = load_state_dict
      (fc_model_Network rng 784 10 (out_features <$> hidden_layers model))
      (state_dict model).
Proof.
  unfold load_checkpoint, save_checkpoint. by rewrite torch_load_save.
Qed.

Lemma load_checkpoint_save_784_10 (rng : nat → A) hs model path fs :
  has_architecture 784 10 hs model →
  load_checkpoint rng path (save_checkpoint model path fs) = Return model.
Proof.
  intros Harch. rewrite load_checkpoint_save.
  destruct Harch as [Hls Hl]. rewrite (layers_ok_out_features _ _ _ Hls).
  apply (load_state_dict_same 784 10 hs); [done|].
  apply fc_model_Network_architecture.
Qed.

Lemma load_checkpoint_for (rng : nat → A) i o hs model path fs :
  has_architecture i o hs model →
  load_checkpoint rng path
    (torch_save (PickledCheckpoint (checkpoint_for i o model)) path fs)
  = Return model.
Proof.
  intros Harch. unfold load_checkpoint. rewrite torch_load_save.
  cbn [checkpoint_for ckpt_input_size ckpt_output_size ckpt_hidden_layers
       ckpt_state_dict].
  destruct Harch as [Hls Hl]. rewrite (layers_ok_out_features _ _ _ Hls).
  apply (load_state_dict_same i o hs); [done|].
  apply fc_model_Network_architecture.
Qed.
End CheckpointFacts.

(** C1.  For every input size, output size and hidden-layer width
    sequence and every assignment of parameter values: the checkpoint
    dictionary of a model of this architecture, which records the two
    sizes the model was constructed with, the widths of its hidden layers
    and its state dictionary, saved and loaded again with
    [load_checkpoint], whatever the fresh model is initialised with, gives
    a model equal to the original: of the architecture that the
    dictionary declares and with identical parameters.  The cell of the
    notebook is the case of the sizes 784 and 10, with which the notebook
    constructs its models. *)
Theorem checkpoint_round_trip {A} (rng : nat → A)
    (input_size output_size : nat) (hs : list nat) (model : Network A)
    (filepath : string) (fs : gmap string (Pickle A)) :
  has_architecture input_size output_size hs model →
  load_checkpoint rng filepath
    (torch_save (PickledCheckpoint (checkpoint_for input_size output_size model))
       filepath fs)
  = Return model
  ∧ architecture model
    = (ckpt_input_size (checkpoint_for input_size output_size model),
       ckpt_output_size (checkpoint_for input_size output_size model),
       ckpt_hidden_layers (checkpoint_for input_size output_size model))
  ∧ (input_size = 784 → output_size = 10 →
     checkpoint model = checkpoint_for input_size output_size model
     ∧ load_checkpoint rng filepath (save_checkpoint model filepath fs)
       = Return model).
Proof.
  intros Harch. split; [|split].
  - by apply (load_checkpoint_for rng input_size output_size hs).
  - rewrite (has_architecture_architecture _ _ _ _ Harch). cbn.
    destruct Harch as [Hls _]. by rewrite (layers_ok_out_features _ _ _ Hls).
  - intros -> ->. split; [done|].
    by apply (load_checkpoint_save_784_10 rng hs).
Qed.

(** The model of the notebook survives the round trip through the
    notebook's cell. *)
Lemma checkpoint_round_trip_witness :
  has_architecture 784 10 [512; 256; 128] notebook_network
  ∧ load_checkpoint (λ _, Float32.zero) "checkpoint.pth"
      (save_checkpoint notebook_network "checkpoint.pth" ∅)
    = Return notebook_network.
Proof.
  assert (has_architecture 784 10 [512; 256; 128] notebook_network) as Harch.
  { repeat split; vm_compute; reflexivity. }
  split; [exact Harch|].
  destruct (checkpoint_round_trip (λ _, Float32.zero) 784 10
              [512; 256; 128] notebook_network "checkpoint.pth" ∅ Harch)
    as (_ & _ & Hcell).
  destruct (Hcell eq_refl eq_refl) as [_ Hload]. exact Hload.
Defined.

(** C7.  Saving a checkpoint over a file that holds an earlier record
    [old] replaces it: the file holds the new checkpoint only, the file
    system is the one where [old] was never written, and loading behaves
    as it does there. *)
Theorem save_checkpoint_replaces {A} (rng : nat → A) (old : Pickle A)
    (model : Network A) (filepath : string) (fs : gmap string (Pickle A)) :
  let before := torch_save old filepath fs in
  torch_load filepath (save_checkpoint model filepath before)
    = Return (PickledCheckpoint (checkpoint model))
  ∧ save_checkpoint model filepath before = save_checkpoint model filepath fs
  ∧ load_checkpoint rng filepath (save_checkpoint model filepath before)
    = load_checkpoint rng filepath (save_checkpoint model filepath fs).
Proof.
  cbn zeta. split; [apply torch_load_save|]. split.
  - unfold save_checkpoint, torch_save. apply insert_insert_eq.
  - by rewrite !load_checkpoint_save.
Qed.

(** C8.  The checkpoint dictionary that the save path builds from a
    model is consistent by construction: its hidden widths are computed
    as the [out_features] of the hidden layers of the very model whose
    state dictionary it stores, so that, with the two sizes the model was
    constructed with, its declared architecture is the one of the names
    and shapes of every tensor of its state dictionary; and
    [load_checkpoint] on it succeeds and returns the model.  This holds
    for every architecture, and so for every checkpoint that the
    notebook's cell produces from a model constructed with its sizes 784
    and 10. *)
Theorem checkpoint_consistent {A} (rng : nat → A)
    (input_size output_size : nat) (hs : list nat) (model : Network A)
    (filepath : string) (fs : gmap string (Pickle A)) :
  has_architecture input_size output_size hs model →
  ckpt_hidden_layers (checkpoint_for input_size output_size model)
  = out_features <$> hidden_layers model
  ∧ ckpt_state_dict (checkpoint_for input_size output_size model)
    = state_dict model
  ∧ ckpt_hidden_layers (checkpoint_for input_size output_size model) = hs
  ∧ consistent (checkpoint_for input_size output_size model)
  ∧ load_checkpoint rng filepath
      (torch_save
         (PickledCheckpoint (checkpoint_for input_size output_size model))
         filepath fs)
    = Return model
  ∧ (input_size = 784 → output_size = 10 →
     consistent (checkpoint model)
     ∧ load_checkpoint rng filepath (save_checkpoint model filepath fs)
       = Return model).
Proof.
  intros Harch.
  assert (out_features <$> hidden_layers model = hs) as Hhs.
  { destruct Harch as [Hls _]. by apply (layers_ok_out_features input_size). }
  assert (consistent (checkpoint_for input_size output_size model)) as Hcons.
  { unfold consistent. cbn. rewrite Hhs. by apply has_architecture_shapes. }
  split; [done|]. split; [done|]. split; [done|]. split; [done|]. split.
  - by apply (load_checkpoint_for rng input_size output_size hs).
  - intros -> ->. split; [done|].
    by apply (load_checkpoint_save_784_10 rng hs).
Qed.

(** The checkpoint of the model of the notebook is consistent. *)
Lemma checkpoint_consistent_witness :
  has_architecture 784 10 [512; 256; 128] notebook_network
  ∧ consistent (checkpoint notebook_network).
Proof.
  assert (has_architecture 784 10 [512; 256; 128] notebook_network) as Harch.
  { repeat split; vm_compute; reflexivity. }
  split; [exact Harch|].
  destruct (checkpoint_consistent (λ _, Float32.zero) 784 10
              [512; 256; 128] notebook_network "checkpoint.pth" ∅ Harch)
    as (_ & _ & _ & _ & _ & Hcell).
  destruct (Hcell eq_refl eq_refl) as [Hcons _]. exact Hcons.
Defined.

(** ** Loading into another architecture *)

Section Rejection.
Context {A : Type}.
Implicit Types (model saved loaded : Network A).
Implicit Types (sd : list (string * Tensor A)).

Lemma error_msgs_unfold model sd :
  error_msgs model sd
  = (if decide (entry_missing sd (state_dict model) = []) then []
     else [MissingKeys (entry_missing sd (state_dict model))])
    ++ (if decide (unexpected_keys model sd = []) then []
        else [UnexpectedKeys (unexpected_keys model sd)])
    ++ entry_mismatches sd (state_dict model).
Proof.
  unfold error_msgs. pose proof (load_params_spec model sd) as Hspec.
  cbn zeta in Hspec. destruct (load_params model sd) as [m [e ms]].
  cbn [fst snd] in Hspec. by destruct Hspec as (_ & -> & -> & _).
Qed.

Lemma load_state_dict_raises model sd e :
  e ∈ error_msgs model sd →
  load_state_dict model sd = Raise (RuntimeError (error_msgs model sd)).
Proof.
  unfold load_state_dict. destruct (error_msgs model sd); [|done].
  by intros ?%elem_of_nil.
Qed.

Lemma load_state_dict_returns model sd loaded :
  load_state_dict model sd = Return loaded →
  error_msgs model sd = [] ∧ loaded = (load_params model sd).1.
Proof.
  unfold load_state_dict. destruct (error_msgs model sd); [|done].
  by intros [= <-].
Qed.

Lemma state_dict_hidden_bias_elem_of model k l :
  hidden_layers model !! k = Some l →
  (hidden_prefix k +:+ "bias", bias l) ∈ state_dict model.
Proof.
  intros Hk. apply dict_get_Some_elem_of.
  by rewrite state_dict_hidden_bias, Hk.
Qed.

(** The error names every affected parameter. *)
Lemma affected_named model sd key :
  affected model sd key →
  ∃ e, e ∈ error_msgs model sd ∧ names_parameter e key.
Proof.
  rewrite error_msgs_unfold. intros [(param & Hin & Hget)|[Hsd Hmodel]].
  - destruct (dict_get sd key) as [input_param|] eqn:Hd.
    + exists (SizeMismatch key (shape input_param) (shape param)).
      split; [|done]. rewrite !elem_of_app. do 2 right.
      by apply (entry_mismatches_elem_of sd _ key param input_param).
    + assert (key ∈ entry_missing sd (state_dict model)) as Hmiss.
      { apply entry_missing_elem_of. eauto. }
      exists (MissingKeys (entry_missing sd (state_dict model))).
      split; [|done]. rewrite elem_of_app. left.
      rewrite decide_False; [by apply list_elem_of_singleton|].
      intros Hnil. rewrite Hnil in Hmiss. by apply elem_of_nil in Hmiss.
  - assert (key ∈ unexpected_keys model sd) as Hun.
    { unfold unexpected_keys. by apply list_elem_of_filter. }
    exists (UnexpectedKeys (unexpected_keys model sd)).
    split; [|done]. rewrite !elem_of_app. right; left.
    rewrite decide_False; [by apply list_elem_of_singleton|].
    intros Hnil. rewrite Hnil in Hun. by apply elem_of_nil in Hun.
Qed.

(** Two different hidden width sequences disagree on a parameter. *)
Lemma other_widths_affected i o hs hs' saved model :
  has_architecture i o hs saved → has_architecture i o hs' model →
  hs ≠ hs' → ∃ key, affected model (state_dict saved) key.
Proof.
  intros [Hls _] [Hls' _] Hne.
  pose proof (layers_ok_out_features _ _ _ Hls) as Hhs.
  pose proof (layers_ok_out_features _ _ _ Hls') as Hhs'.
  set (ls := hidden_layers saved) in *. set (ls' := hidden_layers model) in *.
  destruct (Nat.lt_trichotomy (length ls) (length ls')) as [Hlt|[Heq|Hgt]].
  - (* the model has a layer the checkpoint has not: a missing key *)
    destruct (lookup_lt_is_Some_2 ls' (length ls) Hlt) as [l' Hl'].
    exists (hidden_prefix (length ls) +:+ "bias"). left. exists (bias l').
    split; [by apply state_dict_hidden_bias_elem_of|].
    rewrite state_dict_hidden_bias. fold ls.
    by rewrite (lookup_ge_None_2 ls (length ls)).
  - (* same number of layers: a width differs, so a bias has another shape *)
    assert (∃ k l l', ls !! k = Some l ∧ ls' !! k = Some l'
              ∧ out_features l ≠ out_features l') as (k & l & l' & Hl & Hl' & Ho).
    { clear Hls Hls'. subst hs hs'. revert Heq Hne. generalize ls ls'.
      clear. intros l1. induction l1 as [|x1 l1 IH]; intros [|x2 l2] Hlen Hne;
        try done.
      injection Hlen as Hlen.
      destruct (decide (out_features x1 = out_features x2)) as [Hx|Hx].
      - destruct (IH l2 Hlen) as (k & l & l' & ? & ? & ?).
        { intros Heq. apply Hne. cbn. by rewrite Hx, Heq. }
        exists (S k), l, l'. done.
      - exists 0, x1, x2. done. }
    exists (hidden_prefix k +:+ "bias"). left. exists (bias l').
    split; [by apply state_dict_hidden_bias_elem_of|].
    rewrite state_dict_hidden_bias. fold ls. rewrite Hl. cbn.
    rewrite (layers_ok_bias_shape _ _ _ _ _ Hls Hl),
      (layers_ok_bias_shape _ _ _ _ _ Hls' Hl'). congruence.
  - (* the checkpoint has a layer the model has not: an unexpected key *)
    destruct (lookup_lt_is_Some_2 ls (length ls') Hgt) as [l Hl].
    exists (hidden_prefix (length ls') +:+ "bias"). right. split.
    + apply (list_elem_of_fmap_2' fst _
               (hidden_prefix (length ls') +:+ "bias", bias l)); [|done].
      by apply state_dict_hidden_bias_elem_of.
    + apply dict_get_None_keys. rewrite state_dict_hidden_bias. fold ls'.
      by rewrite (lookup_ge_None_2 ls' (length ls')).
Qed.

(** A tensor of the model after a successful call is the saved tensor of
    that name: its shape and its elements. *)
Lemma load_state_dict_exact model sd loaded key t :
  load_state_dict model sd = Return loaded →
  (key, t) ∈ state_dict loaded → dict_get sd key = Some t.
Proof.
  intros [Hmsgs ->]%load_state_dict_returns Hin.
  destruct (load_params_spec model sd) as (Hsd & _). rewrite Hsd in Hin.
  apply loaded_entries_elem_of in Hin as (param & Hparam & [[? _]|[-> Hsh]]);
    [done|].
  assert (affected model sd key) as Haff.
  { left. exists param. split; [done|].
    destruct (dict_get sd key) eqn:Hget; [by apply Hsh|done]. }
  apply affected_named in Haff as (e & He & _). rewrite Hmsgs in He.
  by apply elem_of_nil in He.
Qed.
End Rejection.

(** C2.  [model.load_state_dict(sd)] raises its RuntimeError whenever the
    model and [sd] disagree on a parameter: a name of the model that [sd]
    lacks, a saved name the model lacks, or a saved tensor of another
    shape.  The message names every such parameter.  That is the case
    whenever [sd] was saved from a model with another sequence of hidden
    widths.  No tensor is ever cut or padded to fit: after a successful
    call every parameter is the saved tensor of its name, and after any
    call a parameter is the saved tensor or is untouched. *)
Theorem load_state_dict_fails_on_mismatch {A} (model : Network A)
    (sd : list (string * Tensor A)) :
  (∀ key, affected model sd key →
     ∃ msgs, load_state_dict model sd = Raise (RuntimeError msgs)
       ∧ ∀ key', affected model sd key' →
           ∃ e, e ∈ msgs ∧ names_parameter e key')
  ∧ (∀ i o hs hs' saved,
       has_architecture i o hs saved → has_architecture i o hs' model →
       hs ≠ hs' → sd = state_dict saved →
       ∃ msgs, load_state_dict model sd = Raise (RuntimeError msgs)
         ∧ ∀ key', affected model sd key' →
             ∃ e, e ∈ msgs ∧ names_parameter e key')
  ∧ (∀ loaded key t,
       load_state_dict model sd = Return loaded →
       (key, t) ∈ state_dict loaded → dict_get sd key = Some t)
  ∧ (∀ key t,
       (key, t) ∈ state_dict (load_params model sd).1 →
       dict_get sd key = Some t ∨ (key, t) ∈ state_dict model).
Proof.
  assert (∀ key, affected model sd key →
     ∃ msgs, load_state_dict model sd = Raise (RuntimeError msgs)
       ∧ ∀ key', affected model sd key' →
           ∃ e, e ∈ msgs ∧ names_parameter e key') as Hraise.
  { intros key (e & He & _)%affected_named. exists (error_msgs model sd).
    split; [by apply (load_state_dict_raises model sd e)|].
    intros key'. apply affected_named. }
  split; [exact Hraise|]. split; [|split].
  - intros i o hs hs' saved Hsaved Hmodel Hne ->.
    destruct (other_widths_affected i o hs hs' saved model) as [key Hkey];
      [done..|]. by apply (Hraise key).
  - intros loaded key t. apply load_state_dict_exact.
  - intros key t Hin. destruct (load_params_spec model sd) as (Hsd & _).
    rewrite Hsd in Hin.
    apply loaded_entries_elem_of in Hin as (param & Hparam & [[? _]|[-> _]]);
      auto.
Qed.

(** The failure the notebook records: the state dictionary of the trained
    [Network(784, 10, [512, 256, 128])] does not load into
    [Network(784, 10, [400, 200, 100])]. *)
Lemma load_state_dict_fails_on_mismatch_witness :
  ∃ msgs, load_state_dict notebook_other_network (state_dict notebook_network)
          = Raise (RuntimeError msgs).
Proof.
  destruct (load_state_dict_fails_on_mismatch notebook_other_network
              (state_dict notebook_network)) as (_ & Hwidths & _).
  destruct (Hwidths 784 10 [512; 256; 128] [400; 200; 100] notebook_network)
    as (msgs & Hmsgs & _).
  - repeat split; vm_compute; reflexivity.
  - repeat split; vm_compute; reflexivity.
  - discriminate.
  - reflexivity.
  - exists msgs. exact Hmsgs.
Defined.

(** The message of that failure, entry by entry as the notebook prints
    it; the output bias has the same shape in both models and is not
    named. *)
Example notebook_size_mismatches :
  load_state_dict notebook_other_network (state_dict notebook_network)
  = Raise (RuntimeError
      [SizeMismatch "hidden_layers.0.weight" [512; 784] [400; 784];
       SizeMismatch "hidden_layers.0.bias" [512] [400];
       SizeMismatch "hidden_layers.1.weight" [256; 512] [200; 400];
       SizeMismatch "hidden_layers.1.bias" [256] [200];
       SizeMismatch "hidden_layers.2.weight" [128; 256] [100; 200];
       SizeMismatch "hidden_layers.2.bias" [128] [100];
       SizeMismatch "output.weight" [10; 128] [10; 100]]).
Proof. vm_compute. reflexivity. Qed.

(** The keys of the state dictionary, as the notebook prints them. *)
Example notebook_state_dict_keys :
  (state_dict notebook_network).*1
  = ["hidden_layers.0.weight"; "hidden_layers.0.bias";
     "hidden_layers.1.weight"; "hidden_layers.1.bias";
     "hidden_layers.2.weight"; "hidden_layers.2.bias";
     "output.weight"; "output.bias"].
Proof. vm_compute. reflexivity. Qed.

(** The scenario of the specification: a checkpoint of widths [128, 64]
    reconstructed with the widths [100, 50]. *)
Example widths_128_64_into_100_50 :
  load_state_dict (fc_model_Network (λ _, Float32.zero) 784 10 [100; 50])
    (state_dict (fc_model_Network (λ _, Float32.one) 784 10 [128; 64]))
  = Raise (RuntimeError
      [SizeMismatch "hidden_layers.0.weight" [128; 784] [100; 784];
       SizeMismatch "hidden_layers.0.bias" [128] [100];
       SizeMismatch "hidden_layers.1.weight" [64; 128] [50; 100];
       SizeMismatch "hidden_layers.1.bias" [64] [50];
       SizeMismatch "output.weight" [10; 64] [10; 50]]).
Proof. vm_compute. reflexivity. Qed.

(** A model with one more hidden layer of the same width: no shape
    differs, and the error lists the keys the state dictionary lacks. *)
Example missing_keys_for_longer_model :
  load_state_dict (fc_model_Network (λ _, 0%Z) 3 2 [4; 4])
                  (state_dict small_network)
  = Raise (RuntimeError
      [MissingKeys ["hidden_layers.1.weight"; "hidden_layers.1.bias"]]).
Proof. vm_compute. reflexivity. Qed.

(** ** The training pass *)

Section TrainingFacts.
Context {A : Type} `{Scalar A} `{Autograd A}.
Implicit Types (p q : Param A) (ps : list (Param A)) (s : Session A).
Implicit Types (g : Tensor A) (gs : list (Tensor A)).

Lemma p_data_zero_grad ps : p_data <$> (zero_grad <$> ps) = p_data <$> ps.
Proof. rewrite <-list_fmap_compose. by apply list_fmap_ext. Qed.

Lemma p_data_backward_into ps gs :
  p_data <$> backward_into ps gs = p_data <$> ps.
Proof.
  revert gs. induction ps as [|p ps IH]; intros [|g gs]; try done.
  cbn. by rewrite IH.
Qed.

Lemma length_backward_into ps gs : length (backward_into ps gs) = length ps.
Proof.
  revert gs. induction ps as [|p ps IH]; intros [|g gs]; try done.
  cbn. by rewrite IH.
Qed.

(** The pass as one function of the session. *)
Lemma training_pass_unfold lr images labels s :
  let θ := p_data <$> model_parameters s in
  training_pass lr images labels s
  = (mkLoss (criterion_fn (forward_fn θ images) labels) (θ, images, labels),
     mkSession
       (sgd_update lr <$> backward_into (zero_grad <$> model_parameters s)
                            (grad_fn θ images labels))
       (calls s ++ [CallZeroGrad; CallForward; CallCriterion;
                    CallBackward; CallStep])).
Proof.
  cbn zeta. unfold training_pass, optimizer_zero_grad, model_forward,
    criterion, loss_backward, optimizer_step, parameter_values,
    update_parameters, record_call, bind, ret.
  cbn. rewrite p_data_zero_grad. by rewrite <-!app_assoc.
Qed.

Lemma training_pass_without_zero_grad_unfold lr images labels s :
  let θ := p_data <$> model_parameters s in
  training_pass_without_zero_grad lr images labels s
  = (mkLoss (criterion_fn (forward_fn θ images) labels) (θ, images, labels),
     mkSession
       (sgd_update lr <$> backward_into (model_parameters s)
                            (grad_fn θ images labels))
       (calls s ++ [CallForward; CallCriterion; CallBackward; CallStep])).
Proof.
  cbn zeta. unfold training_pass_without_zero_grad, model_forward,
    criterion, loss_backward, optimizer_step, parameter_values,
    update_parameters, record_call, bind, ret.
  cbn. by rewrite <-!app_assoc.
Qed.

Lemma backward_into_lookup ps gs k p g :
  ps !! k = Some p → gs !! k = Some g →
  backward_into ps gs !! k = Some (accumulate p g).
Proof.
  revert gs k. induction ps as [|p0 ps IH]; intros [|g0 gs] [|k]; try done.
  - by intros [= ->] [= ->].
  - cbn. apply IH.
Qed.

Lemma backward_into_lookup_None ps gs k p :
  ps !! k = Some p → gs !! k = None → backward_into ps gs !! k = Some p.
Proof.
  revert gs k. induction ps as [|p0 ps IH]; intros [|g0 gs] [|k]; try done.
  cbn. apply IH.
Qed.

(** What the three calls that touch a parameter do to it. *)
Lemma zero_grad_cleared p : gradient_cleared p (zero_grad p).
Proof.
  split; [done|]. unfold zero_grad. cbn [p_grad].
  destruct (p_grad p) as [old|]; [|done].
  exists (zeros_like old). split; [done|]. split; [done|].
  unfold zeros_like. cbn [data].
  induction (data old) as [|a l IH]; [done|]. cbn. by rewrite IH.
Qed.

Lemma accumulate_propagated p g : gradient_propagated g p (accumulate p g).
Proof.
  split; [done|]. unfold accumulate. cbn [p_grad].
  destruct (p_grad p) as [old|]; [|done].
  exists (tensor_zip sadd old g). split; [done|]. split; [done|].
  unfold tensor_zip. cbn [data]. split; [by rewrite length_zip_with|].
  intros j a b Ha Hb. by rewrite lookup_zip_with, Ha, Hb.
Qed.

Lemma sgd_update_updated lr p : parameter_updated lr p (sgd_update lr p).
Proof.
  unfold parameter_updated, sgd_update.
  destruct (p_grad p) as [d|] eqn:Hg; cbn [p_grad p_data]; [|done].
  split; [done|]. split; [done|].
  unfold tensor_zip. cbn [data]. split; [by rewrite length_zip_with|].
  intros j x dj Hx Hd. by rewrite lookup_zip_with, Hx, Hd.
Qed.

Lemma training_pass_five_calls lr images labels s :
  five_calls_in_order lr images labels s (training_pass lr images labels s).
Proof.
  unfold five_calls_in_order.
  set (θ := p_data <$> model_parameters s).
  eexists _, _, _, _, _, _, _.
  do 11 (split; [reflexivity|]).
  cbn [model_parameters calls fst snd out_value loss_value loss_graph].
  rewrite !p_data_zero_grad. fold θ.
  split.
  { apply Forall2_fmap_r, Forall_Forall2_diag, Forall_forall.
    intros p _. apply zero_grad_cleared. }
  do 4 (split; [reflexivity|]).
  split; [by rewrite length_backward_into|]. split.
  - intros k p3 Hk. destruct (grad_fn θ images labels !! k) as [g|] eqn:Hg.
    + exists (accumulate p3 g). split; [|apply accumulate_propagated].
      by apply backward_into_lookup.
    + by apply backward_into_lookup_None.
  - apply Forall2_fmap_r, Forall_Forall2_diag, Forall_forall.
    intros p _. apply sgd_update_updated.
Qed.

Lemma matching_batch_resize (uninit : nat → A) images labels :
  matching_batch (resize_64_784 uninit images) labels ↔ length labels = 64.
Proof.
  unfold matching_batch, resize_64_784.
  rewrite resize_length. cbn [resize_ shape]. rewrite numel_64_784.
  split; [intros [[= ->] _]; done|]. by intros ->.
Qed.
End TrainingFacts.

(** C3.  Given a batch of inputs and matching labels, the training pass
    of the loop, and the demonstration step on the images it has resized,
    make five calls, in this order and no other, with these effects: the
    gradients are cleared (a gradient that exists becomes zeros, the
    values stay); the output is the forward evaluation at the parameter
    values; the loss is computed from the output and the labels; the
    gradient of every parameter that has one is propagated into it (set,
    or added to what is there; the values stay); the optimizer replaces
    every element of every parameter that has a gradient by the element
    minus the learning rate times its gradient.  No other call changes a
    parameter, and none is added or dropped.  The images that the
    demonstration step has resized match the labels exactly when there
    are 64 labels. *)
Theorem training_step_sequence {A} `{Scalar A} `{Autograd A}
    (uninit : nat → A) (lr : A) (images : Tensor A) (labels : list nat)
    (s : Session A) :
  (matching_batch images labels →
   five_calls_in_order lr images labels s (training_pass lr images labels s))
  ∧ (matching_batch (resize_64_784 uninit images) labels →
     five_calls_in_order lr (resize_64_784 uninit images) labels s
       (demonstration_step uninit lr images labels s))
  ∧ (matching_batch (resize_64_784 uninit images) labels
     ↔ length labels = 64).
Proof.
  split; [|split].
  - intros _. apply training_pass_five_calls.
  - intros _.
    change (demonstration_step uninit lr images labels s)
      with (training_pass lr (resize_64_784 uninit images) labels s).
    apply training_pass_five_calls.
  - apply matching_batch_resize.
Qed.

Section LinearScorerStep.
#[local] Existing Instance linear_scorer.

(** One pass on a batch of one row of 784 inputs with its label. *)
Lemma training_step_sequence_witness :
  matching_batch float32_batch [0]
  ∧ five_calls_in_order Float32.lr_0_01 float32_batch [0] float32_session
      (training_pass Float32.lr_0_01 float32_batch [0] float32_session).
Proof.
  assert (matching_batch float32_batch [0]) as Hbatch.
  { split; reflexivity. }
  split; [exact Hbatch|].
  destruct (training_step_sequence (λ _, Float32.zero) Float32.lr_0_01
              float32_batch [0] float32_session) as (Hpass & _ & _).
  exact (Hpass Hbatch).
Defined.
End LinearScorerStep.

(** ** Gradients *)

Section GradientFacts.
Context {A : Type} `{Scalar A} `{Autograd A}.
Implicit Types (p q : Param A) (ps qs : list (Param A)) (s : Session A).
Implicit Types (g t u : Tensor A) (gs : list (Tensor A)).

Lemma zeros_like_same_size t u : same_size t u → zeros_like t = zeros_like u.
Proof.
  intros [Hsh Hlen]. unfold zeros_like. rewrite Hsh. f_equal.
  rewrite !(const_fmap _ _ szero) by done. by rewrite Hlen.
Qed.

Lemma backward_into_nil ps : backward_into ps [] = ps.
Proof. by destruct ps. Qed.

Lemma p_grad_sgd_update lr ps : p_grad <$> (sgd_update lr <$> ps) = p_grad <$> ps.
Proof.
  rewrite <-list_fmap_compose. apply list_fmap_ext. intros _ p _. cbn.
  unfold sgd_update. by destruct (p_grad p) eqn:Hg.
Qed.

Lemma zero_grad_fresh ps :
  Forall (λ p, p_grad p = None) ps → zero_grad <$> ps = ps.
Proof.
  induction 1 as [|p ps Hp _ IH]; [done|]. cbn. rewrite IH. f_equal.
  unfold zero_grad. rewrite Hp. destruct p; cbn in *. by subst.
Qed.

(** The gradients after a backward pass into parameters that have none. *)
Lemma p_grad_backward_fresh ps gs :
  Forall (λ p, p_grad p = None) ps → length gs = length ps →
  p_grad <$> backward_into ps gs = Some <$> gs.
Proof.
  intros Hps. revert gs. induction Hps as [|p ps Hp _ IH]; intros [|g gs];
    try done.
  intros [= Hlen]. cbn. rewrite IH by done. unfold accumulate. by rewrite Hp.
Qed.

(** The gradients after a backward pass into parameters that have some:
    the new gradient is added to the old one. *)
Lemma p_grad_backward_some ps olds gs :
  p_grad <$> ps = Some <$> olds → length gs = length ps →
  p_grad <$> backward_into ps gs = Some <$> zip_with (tensor_zip sadd) olds gs.
Proof.
  revert olds gs. induction ps as [|p ps IH]; intros [|old olds] [|g gs];
    try done.
  cbn. intros [= Hp Hps] [= Hlen]. rewrite (IH olds) by done.
  unfold accumulate. by rewrite Hp.
Qed.

Lemma p_grad_zero_grad ps olds :
  p_grad <$> ps = Some <$> olds →
  p_grad <$> (zero_grad <$> ps) = Some <$> (zeros_like <$> olds).
Proof.
  revert olds. induction ps as [|p ps IH]; intros [|old olds]; try done.
  cbn. intros [= Hp Hps]. rewrite (IH olds) by done. by rewrite Hp.
Qed.

(** One pass from parameters of equal values: the outcome is the same
    whatever the gradients held before. *)
Lemma pass_same_param lr p q g :
  same_value_any_grad p q →
  sgd_update lr (accumulate (zero_grad p) g)
  = sgd_update lr (accumulate (zero_grad q) g).
Proof.
  intros [Hdata Hgrad]. unfold sgd_update, accumulate, zero_grad. cbn.
  rewrite Hdata. destruct (p_grad p) as [old|], (p_grad q) as [old'|];
    try done.
  cbn. by rewrite (zeros_like_same_size old old').
Qed.

Lemma pass_same_param_no_gradient lr p q :
  same_value_any_grad p q →
  sgd_update lr (zero_grad p) = sgd_update lr (zero_grad q).
Proof.
  intros [Hdata Hgrad]. unfold sgd_update, zero_grad. cbn.
  rewrite Hdata. destruct (p_grad p) as [old|], (p_grad q) as [old'|];
    try done.
  cbn. by rewrite (zeros_like_same_size old old').
Qed.

Lemma pass_same_params lr ps qs gs :
  Forall2 same_value_any_grad ps qs →
  sgd_update lr <$> backward_into (zero_grad <$> ps) gs
  = sgd_update lr <$> backward_into (zero_grad <$> qs) gs.
Proof.
  intros Hps. revert gs. induction Hps as [|p q ps qs Hp _ IH]; [done|].
  intros [|g gs]; cbn.
  - f_equal; [by apply pass_same_param_no_gradient|].
    specialize (IH []). by rewrite !backward_into_nil in IH.
  - f_equal; [by apply pass_same_param|]. apply IH.
Qed.

Lemma same_value_any_grad_values ps qs :
  Forall2 same_value_any_grad ps qs → p_data <$> ps = p_data <$> qs.
Proof. induction 1 as [|p q ps qs [Hp _] _ IH]; [done|]. cbn. by f_equal. Qed.





(** A parameter after the pass, and each of its elements. *)
Lemma pass_lookup lr images labels s k p g :
  model_parameters s !! k = Some p →
  grad_fn (p_data <$> model_parameters s) images labels !! k = Some g →
  model_parameters (training_pass lr images labels s).2 !! k
  = Some (sgd_update lr (accumulate (zero_grad p) g)).
Proof.
  intros Hp Hg. rewrite training_pass_unfold. cbn [snd model_parameters].
  rewrite list_lookup_fmap.
  rewrite (backward_into_lookup _ _ k (zero_grad p) g);
    [done|by rewrite list_lookup_fmap, Hp|done].
Qed.

Lemma pass_element lr p g j x d :
  (∀ old, p_grad p = Some old → same_size old g) →
  data (p_data p) !! j = Some x → data g !! j = Some d →
  data (p_data (sgd_update lr (accumulate (zero_grad p) g))) !! j
  = Some (ssubmul x lr
            (match p_grad p with None => d | Some _ => sadd szero d end)).
Proof.
  intros Hold Hx Hd. unfold sgd_update, accumulate, zero_grad. cbn.
  rewrite lookup_zip_with, Hx. cbn.
  destruct (p_grad p) as [old|]; cbn; [|by rewrite Hd].
  destruct (Hold old eq_refl) as [_ Hlen].
  destruct (lookup_lt_is_Some_2 (data old) j) as [o Ho].
  { rewrite Hlen. by eapply lookup_lt_Some. }
  by rewrite lookup_zip_with, list_lookup_fmap, Ho, Hd.
Qed.

Lemma element_differs (t t' : Tensor A) j x y :
  data t !! j = Some x → data t' !! j = Some y → y ≠ x → t' ≠ t.
Proof. intros Hx Hy Hne ->. congruence. Qed.
End GradientFacts.

(** ** Exact arithmetic *)

#[export] Instance Z_exact : ExactScalar Z.
Proof.
  split; cbn.
  - intros x. lia.
  - intros x y. lia.
  - intros x y. lia.
  - intros x y. apply Z.mul_eq_0.
Qed.

#[export] Instance Z_exact_update : ExactUpdate Z.
Proof. intros x lr d. reflexivity. Qed.

Section ExactFacts.
Context {A : Type} `{ExactScalar A} `{!Autograd A}.
Implicit Types (p q : Param A) (ps qs : list (Param A)) (s : Session A).
Implicit Types (g t u : Tensor A) (gs : list (Tensor A)).

Lemma zip_with_zeros (l1 l2 : list A) :
  length l1 = length l2 → zip_with sadd ((λ _, szero) <$> l1) l2 = l2.
Proof.
  revert l2. induction l1 as [|x l1 IH]; intros [|y l2]; try done.
  intros [= Hlen]. cbn. by rewrite sadd_zero_l, IH.
Qed.

(** Adding a gradient to a zeroed gradient gives the gradient. *)
Lemma tensor_zip_zeros old g :
  same_size old g → tensor_zip sadd (zeros_like old) g = g.
Proof.
  intros [Hsh Hlen]. unfold tensor_zip, zeros_like. cbn.
  rewrite zip_with_zeros, Hsh by done. by destruct g.
Qed.

Lemma zip_with_cancel (l1 l2 : list A) :
  length l1 = length l2 → zip_with sadd l1 l2 = l2 →
  ∀ j d, l1 !! j = Some d → d = szero.
Proof.
  revert l2. induction l1 as [|x l1 IH]; intros [|y l2]; try done.
  intros [= Hlen]. cbn. intros [= Hx Hl] [|j] d; cbn.
  - intros [= <-]. by apply (sadd_cancel_r x y).
  - by apply (IH l2).
Qed.

Lemma zip_zeros_like gs gs' :
  Forall2 same_size gs gs' →
  zip_with (tensor_zip sadd) (zeros_like <$> gs) gs' = gs'.
Proof.
  induction 1 as [|a b l1 l2 Hab _ IH]; [done|].
  cbn. rewrite IH. f_equal. by apply tensor_zip_zeros.
Qed.

Lemma zip_nonzero_differs gs gs' :
  Forall2 same_size gs gs' → Exists nonzero gs →
  zip_with (tensor_zip sadd) gs gs' ≠ gs'.
Proof.
  induction 1 as [|a b l1 l2 [_ Hab] _ IH]; intros Hnz Heq.
  - by apply Exists_nil in Hnz.
  - cbn in Heq. injection Heq as Ha Hl.
    apply Exists_cons in Hnz as [(j & d & Hd & Hnz)|Hnz]; [|by apply (IH Hnz)].
    apply Hnz. apply (f_equal data) in Ha.
    exact (zip_with_cancel (data a) (data b) Hab Ha j d Hd).
Qed.

Lemma sgd_element_changes `{!ExactUpdate A} (lr x d : A) :
  lr ≠ szero → d ≠ szero → ssubmul x lr d ≠ x.
Proof.
  intros Hlr Hd. rewrite ssubmul_exact. intros Heq.
  apply ssub_cancel, smul_integral in Heq as [?|?]; done.
Qed.
End ExactFacts.

(** ** Rounding

    What SpecFloat's rounding to nearest does to an integer mantissa: the
    result is less than one unit of its last place away. *)

Section RoundingFacts.
Import SpecFloat.
Local Open Scope Z_scope.

Lemma shr_1_shifted m0 k mrs :
  0 ≤ k → shifted m0 k mrs → shifted m0 (k + 1) (shr_1 mrs).
Proof.
  intros Hk (Hm & low & Hlow & Heq & Hs). unfold shifted.
  rewrite Z.pow_add_r, Z.pow_1_r by lia.
  pose proof (Z.pow_pos_nonneg 2 k) as Hpos.
  destruct mrs as [m r s]. cbn [shr_m shr_r shr_s] in *.
  assert (orb r s = true ↔ 0 < (if r then 2 ^ k else 0) + low) as Hs'.
  { destruct r; cbn [orb].
    - split; [lia|done].
    - by rewrite Z.add_0_l. }
  destruct m as [|[p|p|]|p];
    [|rewrite (Pos2Z.inj_xI p) in Heq|rewrite (Pos2Z.inj_xO p) in Heq| |lia].
  all: cbn [shr_1 shr_m shr_r shr_s].
  all: split; [lia|].
  all: exists ((if r then 2 ^ k else 0) + low).
  all: split; [destruct r; lia|]. all: split; [|exact Hs'].
  all: destruct r; nia.
Qed.

Lemma iter_pos_shifted m0 p k mrs :
  0 ≤ k → shifted m0 k mrs → shifted m0 (k + Zpos p) (iter_pos shr_1 p mrs).
Proof.
  revert k mrs. induction p as [p IH|p IH|]; intros k mrs Hk Hinv;
    cbn [iter_pos].
  - rewrite Pos2Z.inj_xI.
    replace (k + (2 * Z.pos p + 1)) with (k + 1 + Z.pos p + Z.pos p) by lia.
    apply IH; [lia|]. apply IH; [lia|]. by apply shr_1_shifted.
  - rewrite Pos2Z.inj_xO.
    replace (k + 2 * Z.pos p) with (k + Z.pos p + Z.pos p) by lia.
    apply IH; [lia|]. by apply IH.
  - by apply shr_1_shifted.
Qed.

Lemma shr_shifted m0 mrs e n mrs' e' :
  shifted m0 0 mrs → shr mrs e n = (mrs', e') →
  ∃ k, 0 ≤ k ∧ e' = e + k ∧ shifted m0 k mrs'.
Proof.
  intros Hinv. unfold shr. destruct n as [|p|p]; intros [= <- <-].
  - exists 0. split; [lia|]. split; [lia|done].
  - exists (Z.pos p). split; [lia|]. split; [done|].
    by apply (iter_pos_shifted m0 p 0).
  - exists 0. split; [lia|]. split; [lia|done].
Qed.

Lemma shifted_exact m : 0 ≤ m → shifted m 0 (shr_record_of_loc m loc_Exact).
Proof.
  intros Hm. split; [done|]. exists 0. cbn. split; [lia|]. split; [lia|].
  split; [done|lia].
Qed.

Lemma round_nearest_even_shifted m0 k mrs :
  0 ≤ k → shifted m0 k mrs →
  let m := round_nearest_even (shr_m mrs) (loc_of_shr_record mrs) in
  0 ≤ m ∧ 2 * m0 - 2 ^ k ≤ 2 * m * 2 ^ k ≤ 2 * m0 + 2 ^ k.
Proof.
  intros Hk (Hm & low & Hlow & Heq & Hs).
  pose proof (Z.pow_pos_nonneg 2 k) as Hpos.
  destruct mrs as [m [] []]; cbn [shr_m shr_r shr_s] in *;
    cbn [loc_of_shr_record round_nearest_even].
  - destruct Hs as [Hs _]. specialize (Hs eq_refl). nia.
  - destruct (Z.even m); nia.
  - nia.
  - assert (low = 0) as ->; [|nia].
    destruct (decide (0 < low)) as [Hl|]; [|lia]. apply Hs in Hl. done.
Qed.

Variables prec emax : Z.

Lemma binary_round_aux_error sx m e s' m' e' :
  binary_round_aux prec emax sx (Zpos m) e loc_Exact = S754_finite s' m' e' →
  s' = sx ∧ e ≤ e'
  ∧ Zpos m - 2 ^ (e' - e) < Zpos m' * 2 ^ (e' - e) < Zpos m + 2 ^ (e' - e).
Proof.
  unfold binary_round_aux, shr_fexp.
  destruct (shr (shr_record_of_loc (Z.pos m) loc_Exact) e _) as [mrs1 e1] eqn:H1.
  apply (shr_shifted (Zpos m)) in H1 as (k1 & Hk1 & -> & Hinv1);
    [|by apply shifted_exact].
  destruct (round_nearest_even_shifted _ _ _ Hk1 Hinv1) as [Hm2 Hround].
  set (m2 := round_nearest_even _ _) in *. clearbody m2.
  destruct (shr (shr_record_of_loc m2 loc_Exact) (e + k1) _) as [mrs2 e2] eqn:H2.
  apply (shr_shifted m2) in H2 as (k2 & Hk2 & -> & Hinv2);
    [|by apply shifted_exact].
  destruct Hinv2 as (Hm3 & low & Hlow & Heq & _).
  destruct (shr_m mrs2) as [|m3|m3] eqn:Hm; [done| |done].
  destruct (e + k1 + k2 <=? emax - prec); [|done].
  intros [= <- <- <-]. split; [done|]. split; [lia|].
  replace (e + k1 + k2 - e) with (k1 + k2) by lia.
  rewrite Z.pow_add_r by lia.
  pose proof (Z.pow_pos_nonneg 2 k1) as Hp1.
  pose proof (Z.pow_pos_nonneg 2 k2) as Hp2.
  assert (Z.pos m3 * 2 ^ k2 ≤ m2 < Z.pos m3 * 2 ^ k2 + 2 ^ k2) as Hfloor
    by (destruct (shr_r mrs2); lia).
  nia.
Qed.

Lemma iter_xO m d : Zpos (Pos.iter xO m d) = Zpos m * 2 ^ Zpos d.
Proof.
  revert m. induction d as [|d IH] using Pos.peano_ind; intros m.
  - cbn [Pos.iter]. rewrite Pos2Z.inj_xO. lia.
  - rewrite Pos.iter_succ, Pos2Z.inj_xO, IH, Pos2Z.inj_succ, Z.pow_succ_r by lia.
    lia.
Qed.

Lemma shl_align_value m e e' :
  let r := shl_align m e e' in
  r.2 ≤ e ∧ (e' ≤ e → r.2 = e') ∧ Zpos r.1 = Zpos m * 2 ^ (e - r.2).
Proof.
  unfold shl_align. destruct (e' - e) as [|d|d] eqn:Hd; cbn [fst snd].
  - rewrite Z.sub_diag. cbn. lia.
  - rewrite Z.sub_diag. cbn. lia.
  - split; [lia|]. split; [lia|]. rewrite iter_xO. f_equal. f_equal. lia.
Qed.

Lemma binary_round_error sx m e s' m' e' :
  binary_round prec emax sx m e = S754_finite s' m' e' → e ≤ e' →
  s' = sx
  ∧ Zpos m - 2 ^ (e' - e) < Zpos m' * 2 ^ (e' - e) < Zpos m + 2 ^ (e' - e).
Proof.
  unfold binary_round.
  pose proof (shl_align_value m e (fexp prec emax (Z.pos (digits2_pos m) + e)))
    as (Hle & _ & Hval).
  destruct (shl_align m e _) as [mz ez]. cbn [fst snd] in *.
  intros (-> & Hez & Herr)%binary_round_aux_error He. split; [done|].
  rewrite Hval in Herr.
  replace (e' - ez) with ((e' - e) + (e - ez)) in Herr by lia.
  rewrite Z.pow_add_r in Herr by lia.
  pose proof (Z.pow_pos_nonneg 2 (e - ez)) as Hp1.
  pose proof (Z.pow_pos_nonneg 2 (e' - e)) as Hp2.
  nia.
Qed.
End RoundingFacts.

Section Float32Facts.
Import SpecFloat.
Local Open Scope Z_scope.

(** An update by at least one unit in the last place of an element
    changes the element. *)
Lemma submul_changes x lr d :
  Float32.at_least_one_ulp x lr d → Float32.submul x lr d ≠ x.
Proof.
  destruct x as [| | |sx mx ex]; try done.
  destruct lr as [| | |sl ml el]; try done.
  destruct d as [| | |sd md ed]; try done.
  cbn [Float32.at_least_one_ulp Float32.submul]. cbn zeta. intros Hulp.
  set (ez := Z.min ex (el + ed)).
  pose proof (shl_align_value mx ex ez) as (_ & Hx2 & Hx).
  pose proof (shl_align_value (ml * md) (el + ed) ez) as (_ & Ht2 & Ht).
  cbn zeta in *. rewrite Hx2 in Hx by lia. rewrite Ht2 in Ht by lia.
  destruct (shl_align mx ex ez) as [X ?], (shl_align (ml * md) (el + ed) ez) as [T ?].
  cbn [fst snd] in *.
  assert (2 ^ (ex - ez) ≤ Zpos T) as Hbig.
  { rewrite Ht. destruct (decide (el + ed ≤ ex)) as [Hle|Hgt].
    - replace (ex - ez) with ((ex - (el + ed)) + (el + ed - ez)) by lia.
      rewrite Z.pow_add_r by lia.
      pose proof (Z.pow_pos_nonneg 2 (el + ed - ez)). nia.
    - replace (ex - ez) with 0 by lia.
      pose proof (Z.pow_pos_nonneg 2 (el + ed - ez)). nia. }
  clear Hulp Ht. intros Heq. unfold binary_normalize in Heq.
  destruct (cond_Zopp sx (Z.pos X) - cond_Zopp (xorb sl sd) (Z.pos T))
    as [|M|M] eqn:HM; [done| |].
  - apply binary_round_error in Heq as [-> Herr]; [|lia].
    cbn [cond_Zopp] in HM. rewrite <-Hx in Herr.
    destruct (xorb sl sd); cbn [cond_Zopp] in HM; lia.
  - apply binary_round_error in Heq as [-> Herr]; [|lia].
    cbn [cond_Zopp] in HM. rewrite <-Hx in Herr.
    destruct (xorb sl sd); cbn [cond_Zopp] in HM; lia.
Qed.


Lemma float32_add_zero_finite (x lr d : Float32.float32) :
  Float32.at_least_one_ulp x lr d → Float32.add Float32.zero d = d.
Proof. by destruct x, lr, d. Qed.
End Float32Facts.


Section LinearScorerRuns.
#[local] Existing Instance linear_scorer.


End LinearScorerRuns.

(** C6, as far as it holds.  One training pass replaces every element
    [x] of a parameter that receives a gradient by [x - lr * d], computed
    and rounded in one operation, where [d] is the element of the
    gradient, added to the zero of the cleared gradient where the
    parameter had one.  In exact arithmetic, with a learning rate that is
    not zero, every element whose gradient is not zero gets a value
    different from the one it had, and the parameter changes.  In single
    precision an element changes whenever [lr * d] is at least one unit
    in the last place of [x]. *)
Theorem sgd_step_changes_parameter :
  (∀ (A : Type) (arithmetic : Scalar A) (network : Autograd A) (lr : A)
     (images : Tensor A) (labels : list nat) (s : Session A) (k : nat)
     (p : Param A) (g : Tensor A),
     model_parameters s !! k = Some p →
     grad_fn (p_data <$> model_parameters s) images labels !! k = Some g →
     (∀ old, p_grad p = Some old → same_size old g) →
     ∃ p', model_parameters (training_pass lr images labels s).2 !! k = Some p'
       ∧ (∀ j x d, data (p_data p) !! j = Some x → data g !! j = Some d →
            data (p_data p') !! j
            = Some (ssubmul x lr
                      (match p_grad p with
                       | None => d
                       | Some _ => sadd szero d
                       end)))
       ∧ (ExactScalar A → ExactUpdate A → lr ≠ szero →
          ∀ j x d, data (p_data p) !! j = Some x → data g !! j = Some d →
            d ≠ szero →
            data (p_data p') !! j = Some (ssub x (smul lr d))
            ∧ ssub x (smul lr d) ≠ x
            ∧ p_data p' ≠ p_data p))
  ∧ (∀ (network : Autograd Float32.float32) (lr : Float32.float32)
       (images : Tensor Float32.float32) (labels : list nat)
       (s : Session Float32.float32) (k : nat) (p : Param Float32.float32)
       (g : Tensor Float32.float32),
     model_parameters s !! k = Some p →
     grad_fn (p_data <$> model_parameters s) images labels !! k = Some g →
     (∀ old, p_grad p = Some old → same_size old g) →
     ∃ p', model_parameters (training_pass lr images labels s).2 !! k = Some p'
       ∧ ∀ j x d, data (p_data p) !! j = Some x → data g !! j = Some d →
           Float32.at_least_one_ulp x lr d →
           data (p_data p') !! j = Some (Float32.submul x lr d)
           ∧ Float32.submul x lr d ≠ x
           ∧ p_data p' ≠ p_data p).
Proof.
  split.
  - intros A arithmetic network lr images labels s k p g Hp Hg Hold.
    exists (sgd_update lr (accumulate (zero_grad p) g)).
    split; [by apply pass_lookup|].
    split; [intros j x d Hx Hd; by apply pass_element|].
    intros Hexact Hupdate Hlr j x d Hx Hd Hnz.
    pose proof (pass_element lr p g j x d Hold Hx Hd) as Hj.
    assert (match p_grad p with None => d | Some _ => sadd szero d end = d)
      as Hsame by (destruct (p_grad p); [apply sadd_zero_l|done]).
    rewrite Hsame, ssubmul_exact in Hj.
    assert (ssub x (smul lr d) ≠ x) as Hne.
    { rewrite <-ssubmul_exact. by apply sgd_element_changes. }
    split; [done|]. split; [done|]. by apply (element_differs _ _ j x _ Hx Hj).
  - intros network lr images labels s k p g Hp Hg Hold.
    exists (sgd_update lr (accumulate (zero_grad p) g)).
    split; [by apply pass_lookup|].
    intros j x d Hx Hd Hulp.
    pose proof (pass_element lr p g j x d Hold Hx Hd) as Hj.
    assert (match p_grad p with None => d | Some _ => sadd szero d end = d)
      as Hsame.
    { destruct (p_grad p); [|done]. by apply (float32_add_zero_finite x lr). }
    rewrite Hsame in Hj.
    pose proof (submul_changes x lr d Hulp) as Hne.
    split; [done|]. split; [done|]. by apply (element_differs _ _ j x _ Hx Hj).
Qed.

(** C4, as far as it holds.  From a fresh session, two consecutive steps
    without the gradient-clearing call leave, after the second backward
    pass, the sum of the gradients of the two batches in every parameter;
    with the call they leave zero plus the gradient of the second batch.
    In exact arithmetic that is the gradient of the second batch, and the
    two outcomes differ as soon as the gradient of the first batch is not
    zero. *)
Theorem gradients_accumulate_without_zero_grad {A} `{Scalar A} `{Autograd A}
    (lr : A) (b1 b2 : Tensor A * list nat) (s : Session A) :
  let θ0 := p_data <$> model_parameters s in
  let g1 := grad_fn θ0 b1.1 b1.2 in
  let θ1 := p_data <$> model_parameters (training_pass lr b1.1 b1.2 s).2 in
  let g2 := grad_fn θ1 b2.1 b2.2 in
  let accumulated :=
    p_grad <$> model_parameters
      (two_steps (training_pass_without_zero_grad lr) b1 b2 s).2 in
  let cleared :=
    p_grad <$> model_parameters (two_steps (training_pass lr) b1 b2 s).2 in
  fresh_session s →
  length g1 = length (model_parameters s) →
  length g2 = length (model_parameters s) →
  accumulated = Some <$> zip_with (tensor_zip sadd) g1 g2
  ∧ cleared = Some <$> zip_with (tensor_zip sadd) (zeros_like <$> g1) g2
  ∧ (ExactScalar A →
     Forall2 same_size g1 g2 →
     cleared = Some <$> g2 ∧ (Exists nonzero g1 → accumulated ≠ cleared)).
Proof.
  cbn zeta. intros Hfresh Hlen1 Hlen2.
  rewrite training_pass_unfold in Hlen2 |- *.
  cbn [fst snd model_parameters] in Hlen2 |- *.
  rewrite (zero_grad_fresh (model_parameters s)) in Hlen2 |- * by done.
  unfold two_steps, bind.
  rewrite (training_pass_unfold lr b1.1 b1.2 s).
  rewrite (training_pass_without_zero_grad_unfold lr b1.1 b1.2 s).
  rewrite training_pass_unfold, training_pass_without_zero_grad_unfold.
  cbn [fst snd model_parameters]. cbn zeta.
  rewrite (zero_grad_fresh (model_parameters s)) by done.
  set (g1 := grad_fn (p_data <$> model_parameters s) b1.1 b1.2) in *.
  set (ps1 := sgd_update lr <$> backward_into (model_parameters s) g1) in *.
  set (g2 := grad_fn (p_data <$> ps1) b2.1 b2.2) in *.
  assert (p_grad <$> ps1 = Some <$> g1) as Hps1.
  { unfold ps1. rewrite p_grad_sgd_update. by apply p_grad_backward_fresh. }
  assert (length ps1 = length (model_parameters s)) as Hlenps1.
  { unfold ps1. by rewrite length_fmap, length_backward_into. }
  assert (p_grad <$> (sgd_update lr <$> backward_into ps1 g2)
          = Some <$> zip_with (tensor_zip sadd) g1 g2) as Hacc.
  { rewrite p_grad_sgd_update. apply (p_grad_backward_some ps1 g1 g2 Hps1).
    lia. }
  assert (p_grad <$> (sgd_update lr <$> backward_into (zero_grad <$> ps1) g2)
          = Some <$> zip_with (tensor_zip sadd) (zeros_like <$> g1) g2) as Hclr.
  { rewrite p_grad_sgd_update.
    apply (p_grad_backward_some (zero_grad <$> ps1) (zeros_like <$> g1) g2).
    - by apply p_grad_zero_grad.
    - rewrite length_fmap. lia. }
  split; [done|]. split; [done|].
  intros Hexact Hsize. rewrite Hacc, Hclr, zip_zeros_like by done.
  split; [done|]. intros Hnz Heq.
  apply (inj (fmap Some)) in Heq.
  by apply (zip_nonzero_differs g1 g2) in Heq.
Qed.

Section LinearScorerExact.
#[local] Existing Instance linear_scorer.

(** In exact arithmetic the weight 1 with input 2 and learning rate 3
    becomes -5; in single precision the weight 1.0 with input 22.0 and
    learning rate 0.01 becomes 13086229 * 2^-24. *)
Lemma sgd_step_changes_parameter_witness :
  (∃ p', model_parameters (training_pass 3%Z Z_input_two [] Z_session).2 !! 0
         = Some p'
     ∧ data (p_data p') !! 0 = Some (-5)%Z
     ∧ p_data p' ≠ mkTensor [1] [1%Z])
  ∧ (∃ p', model_parameters
             (training_pass Float32.lr_0_01 float32_twenty_two_input []
                float32_session).2 !! 0
           = Some p'
       ∧ data (p_data p') !! 0
         = Some (SpecFloat.S754_finite false 13086229 (-24))
       ∧ p_data p' ≠ mkTensor [1] [Float32.one]).
Proof.
  destruct sgd_step_changes_parameter as [Hany Hfloat]. split.
  - destruct (Hany Z Z_scalar (linear_scorer Z) 3%Z Z_input_two [] Z_session 0
                (mkParam (mkTensor [1] [1%Z]) None) Z_input_two)
      as (p' & Hp' & _ & Hexact).
    + reflexivity.
    + reflexivity.
    + intros old Hold. discriminate Hold.
    + exists p'. split; [exact Hp'|].
      destruct (Hexact Z_exact Z_exact_update) with (j := 0) (x := 1%Z) (d := 2%Z)
        as (Hj & _ & Hne).
      * cbn. lia.
      * reflexivity.
      * reflexivity.
      * cbn. lia.
      * split; [exact Hj|exact Hne].
  - destruct (Hfloat (linear_scorer Float32.float32) Float32.lr_0_01
                float32_twenty_two_input [] float32_session 0
                (mkParam (mkTensor [1] [Float32.one]) None)
                float32_twenty_two_input)
      as (p' & Hp' & Hchanges).
    + reflexivity.
    + reflexivity.
    + intros old Hold. discriminate Hold.
    + exists p'. split; [exact Hp'|].
      destruct (Hchanges 0 Float32.one Float32.twenty_two) as (Hj & _ & Hne).
      * reflexivity.
      * reflexivity.
      * vm_compute. discriminate.
      * split; [exact Hj|exact Hne].
Defined.

(** C6 as claimed fails in single precision: with the weight 1.0, the
    learning rate 0.01 and the gradient 2^-149, neither of them zero,
    [1.0 - 0.01 * 2^-149] rounds to 1.0 and [optimizer.step()] leaves the
    weight at 1.0; so does the whole training pass on an input whose
    gradient is 2^-149. *)
Lemma sgd_step_absorbed_in_float32 :
  Float32.lr_0_01 ≠ szero
  ∧ nonzero float32_tiny_input
  ∧ p_grad <$> model_parameters float32_session_grad_tiny
    = [Some float32_tiny_input]
  ∧ p_data <$> model_parameters
      (optimizer_step Float32.lr_0_01 float32_session_grad_tiny).2
    = p_data <$> model_parameters float32_session_grad_tiny
  ∧ grad_fn (p_data <$> model_parameters float32_session)
      float32_tiny_input [] = [float32_tiny_input]
  ∧ p_data <$> model_parameters
      (training_pass Float32.lr_0_01 float32_tiny_input [] float32_session).2
    = p_data <$> model_parameters float32_session.
Proof.
  split; [discriminate|]. split.
  { exists 0, Float32.tiny. split; [reflexivity|discriminate]. }
  split; [reflexivity|]. split; [vm_compute; reflexivity|].
  split; [reflexivity|]. vm_compute. reflexivity.
Qed.

(** From the weight 1 with learning rate 1, the batches 2 and 3 leave
    the gradient 5 without the clearing call and 3 with it. *)
Lemma gradients_accumulate_without_zero_grad_witness :
  p_grad <$> model_parameters
    (two_steps (training_pass_without_zero_grad 1%Z)
       (Z_input_two, []) (Z_input_three, []) Z_session).2
  ≠ p_grad <$> model_parameters
      (two_steps (training_pass 1%Z)
         (Z_input_two, []) (Z_input_three, []) Z_session).2.
Proof.
  destruct (gradients_accumulate_without_zero_grad 1%Z
              (Z_input_two, []) (Z_input_three, []) Z_session)
    as (_ & _ & Hexact).
  - repeat constructor.
  - reflexivity.
  - reflexivity.
  - destruct (Hexact Z_exact) as [_ Hdiffer].
    + repeat constructor.
    + apply Hdiffer. apply Exists_cons_hd.
      exists 0, 2%Z. split; [reflexivity|]. cbn. lia.
Defined.

(** C4 as claimed fails where the first gradient is zero, and in single
    precision also where it is absorbed: two steps on a batch whose
    gradient is 0.0 leave the same gradient with and without the
    clearing call, and so do a step with gradient 2^-149 followed by a
    step with gradient 1.0. *)
Lemma gradients_identical_in_float32 :
  p_grad <$> model_parameters
    (two_steps (training_pass_without_zero_grad Float32.lr_0_01)
       (float32_zero_input, []) (float32_zero_input, []) float32_session).2
  = p_grad <$> model_parameters
      (two_steps (training_pass Float32.lr_0_01)
         (float32_zero_input, []) (float32_zero_input, []) float32_session).2
  ∧ nonzero float32_tiny_input
  ∧ p_grad <$> model_parameters
      (two_steps (training_pass_without_zero_grad Float32.lr_0_01)
         (float32_tiny_input, []) (float32_one_input, []) float32_session).2
    = p_grad <$> model_parameters
        (two_steps (training_pass Float32.lr_0_01)
           (float32_tiny_input, []) (float32_one_input, []) float32_session).2.
Proof.
  split; [vm_compute; reflexivity|]. split.
  - exists 0, Float32.tiny. split; [reflexivity|discriminate].
  - vm_compute. reflexivity.
Qed.
End LinearScorerExact.

(** ** The epoch loop *)

Section EpochFacts.
Context {A F : Type} `{Scalar A} `{Autograd A} `{PyFloat A F}.
Implicit Types (s : Session A) (batches : list (Tensor A * list nat)).

Lemma epoch_batches_spec (lr : A) batches (running_loss : F) s :
  Forall (λ b, is_Some (flatten_batch b.1)) batches →
  ∃ s', epoch_batches lr batches running_loss s
        = Some (foldl pf_add running_loss
                  (item <$> batch_losses lr batches (model_parameters s)),
                s')
    ∧ length (batch_losses lr batches (model_parameters s)) = length batches.
Proof.
  intros Hflat. revert running_loss s.
  induction Hflat as [|[images labels] batches [flat Hflat] _ IH];
    intros running_loss s.
  - by exists s.
  - cbn [epoch_batches batch_losses fst] in *. rewrite Hflat.
    cbn [mbind option_bind]. rewrite training_pass_unfold. cbn [loss_value].
    edestruct IH as (s' & Hs' & Hlen).
    exists s'. split; [exact Hs'|]. cbn [length]. f_equal. exact Hlen.
Qed.

Lemma train_prints_once_per_epoch (lr : A) loaders s (printed : list F) s' :
  train lr loaders s = Some (printed, s') → length printed = length loaders.
Proof.
  revert s printed. induction loaders as [|trainloader loaders IH];
    intros s printed; cbn [train].
  - by intros [= <- _].
  - destruct (epoch lr trainloader s) as [[training_loss s1]|]; [|done]. cbn.
    destruct (train lr loaders s1) as [[printed' s2]|] eqn:Htrain; [|done].
    cbn. intros [= <- <-]. cbn. f_equal. by eapply IH.
Qed.
End EpochFacts.

(** C5.  For a loader that yields at least one batch, every batch being
    one the loop can flatten, the epoch ends and prints the sum of the
    scalar losses of its batches, accumulated in order from 0, divided by
    the number of batches.  A run of several epochs prints this one value
    per epoch and nothing else. *)
Theorem epoch_reports_mean_batch_loss {A F} `{Scalar A} `{Autograd A}
    `{PyFloat A F} (lr : A) (s : Session A) :
  (∀ trainloader : list (Tensor A * list nat),
     trainloader ≠ [] →
     Forall (λ b, is_Some (flatten_batch b.1)) trainloader →
     ∃ s', epoch lr trainloader s
           = Some (pf_div
                     (foldl pf_add (pf_of_nat 0)
                        (item <$> batch_losses lr trainloader
                                    (model_parameters s)))
                     (pf_of_nat (length trainloader)), s')
       ∧ length (batch_losses lr trainloader (model_parameters s))
         = length trainloader)
  ∧ (∀ loaders (printed : list F) s',
       train lr loaders s = Some (printed, s') →
       length printed = length loaders).
Proof.
  split.
  - intros trainloader Hne Hflat. unfold epoch.
    destruct (epoch_batches_spec lr trainloader (pf_of_nat 0) s Hflat)
      as (s' & Hs' & Hlen).
    exists s'. rewrite Hs'. cbn. split; [|done].
    rewrite decide_False; [done|]. by destruct trainloader.
  - intros loaders printed s'. apply train_prints_once_per_epoch.
Qed.

Section LinearScorerEpoch.
#[local] Existing Instance linear_scorer.

(** Two batches of one image of one pixel, with the learning rate of the
    loop: the losses are 1.0 and 0.997 * 2, and the epoch prints their
    mean, 1.497. *)
Lemma epoch_reports_mean_batch_loss_witness :
  ∃ s', epoch (F := Float64.float64) Float32.lr_0_003
          [(mkTensor [1; 1; 1; 1] [Float32.one], [3]);
           (mkTensor [1; 1; 1; 1] [Float32.two], [7])] float32_session
        = Some (SpecFloat.S754_finite false 6741888547684352 (-52), s').
Proof.
  destruct (epoch_reports_mean_batch_loss (F := Float64.float64)
              Float32.lr_0_003 float32_session) as [Hepoch _].
  destruct (Hepoch [(mkTensor [1; 1; 1; 1] [Float32.one], [3]);
                    (mkTensor [1; 1; 1; 1] [Float32.two], [7])])
    as (s' & Hs' & _).
  - discriminate.
  - repeat constructor; vm_compute; eauto.
  - exists s'. rewrite Hs'. vm_compute. reflexivity.
Defined.
End LinearScorerEpoch.

(** * Further properties of the notebooks' code *)

(** ** Loading a state dictionary: what the call leaves *)

Section LoadingFacts.
Context {A : Type}.
Implicit Types (l : Linear A) (ls : list (Linear A)) (model : Network A).
Implicit Types (sd : list (string * Tensor A)).

Lemma load_tensor_self sd key (p : Tensor A) :
  dict_get sd key = Some p → load_tensor sd key p = (p, ([], [])).
Proof.
  intros Hget. unfold load_tensor. rewrite Hget, decide_True by done.
  by destruct p.
Qed.

Lemma load_Linear_self sd p l :
  dict_get sd (p +:+ "weight") = Some (weight l) →
  dict_get sd (p +:+ "bias") = Some (bias l) →
  load_Linear sd p l = (l, ([], [])).
Proof.
  intros Hw Hb. unfold load_Linear.
  rewrite (load_tensor_self _ _ _ Hw), (load_tensor_self _ _ _ Hb).
  by destruct l.
Qed.

Lemma load_hidden_self sd j ls :
  (∀ k l, ls !! k = Some l →
     dict_get sd (hidden_prefix (j + k) +:+ "weight") = Some (weight l)
     ∧ dict_get sd (hidden_prefix (j + k) +:+ "bias") = Some (bias l)) →
  load_hidden sd j ls = (ls, ([], [])).
Proof.
  revert j. induction ls as [|l ls IH]; intros j Hget; [done|].
  cbn [load_hidden].
  destruct (Hget 0 l eq_refl) as [Hw Hb]. rewrite Nat.add_0_r in Hw, Hb.
  rewrite (load_Linear_self _ _ _ Hw Hb), (IH (S j)); [done|].
  intros k l0 Hk. specialize (Hget (S k) l0 Hk).
  by replace (j + S k) with (S j + k) in Hget by lia.
Qed.

Lemma load_params_self model :
  load_params model (state_dict model) = (model, ([], [])).
Proof.
  unfold load_params. rewrite load_hidden_self.
  - rewrite load_Linear_self; [by destruct model| |].
    + apply state_dict_output_weight.
    + apply state_dict_output_bias.
  - intros k l Hk. cbn [Nat.add].
    by rewrite state_dict_hidden_weight, state_dict_hidden_bias, Hk.
Qed.

Lemma unexpected_keys_same_names model model' :
  length (hidden_layers model) = length (hidden_layers model') →
  unexpected_keys model' (state_dict model) = [].
Proof.
  intros Hlen. unfold unexpected_keys. apply filter_nil_iff.
  intros key Hkey Hnot. apply Hnot. by erewrite state_dict_names.
Qed.

Lemma load_state_dict_statement_returns model sd loaded :
  load_state_dict model sd = Return loaded →
  load_state_dict_statement model sd
  = (loaded, Return (mkIncompatibleKeys [] [])).
Proof.
  intros Hload. unfold load_state_dict_statement. rewrite Hload.
  apply load_state_dict_returns in Hload as [Hmsgs ->].
  rewrite error_msgs_unfold in Hmsgs.
  destruct (load_params_spec model sd) as (_ & _ & -> & _).
  destruct (decide (entry_missing sd (state_dict model) = [])) as [->|];
    [|done].
  destruct (decide (unexpected_keys model sd = [])) as [->|]; done.
Qed.

(** The shapes of a model never change under loading. *)
Lemma load_tensor_shape sd key (p : Tensor A) :
  shape (load_tensor sd key p).1 = shape p.
Proof.
  unfold load_tensor. destruct (dict_get sd key) as [t|]; [|done].
  by destruct (decide (shape t = shape p)).
Qed.

Lemma load_Linear_shapes sd p l : same_shapes_Linear l (load_Linear sd p l).1.
Proof.
  unfold load_Linear, same_shapes_Linear.
  pose proof (load_tensor_shape sd (p +:+ "weight") (weight l)) as Hw.
  pose proof (load_tensor_shape sd (p +:+ "bias") (bias l)) as Hb.
  destruct (load_tensor sd (p +:+ "weight") (weight l)) as [w [e1 m1]].
  destruct (load_tensor sd (p +:+ "bias") (bias l)) as [b [e2 m2]].
  cbn in *. done.
Qed.

Lemma load_hidden_shapes sd j ls :
  Forall2 same_shapes_Linear ls (load_hidden sd j ls).1.
Proof.
  revert j. induction ls as [|l ls IH]; intros j; [by constructor|].
  cbn [load_hidden]. pose proof (load_Linear_shapes sd (hidden_prefix j) l) as Hl.
  specialize (IH (S j)).
  destruct (load_Linear sd (hidden_prefix j) l) as [l1 [e1 m1]].
  destruct (load_hidden sd (S j) ls) as [ls1 [e2 m2]].
  cbn [fst] in *. by constructor.
Qed.

Lemma load_params_shapes model sd : same_shapes model (load_params model sd).1.
Proof.
  unfold load_params, same_shapes.
  pose proof (load_hidden_shapes sd 0 (hidden_layers model)) as Hls.
  pose proof (load_Linear_shapes sd output_prefix (output model)) as Hl.
  destruct (load_hidden sd 0 (hidden_layers model)) as [ls1 [e1 m1]].
  destruct (load_Linear sd output_prefix (output model)) as [l1 [e2 m2]].
  cbn [fst hidden_layers output] in *. done.
Qed.

Lemma same_shapes_layers_ok i hs ls ls' :
  Forall2 same_shapes_Linear ls ls' → layers_ok i hs ls → layers_ok i hs ls'.
Proof.
  intros Hsame. revert i hs.
  induction Hsame as [|l l' ls ls' (Hi & Ho & Hw & Hb) _ IH]; intros i [|h hs];
    try done.
  cbn [layers_ok]. intros [(Hi' & Ho' & Hw' & Hb') Hls]. split; [|by apply IH].
  unfold linear_ok. by rewrite <-Hi, <-Ho, <-Hw, <-Hb.
Qed.

Lemma same_shapes_architecture i o hs model model' :
  same_shapes model model' →
  has_architecture i o hs model → has_architecture i o hs model'.
Proof.
  intros [Hls (Hi & Ho & Hw & Hb)] [Hok (Hi' & Ho' & Hw' & Hb')]. split.
  - by apply (same_shapes_layers_ok _ _ _ _ Hls).
  - unfold linear_ok. by rewrite <-Hi, <-Ho, <-Hw, <-Hb.
Qed.

(** What loading reports depends on the shapes of the model only, and so
    does the model it leaves when nothing is reported. *)
Lemma load_tensor_congr sd key (p p' : Tensor A) :
  shape p = shape p' →
  (load_tensor sd key p).2 = (load_tensor sd key p').2
  ∧ ((load_tensor sd key p).2 = ([], []) →
     (load_tensor sd key p).1 = (load_tensor sd key p').1).
Proof.
  intros Hsh. unfold load_tensor. rewrite <-Hsh.
  destruct (dict_get sd key) as [t|]; [|done].
  by destruct (decide (shape t = shape p)).
Qed.

Lemma load_Linear_congr sd p l l' :
  same_shapes_Linear l l' →
  (load_Linear sd p l).2 = (load_Linear sd p l').2
  ∧ ((load_Linear sd p l).2 = ([], []) →
     (load_Linear sd p l).1 = (load_Linear sd p l').1).
Proof.
  intros (Hi & Ho & Hw & Hb). unfold load_Linear.
  destruct (load_tensor_congr sd (p +:+ "weight") _ _ Hw) as [Hw2 Hw1].
  destruct (load_tensor_congr sd (p +:+ "bias") _ _ Hb) as [Hb2 Hb1].
  destruct (load_tensor sd (p +:+ "weight") (weight l)) as [w [e1 m1]].
  destruct (load_tensor sd (p +:+ "bias") (bias l)) as [b [e2 m2]].
  destruct (load_tensor sd (p +:+ "weight") (weight l')) as [w' [e1' m1']].
  destruct (load_tensor sd (p +:+ "bias") (bias l')) as [b' [e2' m2']].
  cbn [fst snd] in *. injection Hw2 as <- <-. injection Hb2 as <- <-.
  split; [done|]. intros [= [-> ->]%app_eq_nil [-> ->]%app_eq_nil].
  rewrite Hw1, Hb1, Hi, Ho by done. done.
Qed.

Lemma load_hidden_congr sd j ls ls' :
  Forall2 same_shapes_Linear ls ls' →
  (load_hidden sd j ls).2 = (load_hidden sd j ls').2
  ∧ ((load_hidden sd j ls).2 = ([], []) →
     (load_hidden sd j ls).1 = (load_hidden sd j ls').1).
Proof.
  intros Hsame. revert j.
  induction Hsame as [|l l' ls ls' Hl _ IH]; intros j; [done|].
  cbn [load_hidden].
  destruct (load_Linear_congr sd (hidden_prefix j) _ _ Hl) as [Hl2 Hl1].
  destruct (IH (S j)) as [Hls2 Hls1].
  destruct (load_Linear sd (hidden_prefix j) l) as [l1 [e1 m1]].
  destruct (load_hidden sd (S j) ls) as [ls1 [e2 m2]].
  destruct (load_Linear sd (hidden_prefix j) l') as [l1' [e1' m1']].
  destruct (load_hidden sd (S j) ls') as [ls1' [e2' m2']].
  cbn [fst snd] in *. injection Hl2 as <- <-. injection Hls2 as <- <-.
  split; [done|]. intros [= [-> ->]%app_eq_nil [-> ->]%app_eq_nil].
  rewrite Hl1, Hls1 by done. done.
Qed.

Lemma load_params_congr model model' sd :
  same_shapes model model' →
  (load_params model sd).2 = (load_params model' sd).2
  ∧ ((load_params model sd).2 = ([], []) →
     (load_params model sd).1 = (load_params model' sd).1).
Proof.
  intros [Hls Hl]. unfold load_params.
  destruct (load_hidden_congr sd 0 _ _ Hls) as [Hls2 Hls1].
  destruct (load_Linear_congr sd output_prefix _ _ Hl) as [Hl2 Hl1].
  destruct (load_hidden sd 0 (hidden_layers model)) as [ls1 [e1 m1]].
  destruct (load_Linear sd output_prefix (output model)) as [l1 [e2 m2]].
  destruct (load_hidden sd 0 (hidden_layers model')) as [ls1' [e1' m1']].
  destruct (load_Linear sd output_prefix (output model')) as [l1' [e2' m2']].
  cbn [fst snd] in *. injection Hl2 as <- <-. injection Hls2 as <- <-.
  split; [done|]. intros [= [-> ->]%app_eq_nil [-> ->]%app_eq_nil].
  rewrite Hl1, Hls1 by done. done.
Qed.

Lemma load_state_dict_congr model model' sd :
  same_shapes model model' →
  load_state_dict model' sd = load_state_dict model sd.
Proof.
  intros Hsame. destruct (load_params_congr _ _ sd Hsame) as [H2 H1].
  assert (unexpected_keys model' sd = unexpected_keys model sd) as Hun.
  { unfold unexpected_keys. erewrite (state_dict_names model' model); [done|].
    destruct Hsame as [Hls _]. symmetry. by eapply Forall2_length. }
  unfold load_state_dict, error_msgs. rewrite Hun.
  destruct (load_params model sd) as [m [e ms]].
  destruct (load_params model' sd) as [m' [e' ms']].
  cbn [fst snd] in *. injection H2 as <- <-.
  destruct (decide (ms = [])) as [->|]; [|done].
  destruct (decide (unexpected_keys model sd = [])); [|done].
  destruct e; [|done]. cbn. by rewrite H1.
Qed.
End LoadingFacts.

(** ** The names of the state dictionary *)

Section NameFacts.
Context {A : Type}.
Implicit Types (l : Linear A) (ls : list (Linear A)) (model : Network A).

Lemma hidden_entries_key_index j ls key :
  key ∈ (hidden_entries j ls).*1 →
  ∃ k, j ≤ k ∧ (key = hidden_prefix k +:+ "weight"
                ∨ key = hidden_prefix k +:+ "bias").
Proof.
  intros ([key' t] & -> & Hin)%list_elem_of_fmap.
  apply hidden_entries_lookup in Hin as (k & l & _ & [[-> _]|[-> _]]);
    exists (j + k); (split; [lia|auto]).
Qed.

Lemma NoDup_hidden_entries j ls : NoDup (hidden_entries j ls).*1.
Proof.
  revert j. induction ls as [|l ls IH]; intros j; [constructor|].
  cbn [hidden_entries]. rewrite fmap_app. unfold layer_entries.
  cbn [fmap list_fmap fst app].
  apply NoDup_cons. split; [|apply NoDup_cons; split; [|apply IH]].
  - rewrite elem_of_cons. intros [Heq|Hin].
    + by apply weight_ne_bias in Heq.
    + apply hidden_entries_key_index in Hin as (k & Hk & [Heq|Heq]).
      * apply string_app_inv_tail, hidden_prefix_inj in Heq. lia.
      * by apply weight_ne_bias in Heq.
  - intros Hin. apply hidden_entries_key_index in Hin as (k & Hk & [Heq|Heq]).
    + symmetry in Heq. by apply weight_ne_bias in Heq.
    + apply string_app_inv_tail, hidden_prefix_inj in Heq. lia.
Qed.

Lemma length_hidden_entries j ls : length (hidden_entries j ls) = 2 * length ls.
Proof.
  revert j. induction ls as [|l ls IH]; intros j; [done|].
  cbn [hidden_entries]. rewrite length_app, IH. cbn. lia.
Qed.

(** Every name of a state dictionary is the name of a layer followed by
    [weight] or [bias]. *)
Lemma state_dict_key_suffix model key :
  key ∈ (state_dict model).*1 →
  ∃ prefix, key = prefix +:+ "weight" ∨ key = prefix +:+ "bias".
Proof.
  unfold state_dict. rewrite fmap_app, elem_of_app. intros [Hin|Hin].
  - apply hidden_entries_key_index in Hin as (k & _ & Hkey). by eexists.
  - unfold layer_entries in Hin. cbn in Hin.
    rewrite !elem_of_cons, elem_of_nil in Hin.
    destruct Hin as [->|[->|[]]]; exists output_prefix; auto.
Qed.

Lemma suffix_neither_weight_nor_bias model key :
  (∀ prefix, key ≠ prefix +:+ "weight" ∧ key ≠ prefix +:+ "bias") →
  dict_get (state_dict model) key = None.
Proof.
  intros Hkey. apply dict_get_None_keys.
  intros (prefix & [->| ->])%state_dict_key_suffix;
    destruct (Hkey prefix) as [? ?]; done.
Qed.

Lemma checkpoint_key_suffix key prefix :
  key ∈ ["input_size"; "output_size"; "hidden_layers"; "state_dict"] →
  key ≠ prefix +:+ "weight" ∧ key ≠ prefix +:+ "bias".
Proof.
  rewrite !elem_of_cons, elem_of_nil.
  intros [->|[->|[->|[->|[]]]]]; split; intros Heq;
    apply (f_equal String.list_ascii_of_string) in Heq;
    rewrite chars_app in Heq; apply (f_equal reverse) in Heq;
    rewrite reverse_app in Heq; discriminate Heq.
Qed.
End NameFacts.

(** X1.  The first save of the notebook and what follows it:
    [torch.save(model.state_dict(), 'checkpoint.pth')] followed by
    [torch.load('checkpoint.pth')] gives the state dictionary of the
    model, and [model.load_state_dict] of it into the same model raises
    nothing, reports no missing and no unexpected key, as the notebook
    displays, and leaves every parameter of the model as it was.  This
    holds for every model, whatever its sizes and parameter values. *)
Theorem state_dict_loads_back {A} (model : Network A)
    (fs : gmap string (Pickle A)) :
  torch_load "checkpoint.pth" (save_state_dict model fs)
  = Return (PickledStateDict (state_dict model))
  ∧ load_state_dict_statement model (state_dict model)
    = (model, Return (mkIncompatibleKeys [] [])).
Proof.
  split; [apply torch_load_save|].
  apply load_state_dict_statement_returns.
  unfold load_state_dict, error_msgs. rewrite load_params_self.
  rewrite (unexpected_keys_same_names model model) by done. done.
Qed.

(** X2.  The bare state dictionary survives the round trip for every
    input size, output size and hidden width sequence, not only 784 and
    10: saved to the file, loaded, and passed to
    [load_state_dict] of a model constructed with the same three
    arguments, it gives a model equal to the saved one, with no missing
    and no unexpected key. *)
Theorem state_dict_round_trip_any_sizes {A} (rng : nat → A)
    (input_size output_size : nat) (hs : list nat) (model : Network A)
    (fs : gmap string (Pickle A)) :
  has_architecture input_size output_size hs model →
  ∃ sd,
    torch_load "checkpoint.pth" (save_state_dict model fs)
    = Return (PickledStateDict sd)
    ∧ load_state_dict_statement
        (fc_model_Network rng input_size output_size hs) sd
      = (model, Return (mkIncompatibleKeys [] [])).
Proof.
  intros Harch. exists (state_dict model). split; [apply torch_load_save|].
  apply load_state_dict_statement_returns.
  apply (load_state_dict_same input_size output_size hs); [done|].
  apply fc_model_Network_architecture.
Qed.

(** The network of sizes 3 and 2 with one hidden layer of width 4. *)
Lemma state_dict_round_trip_any_sizes_witness :
  ∃ sd,
    torch_load "checkpoint.pth" (save_state_dict small_network ∅)
    = Return (PickledStateDict sd)
    ∧ load_state_dict_statement (fc_model_Network (λ _, 7%Z) 3 2 [4]) sd
      = (small_network, Return (mkIncompatibleKeys [] [])).
Proof.
  apply (state_dict_round_trip_any_sizes (λ _, 7%Z) 3 2 [4] small_network ∅).
  vm_compute. repeat split.
Defined.

(** X3.  What [load_state_dict] returns or raises for a state dictionary
    does not depend on what an earlier call, successful or not, has left
    in the model: after [model.load_state_dict(sd1)] the call
    [model.load_state_dict(sd2)] behaves as it would have on the model
    before. *)
Theorem later_load_forgets_earlier {A} (model : Network A)
    (sd1 sd2 : list (string * Tensor A)) :
  load_state_dict (load_state_dict_statement model sd1).1 sd2
  = load_state_dict model sd2.
Proof.
  unfold load_state_dict_statement. cbn [fst].
  apply load_state_dict_congr, load_params_shapes.
Qed.

(** X4.  Whatever the file holds, when [load_checkpoint] returns a model,
    the file held a checkpoint dictionary, the model has exactly the
    architecture that the dictionary declares, every parameter of the
    model is the tensor saved under its name, and the dictionary's state
    dictionary has no other name. *)
Theorem load_checkpoint_sound {A} (rng : nat → A) (filepath : string)
    (fs : gmap string (Pickle A)) (model : Network A) :
  load_checkpoint rng filepath fs = Return model →
  ∃ ck,
    fs !! filepath = Some (PickledCheckpoint ck)
    ∧ has_architecture (ckpt_input_size ck) (ckpt_output_size ck)
        (ckpt_hidden_layers ck) model
    ∧ architecture model
      = (ckpt_input_size ck, ckpt_output_size ck, ckpt_hidden_layers ck)
    ∧ param_shapes (state_dict model)
      = declared_shapes (ckpt_input_size ck) (ckpt_output_size ck)
          (ckpt_hidden_layers ck)
    ∧ (∀ key t, (key, t) ∈ state_dict model →
         dict_get (ckpt_state_dict ck) key = Some t)
    ∧ (∀ key, key ∈ (ckpt_state_dict ck).*1 → key ∈ (state_dict model).*1).
Proof.
  unfold load_checkpoint, torch_load.
  destruct (fs !! filepath) as [[sd|ck]|]; [done| |done].
  intros Hload. exists ck. split; [done|].
  set (fresh := fc_model_Network rng (ckpt_input_size ck) (ckpt_output_size ck)
                  (ckpt_hidden_layers ck)) in *.
  assert (has_architecture (ckpt_input_size ck) (ckpt_output_size ck)
            (ckpt_hidden_layers ck) model) as Harch.
  { destruct (load_state_dict_returns _ _ _ Hload) as [_ ->].
    apply (same_shapes_architecture _ _ _ fresh);
      [apply load_params_shapes|apply fc_model_Network_architecture]. }
  split; [done|]. split; [by apply has_architecture_architecture|].
  split; [by apply has_architecture_shapes|]. split.
  - intros key t.
    by apply (load_state_dict_exact fresh (ckpt_state_dict ck) model).
  - intros key Hkey.
    destruct (load_state_dict_returns _ _ _ Hload) as [Hmsgs ->].
    rewrite error_msgs_unfold in Hmsgs.
    apply app_eq_nil in Hmsgs as [_ [Hun _]%app_eq_nil].
    destruct (decide (unexpected_keys fresh (ckpt_state_dict ck) = []))
      as [Hnil|]; [|done].
    destruct (load_params_spec fresh (ckpt_state_dict ck)) as (_ & _ & _ & Hlen).
    rewrite (state_dict_names (load_params fresh (ckpt_state_dict ck)).1 fresh)
      by done.
    unfold unexpected_keys in Hnil.
    destruct (decide (key ∈ (state_dict fresh).*1)) as [|Hnot]; [done|].
    by destruct (proj1 (filter_nil_iff _ _) Hnil key Hkey).
Qed.

(** A checkpoint written by hand, of sizes 3 and 2. *)
Lemma load_checkpoint_sound_witness :
  ∃ ck,
    ({["checkpoint.pth" :=
         PickledCheckpoint (mkCheckpoint 3 2 [4] (state_dict small_network))]}
       : gmap string (Pickle Z)) !! "checkpoint.pth"
    = Some (PickledCheckpoint ck)
    ∧ has_architecture (ckpt_input_size ck) (ckpt_output_size ck)
        (ckpt_hidden_layers ck) small_network
    ∧ architecture small_network
      = (ckpt_input_size ck, ckpt_output_size ck, ckpt_hidden_layers ck)
    ∧ param_shapes (state_dict small_network)
      = declared_shapes (ckpt_input_size ck) (ckpt_output_size ck)
          (ckpt_hidden_layers ck)
    ∧ (∀ key t, (key, t) ∈ state_dict small_network →
         dict_get (ckpt_state_dict ck) key = Some t)
    ∧ (∀ key, key ∈ (ckpt_state_dict ck).*1 →
         key ∈ (state_dict small_network).*1).
Proof.
  apply (load_checkpoint_sound (λ _, 7%Z) "checkpoint.pth").
  vm_compute. reflexivity.
Defined.

(** X5.  The file of the notebook's first save cannot be loaded with
    [load_checkpoint].  Every name of a state dictionary is the name of a
    layer followed by [weight] or [bias], so that the state dictionary of
    a model, whatever the model, has none of the four keys of a
    checkpoint dictionary, and on the file that
    [torch.save(model.state_dict(), 'checkpoint.pth')] has written the
    first subscript of [load_checkpoint], [checkpoint['input_size']],
    raises KeyError. *)
Theorem load_checkpoint_of_state_dict_raises {A} (rng : nat → A)
    (model : Network A) (fs : gmap string (Pickle A)) :
  Forall (λ key, ∃ prefix, key = prefix +:+ "weight" ∨ key = prefix +:+ "bias")
    (state_dict model).*1
  ∧ Forall (λ key, dict_get (state_dict model) key = None)
      ["input_size"; "output_size"; "hidden_layers"; "state_dict"]
  ∧ torch_load "checkpoint.pth" (save_state_dict model fs)
    = Return (PickledStateDict (state_dict model))
  ∧ load_checkpoint rng "checkpoint.pth" (save_state_dict model fs)
    = Raise (KeyError "input_size").
Proof.
  split; [|split; [|split]].
  - apply Forall_forall. intros key. apply state_dict_key_suffix.
  - apply Forall_forall. intros key Hkey.
    apply suffix_neither_weight_nor_bias. intros prefix.
    by apply checkpoint_key_suffix.
  - unfold save_state_dict. apply torch_load_save.
  - unfold load_checkpoint, save_state_dict. by rewrite torch_load_save.
Qed.

(** X6.  The cell that builds [fc_model.Network(784, 10, [400, 200, 100])]
    and loads the state dictionary of the trained model of widths
    [512, 256, 128] into it raises the RuntimeError with the seven size
    mismatches that the notebook records, whatever the parameter values;
    yet it leaves the variable [model] bound to the new network, whose
    output bias, the one parameter of matching shape, has been
    overwritten by the trained one while every other parameter keeps its
    fresh value.  The checkpoint that the next cells build from [model]
    and write over the file is therefore the checkpoint of this network:
    [load_checkpoint] returns it, with the hidden widths [400, 200, 100]
    that the notebook prints. *)
Theorem failed_load_leaves_other_model {A} (rng rng' : nat → A)
    (trained : Network A) (fs : gmap string (Pickle A)) :
  has_architecture 784 10 [512; 256; 128] trained →
  ∃ model,
    other_model_cell rng (state_dict trained)
    = (model,
       Raise (RuntimeError
         [SizeMismatch "hidden_layers.0.weight" [512; 784] [400; 784];
          SizeMismatch "hidden_layers.0.bias" [512] [400];
          SizeMismatch "hidden_layers.1.weight" [256; 512] [200; 400];
          SizeMismatch "hidden_layers.1.bias" [256] [200];
          SizeMismatch "hidden_layers.2.weight" [128; 256] [100; 200];
          SizeMismatch "hidden_layers.2.bias" [128] [100];
          SizeMismatch "output.weight" [10; 128] [10; 100]]))
    ∧ hidden_layers model
      = hidden_layers (fc_model_Network rng 784 10 [400; 200; 100])
    ∧ weight (output model)
      = weight (output (fc_model_Network rng 784 10 [400; 200; 100]))
    ∧ bias (output model) = bias (output trained)
    ∧ architecture model = (784, 10, [400; 200; 100])
    ∧ load_checkpoint rng' "checkpoint.pth"
        (save_checkpoint model "checkpoint.pth" (save_state_dict trained fs))
      = Return model.
Proof.
  intros Harch. unfold other_model_cell.
  pose proof (fc_model_Network_architecture rng 784 10 [400; 200; 100]) as Hfresh.
  set (fresh := fc_model_Network rng 784 10 [400; 200; 100]) in *.
  clearbody fresh.
  exists (load_state_dict_statement fresh (state_dict trained)).1.
  assert (has_architecture 784 10 [400; 200; 100]
            (load_state_dict_statement fresh (state_dict trained)).1) as Hleft.
  { apply (same_shapes_architecture _ _ _ fresh); [|done].
    apply load_params_shapes. }
  pose proof (has_architecture_architecture _ _ _ _ Hleft) as Harchitecture.
  pose proof (load_checkpoint_save_784_10 rng' _ _ "checkpoint.pth"
                (save_state_dict trained fs) Hleft) as Hcheckpoint.
  revert Harchitecture Hcheckpoint.
  generalize (load_checkpoint rng' "checkpoint.pth").
  intros load Harchitecture Hcheckpoint.
  split; [|split; [|split; [|split; [|by split]]]].
  all: clear Hleft Harchitecture Hcheckpoint load.
  all: destruct trained as [[|t0 [|t1 [|t2 [|? ?]]]] tout];
    destruct Harch as [Hls Hout]; cbn in Hls, Hout; try tauto.
  all: destruct fresh as [[|f0 [|f1 [|f2 [|? ?]]]] fout];
    destruct Hfresh as [Hls' Hout']; cbn in Hls', Hout'; try tauto.
  all: destruct Hls as ((_ & _ & Hw0 & Hb0) & (_ & _ & Hw1 & Hb1)
                        & (_ & _ & Hw2 & Hb2) & _).
  all: destruct Hout as (_ & _ & Hw & Hb).
  all: destruct Hls' as ((_ & _ & Hw0' & Hb0') & (_ & _ & Hw1' & Hb1')
                         & (_ & _ & Hw2' & Hb2') & _).
  all: destruct Hout' as (_ & _ & Hw' & Hb').
  all: destruct t0 as [? ? [? ?] [? ?]], t1 as [? ? [? ?] [? ?]],
    t2 as [? ? [? ?] [? ?]], tout as [? ? [? ?] [? ?]].
  all: destruct f0 as [? ? [? ?] [? ?]], f1 as [? ? [? ?] [? ?]],
    f2 as [? ? [? ?] [? ?]], fout as [? ? [? ?] [? ?]].
  all: cbn [weight bias shape] in *; subst.
  all: vm_compute; reflexivity.
Qed.

(** The model of the notebook, every parameter 1.0. *)
Lemma failed_load_leaves_other_model_witness :
  ∃ model,
    other_model_cell (λ _, Float32.zero) (state_dict notebook_network)
    = (model,
       Raise (RuntimeError
         [SizeMismatch "hidden_layers.0.weight" [512; 784] [400; 784];
          SizeMismatch "hidden_layers.0.bias" [512] [400];
          SizeMismatch "hidden_layers.1.weight" [256; 512] [200; 400];
          SizeMismatch "hidden_layers.1.bias" [256] [200];
          SizeMismatch "hidden_layers.2.weight" [128; 256] [100; 200];
          SizeMismatch "hidden_layers.2.bias" [128] [100];
          SizeMismatch "output.weight" [10; 128] [10; 100]]))
    ∧ hidden_layers model
      = hidden_layers (fc_model_Network (λ _, Float32.zero) 784 10 [400; 200; 100])
    ∧ weight (output model)
      = weight (output (fc_model_Network (λ _, Float32.zero) 784 10 [400; 200; 100]))
    ∧ bias (output model) = bias (output notebook_network)
    ∧ architecture model = (784, 10, [400; 200; 100])
    ∧ load_checkpoint (λ _, Float32.two) "checkpoint.pth"
        (save_checkpoint model "checkpoint.pth"
           (save_state_dict notebook_network ∅))
      = Return model.
Proof.
  apply (failed_load_leaves_other_model (λ _, Float32.zero) (λ _, Float32.two)
           notebook_network ∅).
  exact (fc_model_Network_architecture (λ _, Float32.one) 784 10 [512; 256; 128]).
Defined.

(** X7.  The keys of [model.state_dict()] are pairwise distinct, two for
    each hidden layer and two for the output layer, and subscripting the
    dictionary with a key finds exactly the entries it lists. *)
Theorem state_dict_names_distinct {A} (model : Network A) :
  NoDup (state_dict model).*1
  ∧ length (state_dict model) = 2 * length (hidden_layers model) + 2
  ∧ ∀ key t, dict_get (state_dict model) key = Some t
             ↔ (key, t) ∈ state_dict model.
Proof.
  split; [|split].
  - unfold state_dict. rewrite fmap_app. apply NoDup_app.
    split; [apply NoDup_hidden_entries|]. split.
    + intros key (k & _ & Hkey)%hidden_entries_key_index.
      unfold layer_entries. cbn. rewrite !elem_of_cons, elem_of_nil.
      destruct Hkey as [->| ->]; intros [Heq|[Heq|[]]];
        by apply hidden_ne_output in Heq.
    + unfold layer_entries. cbn. apply NoDup_cons. split; [|apply NoDup_singleton].
      rewrite list_elem_of_singleton. apply weight_ne_bias.
  - unfold state_dict. rewrite length_app, length_hidden_entries. cbn. lia.
  - intros key t. split.
    + apply dict_get_Some_elem_of.
    + apply state_dict_elem_of.
Qed.

(** ** Views, slices and [resize_] *)

Lemma numel_cons d sh : numel (d :: sh) = d * numel sh.
Proof. done. Qed.

Lemma numel_1_28_28 : numel [1; 28; 28] = 784.
Proof. done. Qed.

Lemma numel_1_784 : numel [1; 784] = 784.
Proof. done. Qed.

Lemma tensor_get_2 {A} (t : Tensor A) n m i j :
  shape t = [n; m] → i < n → j < m →
  tensor_get t [i; j] = data t !! (i * m + j).
Proof.
  intros Hsh Hi Hj. unfold tensor_get. rewrite Hsh. cbn [ravel].
  rewrite !decide_True by lia. cbn [mbind option_bind].
  by replace (0 * n + i) with i by lia.
Qed.

Lemma tensor_get_image {A} (t : Tensor A) n i y x :
  shape t = [n; 1; 28; 28] → i < n → y < 28 → x < 28 →
  tensor_get t [i; 0; y; x] = data t !! (i * 784 + (28 * y + x)).
Proof.
  intros Hsh Hi Hy Hx. unfold tensor_get. rewrite Hsh. cbn [ravel].
  rewrite !decide_True by lia. cbn [mbind option_bind]. f_equal. lia.
Qed.

(** X8.  [images.view(images.shape[0], -1)] flattens a batch of images of
    any shape, not only 28 by 28: a batch of [n >= 1] items of a shape
    with [m >= 1] elements becomes a tensor of shape [n, m], row [i]
    holding the elements of item [i] in order.  It raises for an empty
    batch, and for a tensor without dimensions. *)
Theorem flatten_batch_any_item_shape {A} (images : Tensor A) :
  (shape images = [] → flatten_batch images = None)
  ∧ (∀ n rest, shape images = n :: rest → 0 < numel rest →
       (flatten_batch images = None ↔ n = 0)
       ∧ (0 < n →
          ∃ flat, flatten_batch images = Some flat
            ∧ shape flat = [n; numel rest]
            ∧ data flat = data images
            ∧ ∀ i j, i < n → j < numel rest →
                tensor_get flat [i; j] = data images !! (i * numel rest + j))).
Proof.
  split.
  - intros Hsh. unfold flatten_batch. by rewrite Hsh.
  - intros n rest Hsh Hrest. unfold flatten_batch, view_infer.
    rewrite Hsh, numel_cons. split.
    + destruct (decide (n ≠ 0 ∧ (n * numel rest) `mod` n = 0)) as [[Hn _]|Hno].
      * split; [done|]. intros ->. done.
      * split; [|done]. intros _. destruct (decide (n = 0)) as [|Hn]; [done|].
        destruct Hno. split; [done|].
        rewrite Nat.mul_comm. apply Nat.Div0.mod_mul.
    + intros Hn. rewrite decide_True.
      2: { split; [lia|]. rewrite Nat.mul_comm. apply Nat.Div0.mod_mul. }
      rewrite (Nat.mul_comm n), Nat.div_mul by lia.
      eexists. split; [done|]. split; [done|]. split; [done|].
      intros i j Hi Hj. by rewrite (tensor_get_2 _ n (numel rest)).
Qed.

(** A batch of two items of shape [3, 1]. *)
Lemma flatten_batch_any_item_shape_witness :
  (flatten_batch (mkTensor [2; 3; 1] [1; 2; 3; 4; 5; 6]%Z) = None ↔ 2 = 0)
  ∧ (0 < 2 →
     ∃ flat, flatten_batch (mkTensor [2; 3; 1] [1; 2; 3; 4; 5; 6]%Z) = Some flat
       ∧ shape flat = [2; numel [3; 1]]
       ∧ data flat = [1; 2; 3; 4; 5; 6]%Z
       ∧ ∀ i j, i < 2 → j < numel [3; 1] →
           tensor_get flat [i; j]
           = [1; 2; 3; 4; 5; 6]%Z !! (i * numel [3; 1] + j)).
Proof.
  apply (proj2 (flatten_batch_any_item_shape
                  (mkTensor [2; 3; 1] [1; 2; 3; 4; 5; 6]%Z)) 2 [3; 1]).
  - reflexivity.
  - vm_compute. lia.
Defined.

(** X9.  [images.resize_(64, 784)] on a batch of [n] images keeps the
    images that fit where [view] puts them: pixel [(y, x)] of image [i]
    is element [28 * y + x] of row [i] for every [i] below [n] and 64.
    With more than 64 images the result is the first 64 of them and the
    others are gone; with fewer, the rows from [n] on are the
    uninitialised memory behind the batch. *)
Theorem resize_keeps_leading_images {A} (uninit : nat → A)
    (images : Tensor A) (n : nat) :
  shape images = [n; 1; 28; 28] →
  length (data images) = numel (shape images) →
  (∀ i y x, i < n → i < 64 → y < 28 → x < 28 →
     is_Some (tensor_get images [i; 0; y; x])
     ∧ tensor_get (resize_64_784 uninit images) [i; 28 * y + x]
       = tensor_get images [i; 0; y; x])
  ∧ (64 ≤ n →
     data (resize_64_784 uninit images) = take (64 * 784) (data images))
  ∧ (n ≤ 64 →
     data (resize_64_784 uninit images)
     = data images ++ (uninit <$> seq (n * 784) ((64 - n) * 784))).
Proof.
  intros Hsh Hlen. rewrite Hsh, numel_batch in Hlen.
  unfold resize_64_784, resize_. rewrite numel_64_784, Hlen.
  split; [|split].
  - intros i y x Hi Hi' Hy Hx.
    rewrite (tensor_get_image _ n) by done.
    rewrite (tensor_get_2 _ 64 784) by (done || lia). cbn [data].
    split; [apply lookup_lt_is_Some; lia|].
    rewrite lookup_app_l by (rewrite length_take; lia).
    rewrite lookup_take_lt by lia. done.
  - intros Hn. cbn [data].
    replace (64 * 784 - n * 784) with 0 by lia.
    change (uninit <$> seq (n * 784) 0) with (@nil A). by rewrite app_nil_r.
  - intros Hn. cbn [data]. rewrite take_ge by lia. do 3 f_equal. lia.
Qed.

(** A batch of 65 images: the result holds the first 64. *)
Lemma resize_keeps_leading_images_witness :
  data (resize_64_784 (λ _, Float32.one)
          (mkTensor [65; 1; 28; 28] (replicate (65 * 784) Float32.zero)))
  = take (64 * 784) (replicate (65 * 784) Float32.zero).
Proof.
  destruct (resize_keeps_leading_images (λ _, Float32.one)
              (mkTensor [65; 1; 28; 28] (replicate (65 * 784) Float32.zero)) 65)
    as (_ & Hmore & _).
  - reflexivity.
  - cbn [data shape]. rewrite length_replicate, numel_batch. reflexivity.
  - apply Hmore. lia.
Defined.

(** X10.  The prediction cell: [images[0].view(1, 784)] is the first
    image of the batch as one row of 784 elements, pixel [(y, x)] at
    column [28 * y + x], the row that the training loop's flattening puts
    first; [img.view(1, 28, 28)] gives the image [images[0]] back.
    Subscripting an empty batch raises. *)
Theorem first_image_views {A} (images : Tensor A) (n : nat) :
  shape images = [n; 1; 28; 28] →
  length (data images) = numel (shape images) →
  (n = 0 → first_image images = None)
  ∧ (0 < n →
     ∃ img, first_image images = Some img
       ∧ shape img = [1; 784]
       ∧ data img = take 784 (data images)
       ∧ length (data img) = 784
       ∧ (∀ y x, y < 28 → x < 28 →
            tensor_get img [0; 28 * y + x] = tensor_get images [0; 0; y; x])
       ∧ (∀ flat j, flatten_batch images = Some flat → j < 784 →
            tensor_get img [0; j] = tensor_get flat [0; j])
       ∧ view img [1; 28; 28] = tensor_select images 0).
Proof.
  intros Hsh Hlen. rewrite Hsh, numel_batch in Hlen.
  unfold first_image, tensor_select. rewrite Hsh. split.
  - intros ->. done.
  - intros Hn. rewrite decide_True by lia. cbn [mbind option_bind].
    rewrite numel_1_28_28. cbn [Nat.mul]. rewrite drop_0.
    unfold view at 1. cbn [shape]. rewrite numel_1_784, numel_1_28_28.
    rewrite decide_True by done. cbn [data].
    eexists. split; [done|]. split; [done|]. split; [done|].
    split; [cbn [data]; rewrite length_take; lia|]. split; [|split].
    + intros y x Hy Hx. rewrite (tensor_get_image _ n) by done.
      rewrite (tensor_get_2 _ 1 784) by (done || lia). cbn [data].
      rewrite lookup_take_lt by lia. done.
    + intros flat j Hflat Hj. unfold flatten_batch in Hflat.
      rewrite Hsh, view_infer_batch in Hflat by done. injection Hflat as <-.
      rewrite !(tensor_get_2 _ _ 784) by (done || lia). cbn [data].
      rewrite lookup_take_lt by lia. done.
    + unfold view. cbn [shape]. rewrite numel_1_784, numel_1_28_28.
      by rewrite decide_True by done.
Qed.

(** A batch of two images. *)
Lemma first_image_views_witness :
  ∃ img,
    first_image (mkTensor [2; 1; 28; 28]
                   (replicate 784 Float32.one ++ replicate 784 Float32.zero))
    = Some img
    ∧ shape img = [1; 784].
Proof.
  destruct (first_image_views
              (mkTensor [2; 1; 28; 28]
                 (replicate 784 Float32.one ++ replicate 784 Float32.zero)) 2)
    as (_ & Hfirst).
  - reflexivity.
  - cbn [data shape].
    rewrite length_app, !length_replicate, numel_batch. reflexivity.
  - destruct Hfirst as (img & Himg & Hshape & _); [lia|].
    exists img. split; [exact Himg|exact Hshape].
Defined.

(** ** The loop as a whole *)

Section LoopFacts.
Context {A F : Type} `{Scalar A} `{Autograd A} `{PyFloat A F}.
Implicit Types (s : Session A) (batches : list (Tensor A * list nat)).
Implicit Types (ps : list (Param A)).

Lemma epoch_batches_is_Some (lr : A) batches (running_loss : F) s :
  is_Some (epoch_batches lr batches running_loss s)
  ↔ Forall (λ b, is_Some (flatten_batch b.1)) batches.
Proof.
  split.
  - revert running_loss s.
    induction batches as [|[images labels] batches IH]; intros running_loss s;
      [by constructor|].
    cbn [epoch_batches].
    destruct (flatten_batch images) as [flat|] eqn:Hflat;
      [|by intros [? [=]]].
    cbn [mbind option_bind]. destruct (training_pass lr flat labels s) as [loss s1].
    intros Hrest%IH. constructor; [|done]. cbn. by rewrite Hflat.
  - intros Hflat.
    destruct (epoch_batches_spec lr batches running_loss s Hflat) as (s' & -> & _).
    done.
Qed.

Lemma shape_sgd_update (lr : A) (p : Param A) :
  shape (p_data (sgd_update lr p)) = shape (p_data p).
Proof. unfold sgd_update. by destruct (p_grad p). Qed.

Lemma shapes_training_pass (lr : A) ps gs :
  (λ p, shape (p_data p)) <$> (sgd_update lr <$> backward_into (zero_grad <$> ps) gs)
  = (λ p, shape (p_data p)) <$> ps.
Proof.
  rewrite <-list_fmap_compose.
  rewrite (list_fmap_ext _ (shape ∘ p_data) (backward_into (zero_grad <$> ps) gs))
    by (intros ? p _; apply shape_sgd_update).
  rewrite (list_fmap_compose p_data shape), p_data_backward_into, p_data_zero_grad.
  by rewrite <-list_fmap_compose.
Qed.

Lemma epoch_batches_invariants (lr : A) batches (running_loss r : F) s s' :
  epoch_batches lr batches running_loss s = Some (r, s') →
  calls s' = calls s ++ mjoin (replicate (length batches)
               [CallZeroGrad; CallForward; CallCriterion; CallBackward; CallStep])
  ∧ (λ p, shape (p_data p)) <$> model_parameters s'
    = (λ p, shape (p_data p)) <$> model_parameters s.
Proof.
  revert running_loss s.
  induction batches as [|[images labels] batches IH]; intros running_loss s.
  - intros [= <- <-]. cbn. by rewrite app_nil_r.
  - cbn [epoch_batches].
    destruct (flatten_batch images) as [flat|]; [|done].
    cbn [mbind option_bind]. rewrite training_pass_unfold.
    intros (Hcalls & Hshapes)%IH. cbn [calls model_parameters] in *. split.
    + rewrite Hcalls. cbn [length replicate mjoin list_join].
      by rewrite <-!app_assoc.
    + by rewrite Hshapes, shapes_training_pass.
Qed.
End LoopFacts.

(** X11.  When the loop raises.  On an empty loader the epoch raises:
    after a loop without a pass, the division by [len(trainloader)] is a
    division by zero.  An epoch that ends and prints its loss has had at
    least one batch, and [images.view(images.shape[0], -1)] has accepted
    every batch: a loader with a batch that cannot be flattened makes the
    epoch raise.  A run of several epochs that ends has had only such
    epochs. *)
Theorem epoch_ends_only_if {A F} `{Scalar A} `{Autograd A} `{PyFloat A F}
    (lr : A) (s : Session A) :
  epoch (F := F) lr [] s = None
  ∧ (∀ trainloader : list (Tensor A * list nat),
       is_Some (epoch (F := F) lr trainloader s) →
       trainloader ≠ []
       ∧ Forall (λ b, is_Some (flatten_batch b.1)) trainloader)
  ∧ (∀ (before after : list (Tensor A * list nat)) images labels,
       flatten_batch images = None →
       epoch (F := F) lr (before ++ (images, labels) :: after) s = None)
  ∧ (∀ loaders : list (list (Tensor A * list nat)),
       is_Some (train (F := F) lr loaders s) →
       Forall (λ trainloader,
                 trainloader ≠ []
                 ∧ Forall (λ b, is_Some (flatten_batch b.1)) trainloader)
              loaders).
Proof.
  assert (∀ (trainloader : list (Tensor A * list nat)) (s : Session A),
     is_Some (epoch (F := F) lr trainloader s) →
     trainloader ≠ []
     ∧ Forall (λ b, is_Some (flatten_batch b.1)) trainloader) as Hepoch.
  { intros trainloader s0. unfold epoch.
    destruct (epoch_batches lr trainloader (pf_of_nat 0) s0)
      as [[r s']|] eqn:Hrun; [|by intros [? [=]]].
    cbn. destruct (decide (length trainloader = 0)) as [|Hne];
      [by intros [? [=]]|].
    intros _. split; [by intros ->|].
    apply (epoch_batches_is_Some lr trainloader (pf_of_nat 0) s0).
    by rewrite Hrun. }
  split; [done|]. split; [intros trainloader; apply Hepoch|]. split.
  { intros before after images labels Hflat.
    destruct (epoch lr (before ++ (images, labels) :: after) s)
      as [result|] eqn:Hrun; [|done].
    destruct (Hepoch (before ++ (images, labels) :: after) s) as [_ Hall];
      [by rewrite Hrun|].
    apply Forall_app in Hall as [_ Hall].
    apply Forall_cons in Hall as [[flat Hsome] _]. cbn in Hsome. congruence. }
  intros loaders. revert s. induction loaders as [|trainloader loaders IH];
    intros s; cbn [train]; [by constructor|].
  destruct (epoch lr trainloader s) as [[training_loss s1]|] eqn:Hrun;
    [|by intros [? [=]]].
  cbn. destruct (train lr loaders s1) as [[printed s2]|] eqn:Hrest;
    [|by intros [? [=]]].
  intros _. constructor.
  - apply (Hepoch trainloader s). by rewrite Hrun.
  - apply (IH s1). by rewrite Hrest.
Qed.

(** X12.  What training never changes.  Over a run of any number of
    epochs the loop makes the five calls of the training pass once for
    each batch, in the order of the batches, and nothing else; no
    parameter changes its shape, and none is added or dropped. *)
Theorem train_invariants {A F} `{Scalar A} `{Autograd A} `{PyFloat A F}
    (lr : A) (loaders : list (list (Tensor A * list nat))) (s : Session A)
    (printed : list F) (s' : Session A) :
  train lr loaders s = Some (printed, s') →
  calls s'
  = calls s ++ mjoin (replicate (sum_list (length <$> loaders))
      [CallZeroGrad; CallForward; CallCriterion; CallBackward; CallStep])
  ∧ (λ p, shape (p_data p)) <$> model_parameters s'
    = (λ p, shape (p_data p)) <$> model_parameters s
  ∧ length (model_parameters s') = length (model_parameters s).
Proof.
  intros Hrun.
  assert (calls s'
    = calls s ++ mjoin (replicate (sum_list (length <$> loaders))
        [CallZeroGrad; CallForward; CallCriterion; CallBackward; CallStep])
    ∧ (λ p, shape (p_data p)) <$> model_parameters s'
      = (λ p, shape (p_data p)) <$> model_parameters s) as (Hcalls & Hshapes).
  { revert s printed Hrun.
    induction loaders as [|trainloader loaders IH]; intros s printed; cbn [train].
    - intros [= <- <-]. cbn. by rewrite app_nil_r.
    - unfold epoch.
      destruct (epoch_batches lr trainloader (pf_of_nat 0) s)
        as [[r s1]|] eqn:Hepoch; [|done].
      cbn. destruct (decide (length trainloader = 0)); [done|]. cbn.
      destruct (train lr loaders s1) as [[printed' s2]|] eqn:Hrest; [|done].
      cbn. intros [= <- <-].
      apply epoch_batches_invariants in Hepoch as (Hc1 & Hs1).
      apply IH in Hrest as (Hc2 & Hs2). split.
      + rewrite Hc2, Hc1, <-app_assoc. f_equal.
        cbn [fmap list_fmap sum_list sum_list_with].
        by rewrite replicate_add, join_app.
      + by rewrite Hs2, Hs1. }
  split; [done|]. split; [done|].
  apply (f_equal length) in Hshapes. by rewrite !length_fmap in Hshapes.
Qed.

Section LinearScorerLoop.
#[local] Existing Instance linear_scorer.

(** Two epochs, of two batches and of one: fifteen calls. *)
Lemma train_invariants_witness :
  ∃ printed s',
    train (F := Float64.float64) Float32.lr_0_003
      [[(mkTensor [1; 1; 1; 1] [Float32.one], [3]);
        (mkTensor [1; 1; 1; 1] [Float32.two], [7])];
       [(mkTensor [1; 1; 1; 1] [Float32.one], [3])]] float32_session
    = Some (printed, s')
    ∧ calls s'
      = [CallZeroGrad; CallForward; CallCriterion; CallBackward; CallStep;
         CallZeroGrad; CallForward; CallCriterion; CallBackward; CallStep;
         CallZeroGrad; CallForward; CallCriterion; CallBackward; CallStep]
    ∧ (λ p, shape (p_data p)) <$> model_parameters s' = [[1]].
Proof.
  exists [SpecFloat.S754_finite false 6741888547684352 (-52);
          SpecFloat.S754_finite false 8926134431383552 (-53)],
         (mkSession
            [mkParam (mkTensor [1] [SpecFloat.S754_finite false 16575889 (-24)])
                     (Some (mkTensor [1] [Float32.one]))]
            [CallZeroGrad; CallForward; CallCriterion; CallBackward; CallStep;
             CallZeroGrad; CallForward; CallCriterion; CallBackward; CallStep;
             CallZeroGrad; CallForward; CallCriterion; CallBackward; CallStep]).
  assert (train (F := Float64.float64) Float32.lr_0_003
      [[(mkTensor [1; 1; 1; 1] [Float32.one], [3]);
        (mkTensor [1; 1; 1; 1] [Float32.two], [7])];
       [(mkTensor [1; 1; 1; 1] [Float32.one], [3])]] float32_session
    = Some ([SpecFloat.S754_finite false 6741888547684352 (-52);
             SpecFloat.S754_finite false 8926134431383552 (-53)],
         (mkSession
            [mkParam (mkTensor [1] [SpecFloat.S754_finite false 16575889 (-24)])
                     (Some (mkTensor [1] [Float32.one]))]
            [CallZeroGrad; CallForward; CallCriterion; CallBackward; CallStep;
             CallZeroGrad; CallForward; CallCriterion; CallBackward; CallStep;
             CallZeroGrad; CallForward; CallCriterion; CallBackward; CallStep])))
    as Hrun by (vm_compute; reflexivity).
  split; [exact Hrun|].
  destruct (train_invariants _ _ _ _ _ Hrun) as (Hcalls & Hshapes & _).
  split; [exact Hcalls|exact Hshapes].
Defined.
End LinearScorerLoop.

(** ** The data loader *)

Section BatchFacts.
Implicit Types (l cur acc : list nat).

Lemma batch_sampler_prefix bs cur acc l :
  length acc + length cur < bs →
  batch_sampler bs (cur ++ l) acc = batch_sampler bs l (acc ++ cur).
Proof.
  revert acc. induction cur as [|x cur IH]; intros acc Hlt.
  - cbn. by rewrite app_nil_r.
  - cbn [app batch_sampler]. cbn zeta.
    rewrite decide_False by (rewrite length_app; cbn in *; lia).
    rewrite IH by (rewrite length_app; cbn in *; lia).
    by rewrite <-app_assoc.
Qed.

Lemma batch_sampler_full bs cur l :
  0 < bs → length cur = bs →
  batch_sampler bs (cur ++ l) [] = cur :: batch_sampler bs l [].
Proof.
  intros Hbs Hlen. destruct cur as [|x cur _] using rev_ind; [cbn in Hlen; lia|].
  rewrite length_app in Hlen. cbn in Hlen.
  rewrite <-app_assoc, batch_sampler_prefix by (cbn; lia).
  cbn [app batch_sampler]. cbn zeta.
  by rewrite decide_True by (rewrite length_app; cbn; lia).
Qed.

Lemma batch_sampler_short bs l :
  0 < length l → length l < bs → batch_sampler bs l [] = [l].
Proof.
  intros Hpos Hlt. rewrite <-(app_nil_r l) at 1.
  rewrite batch_sampler_prefix by (cbn; lia). cbn [app batch_sampler].
  by rewrite decide_True.
Qed.

Lemma batch_sampler_step bs l :
  0 < bs → bs ≤ length l →
  batch_sampler bs l [] = take bs l :: batch_sampler bs (drop bs l) [].
Proof.
  intros Hbs Hlen. rewrite <-(take_drop bs l) at 1.
  apply batch_sampler_full; [done|]. rewrite length_take. lia.
Qed.

Lemma batch_sampler_lookup bs l k :
  0 < bs →
  batch_sampler bs l [] !! k
  = if decide (k * bs < length l) then Some (take bs (drop (k * bs) l))
    else None.
Proof.
  intros Hbs. remember (length l) as n eqn:Hn. revert l k Hn.
  induction (lt_wf n) as [n _ IH]. intros l k ->.
  destruct (decide (length l = 0)) as [Hnil|Hpos].
  - apply nil_length_inv in Hnil as ->. cbn.
    rewrite decide_False by lia. done.
  - destruct (decide (length l < bs)) as [Hshort|Hlong].
    + rewrite batch_sampler_short by lia. destruct k as [|k]; cbn [lookup].
      * rewrite decide_True by lia. cbn. by rewrite drop_0, take_ge by lia.
      * rewrite decide_False by nia. done.
    + rewrite batch_sampler_step by lia. destruct k as [|k].
      * rewrite decide_True by lia. cbn. by rewrite drop_0.
      * change ((take bs l :: batch_sampler bs (drop bs l) []) !! S k)
          with (batch_sampler bs (drop bs l) [] !! k).
        rewrite (IH (length (drop bs l))); [| rewrite length_drop; lia | done].
        rewrite length_drop, drop_drop.
        replace (bs + k * bs) with (S k * bs) by lia.
        destruct (decide (k * bs < length l - bs)),
          (decide (S k * bs < length l)); (done || lia).
Qed.

Lemma batch_sampler_length bs l :
  0 < bs → length (batch_sampler bs l []) = (length l + bs - 1) `div` bs.
Proof.
  intros Hbs. remember (length l) as n eqn:Hn. revert l Hn.
  induction (lt_wf n) as [n _ IH]. intros l ->.
  destruct (decide (length l = 0)) as [Hnil|Hpos].
  - rewrite Hnil. apply nil_length_inv in Hnil as ->. cbn.
    symmetry. apply Nat.div_small. lia.
  - destruct (decide (length l < bs)) as [Hshort|Hlong].
    + rewrite batch_sampler_short by lia. cbn.
      apply (Nat.div_unique _ _ _ (length l - 1)); lia.
    + rewrite batch_sampler_step by lia. cbn [length].
      rewrite (IH (length (drop bs l))); [| rewrite length_drop; lia | done].
      rewrite length_drop.
      replace (length l + bs - 1) with ((length l - bs + bs - 1) + 1 * bs) by lia.
      rewrite Nat.div_add by lia. lia.
Qed.

Lemma batch_sampler_join bs l : 0 < bs → mjoin (batch_sampler bs l []) = l.
Proof.
  intros Hbs. remember (length l) as n eqn:Hn. revert l Hn.
  induction (lt_wf n) as [n _ IH]. intros l ->.
  destruct (decide (length l = 0)) as [Hnil|Hpos].
  - by apply nil_length_inv in Hnil as ->.
  - destruct (decide (length l < bs)) as [Hshort|Hlong].
    + rewrite batch_sampler_short by lia. cbn. by rewrite app_nil_r.
    + rewrite batch_sampler_step by lia. cbn [mjoin list_join].
      rewrite (IH (length (drop bs l))); [| rewrite length_drop; lia | done].
      apply take_drop.
Qed.
End BatchFacts.

Lemma length_join_same {X} n (ls : list (list X)) :
  Forall (λ l, length l = n) ls → length (mjoin ls) = length ls * n.
Proof.
  induction 1 as [|l ls Hl _ IH]; [done|].
  change (mjoin (l :: ls)) with (l ++ mjoin ls).
  rewrite length_app, IH, Hl. cbn [length]. lia.
Qed.

Lemma take_drop_join {X} n (ls : list (list X)) j l :
  Forall (λ l, length l = n) ls → ls !! j = Some l →
  take n (drop (j * n) (mjoin ls)) = l.
Proof.
  intros Hall. revert j. induction Hall as [|l' ls Hl _ IH]; intros j; [done|].
  change (mjoin (l' :: ls)) with (l' ++ mjoin ls).
  destruct j as [|j]; cbn [lookup list_lookup].
  - intros [= ->]. cbn [Nat.mul]. rewrite drop_0, <-Hl. apply take_app_length.
  - intros Hj. rewrite drop_app_ge by lia.
    replace (S j * n - length l') with (j * n) by lia. by apply IH.
Qed.

Section LoaderFacts.
Context {A : Type}.
Implicit Types (trainset : list (Tensor A * nat)) (batch perm : list nat).

Lemma fetch_spec trainset sh batch :
  Forall (λ sample, shape sample.1 = sh ∧ length (data sample.1) = numel sh)
    trainset →
  0 < length batch →
  Forall (λ idx, idx < length trainset) batch →
  ∃ samples,
    Forall2 (λ idx sample, trainset !! idx = Some sample) batch samples
    ∧ fetch trainset batch
      = Some (mkTensor (length batch :: sh) (mjoin (data <$> samples.*1)),
              samples.*2).
Proof.
  intros Hall Hpos Hidx. unfold fetch.
  destruct (mapM (λ idx, trainset !! idx) batch) as [samples|] eqn:Hm.
  2: { apply mapM_None_1, Exists_exists in Hm as (idx & Hin & Hnone).
       rewrite Forall_forall in Hidx. apply Hidx in Hin.
       apply lookup_ge_None in Hnone. lia. }
  apply mapM_Some_1 in Hm. exists samples. split; [done|].
  cbn [mbind option_bind]. unfold default_collate, stack.
  pose proof (Forall2_length _ _ _ Hm) as Hlen.
  assert (Forall (λ sample, shape sample.1 = sh) samples) as Hshapes.
  { apply Forall_forall. intros sample Hin.
    apply list_elem_of_lookup in Hin as [j Hj].
    destruct (Forall2_lookup_r _ _ _ _ _ Hm Hj) as (idx & _ & Hsample).
    apply list_elem_of_lookup_2 in Hsample.
    rewrite Forall_forall in Hall. by apply Hall. }
  destruct samples as [|[t label] samples]; [cbn in Hlen; lia|].
  cbn [fmap list_fmap fst].
  apply Forall_cons in Hshapes as [Ht Hshapes]. cbn in Ht.
  rewrite decide_True.
  - cbn [mbind option_bind]. rewrite Ht, Hlen. cbn [length].
    by rewrite length_fmap.
  - constructor; [done|]. apply Forall_fmap. apply (Forall_impl _ _ _ Hshapes).
    intros sample Hs. cbn. congruence.
Qed.

Lemma DataLoader_iter_nonempty batch_size perm trainset :
  trainset ≠ [] →
  DataLoader_iter batch_size perm trainset
  = mapM (fetch trainset) (batch_sampler batch_size perm []).
Proof. by destruct trainset. Qed.

Lemma trainloader_iter_spec perm trainset sh :
  trainset ≠ [] →
  perm ≡ₚ seq 0 (length trainset) →
  Forall (λ sample, shape sample.1 = sh ∧ length (data sample.1) = numel sh)
    trainset →
  ∃ batches,
    trainloader_iter perm trainset = Some batches
    ∧ length batches = trainloader_len trainset
    ∧ (∀ k images labels, batches !! k = Some (images, labels) →
         0 < length labels ≤ 64
         ∧ length labels = 64 `min` (length trainset - k * 64)
         ∧ shape images = length labels :: sh
         ∧ length (data images) = numel (shape images)
         ∧ ∀ j, j < length labels →
             ∃ idx image label,
               perm !! (k * 64 + j) = Some idx
               ∧ trainset !! idx = Some (image, label)
               ∧ tensor_select images j = Some image
               ∧ labels !! j = Some label).
Proof.
  intros Hne Hperm Hall.
  assert (length perm = length trainset) as Hlen.
  { by rewrite Hperm, length_seq. }
  assert (Forall (λ idx, idx < length trainset) perm) as Hidx.
  { apply Forall_forall. intros idx Hin. rewrite Hperm in Hin.
    apply elem_of_seq in Hin. lia. }
  unfold trainloader_iter, trainloader_len, DataLoader_len.
  rewrite DataLoader_iter_nonempty by done.
  set (bl := batch_sampler 64 perm []).
  assert (∀ k batch, bl !! k = Some batch →
            0 < length batch
            ∧ length batch = 64 `min` (length trainset - k * 64)
            ∧ batch = take 64 (drop (k * 64) perm)
            ∧ Forall (λ idx, idx < length trainset) batch) as Hbl.
  { intros k batch. unfold bl. rewrite batch_sampler_lookup by lia.
    destruct (decide (k * 64 < length perm)); [|done]. intros [= <-].
    rewrite length_take, length_drop, Hlen. split; [lia|]. split; [done|].
    split; [done|]. apply Forall_forall. intros idx Hin.
    rewrite Forall_forall in Hidx. apply Hidx.
    apply elem_of_take in Hin as (i & Hi & _). rewrite lookup_drop in Hi.
    by apply list_elem_of_lookup_2 in Hi. }
  destruct (mapM (fetch trainset) bl) as [batches|] eqn:Hm.
  2: { apply mapM_None_1, Exists_exists in Hm as (batch & Hin & Hnone).
       apply list_elem_of_lookup in Hin as [k Hk].
       destruct (Hbl k batch Hk) as (Hpos & _ & _ & Hlt).
       destruct (fetch_spec trainset sh batch Hall Hpos Hlt) as (? & _ & Hsome).
       congruence. }
  apply mapM_Some_1 in Hm. exists batches. split; [done|]. split.
  { rewrite <-(Forall2_length _ _ _ Hm). unfold bl.
    rewrite batch_sampler_length by lia. by rewrite Hlen. }
  intros k images labels Hk.
  destruct (Forall2_lookup_r _ _ _ _ _ Hm Hk) as (batch & Hbatch & Hfetch).
  destruct (Hbl k batch Hbatch) as (Hpos & Hmin & Htake & Hlt).
  destruct (fetch_spec trainset sh batch Hall Hpos Hlt)
    as (samples & Hsamples & Hsome).
  rewrite Hsome in Hfetch. injection Hfetch as <- <-.
  pose proof (Forall2_length _ _ _ Hsamples) as Hslen.
  assert (Forall (λ l, length l = numel sh) (data <$> samples.*1)) as Hdata.
  { apply Forall_fmap, Forall_fmap, Forall_forall. intros sample Hin.
    apply list_elem_of_lookup in Hin as [j Hj].
    destruct (Forall2_lookup_r _ _ _ _ _ Hsamples Hj) as (idx & _ & Hsample).
    apply list_elem_of_lookup_2 in Hsample.
    rewrite Forall_forall in Hall. by apply Hall. }
  rewrite length_fmap, <-Hslen. cbn [shape data].
  split; [lia|]. split; [done|]. split; [done|]. split.
  { rewrite (length_join_same _ _ Hdata), !length_fmap, numel_cons. lia. }
  intros j Hj.
  destruct (lookup_lt_is_Some_2 batch j Hj) as [idx Hidxj].
  destruct (Forall2_lookup_l _ _ _ _ _ Hsamples Hidxj)
    as ([image label] & Hsample & Htrain).
  exists idx, image, label. split; [|split; [done|split]].
  - rewrite Htake in Hidxj. rewrite lookup_take_lt in Hidxj by lia.
    by rewrite lookup_drop in Hidxj.
  - unfold tensor_select. cbn [shape data]. rewrite decide_True by done.
    rewrite (take_drop_join _ _ j (data image) Hdata).
    + f_equal. apply list_elem_of_lookup_2 in Htrain.
      rewrite Forall_forall in Hall. destruct (Hall _ Htrain) as [<- _].
      by destruct image.
    + by rewrite !list_lookup_fmap, Hsample.
  - by rewrite list_lookup_fmap, Hsample.
Qed.
End LoaderFacts.

(** X13.  [DataLoader(trainset, batch_size=64, shuffle=True)] on an
    empty dataset raises.  On a dataset that is not empty, of images of
    one shape, one pass over it never raises and yields
    [len(trainloader)] batches, that is the size of the dataset divided
    by 64 and rounded up.  Batch [k] holds the samples that the shuffle
    has put at the positions [64 k, 64 k + 1, ...], 64 of them or what is
    left at the end, never none: its images stacked along a new first
    dimension, image [j] of the batch beside label [j]. *)
Theorem trainloader_batches {A} (perm : list nat)
    (trainset : list (Tensor A * nat)) (sh : list nat) :
  trainloader_iter perm (@nil (Tensor A * nat)) = None
  ∧ (trainset ≠ [] →
     perm ≡ₚ seq 0 (length trainset) →
     Forall (λ sample, shape sample.1 = sh ∧ length (data sample.1) = numel sh)
       trainset →
     ∃ batches,
       trainloader_iter perm trainset = Some batches
       ∧ length batches = trainloader_len trainset
       ∧ ∀ k images labels, batches !! k = Some (images, labels) →
           0 < length labels ≤ 64
           ∧ length labels = 64 `min` (length trainset - k * 64)
           ∧ (S k < length batches → length labels = 64)
           ∧ shape images = length labels :: sh
           ∧ length (data images) = numel (shape images)
           ∧ ∀ j, j < length labels →
               ∃ idx image label,
                 perm !! (k * 64 + j) = Some idx
                 ∧ trainset !! idx = Some (image, label)
                 ∧ tensor_select images j = Some image
                 ∧ labels !! j = Some label).
Proof.
  split; [done|]. intros Hne Hperm Hall.
  destruct (trainloader_iter_spec perm trainset sh Hne Hperm Hall)
    as (batches & Hiter & Hlen & Hbatches).
  exists batches. split; [done|]. split; [done|].
  intros k images labels Hk.
  destruct (Hbatches k images labels Hk) as (Hn & Hmin & Hsh & Hdata & Hsamples).
  split; [done|]. split; [done|]. split; [|done].
  rewrite Hlen. unfold trainloader_len, DataLoader_len. intros Hlast.
  pose proof (Nat.Div0.mul_div_le (length trainset + 64 - 1) 64) as Hdiv.
  lia.
Qed.

(** Three samples of one element, the first two swapped by the shuffle:
    one batch. *)
Lemma trainloader_batches_witness :
  ∃ batches,
    trainloader_iter [1; 0; 2]
      [(mkTensor [1] [10%Z], 5); (mkTensor [1] [20%Z], 6);
       (mkTensor [1] [30%Z], 7)]
    = Some batches
    ∧ length batches = 1.
Proof.
  destruct (trainloader_batches [1; 0; 2]
              [(mkTensor [1] [10%Z], 5); (mkTensor [1] [20%Z], 6);
               (mkTensor [1] [30%Z], 7)] [1])
    as [_ Hbatches].
  destruct Hbatches as (batches & Hiter & Hlen & _).
  - discriminate.
  - apply perm_swap.
  - repeat constructor.
  - exists batches. split; [exact Hiter|]. rewrite Hlen. reflexivity.
Defined.

(** X14.  The training loop on the loader.  For a dataset that is not
    empty, of images of shape [1, 28, 28], an epoch over the batches of
    the loader never raises: every batch can be flattened, the loop makes
    one pass for each of the [len(trainloader)] batches, and the divisor
    of the printed loss is that number.  The batch that
    [next(iter(trainloader))] gives to the demonstration step has 64
    images, so that its [resize_(64, 784)] keeps the elements, exactly
    when the dataset has at least 64 samples. *)
Theorem epoch_over_trainloader {A F} `{Scalar A} `{Autograd A} `{PyFloat A F}
    (uninit : nat → A) (lr : A) (perm : list nat)
    (trainset : list (Tensor A * nat)) (s : Session A) :
  trainset ≠ [] →
  perm ≡ₚ seq 0 (length trainset) →
  Forall (λ sample, shape sample.1 = [1; 28; 28]
                    ∧ length (data sample.1) = 784) trainset →
  ∃ batches,
    trainloader_iter perm trainset = Some batches
    ∧ (∃ s', epoch lr batches s
             = Some (pf_div
                       (foldl pf_add (pf_of_nat 0)
                          (item <$> batch_losses lr batches (model_parameters s)))
                       (pf_of_nat (trainloader_len trainset)), s')
         ∧ length (batch_losses lr batches (model_parameters s))
           = trainloader_len trainset)
    ∧ ∃ images labels,
        trainloader_next perm trainset = Some (images, labels)
        ∧ length labels = 64 `min` length trainset
        ∧ (data (resize_64_784 uninit images) = data images
           ↔ 64 ≤ length trainset).
Proof.
  intros Hne Hperm Hall.
  destruct (trainloader_iter_spec perm trainset [1; 28; 28] Hne Hperm Hall)
    as (batches & Hiter & Hlen & Hbatches).
  assert (0 < length trainset) as Hpos by (destruct trainset; [done|cbn; lia]).
  assert (0 < trainloader_len trainset) as Hlenpos.
  { unfold trainloader_len, DataLoader_len.
    apply Nat.div_str_pos. lia. }
  exists batches. split; [done|]. split.
  - assert (Forall (λ b, is_Some (flatten_batch b.1)) batches) as Hflat.
    { apply Forall_forall. intros [images labels] Hin.
      apply list_elem_of_lookup in Hin as [k Hk].
      destruct (Hbatches k images labels Hk) as (Hn & _ & Hsh & _).
      cbn [fst]. unfold flatten_batch. rewrite Hsh.
      rewrite (view_infer_batch images (length labels)); [done|lia|done]. }
    destruct (epoch_batches_spec lr batches (pf_of_nat 0) s Hflat)
      as (s' & Hs' & Hlosses).
    exists s'. unfold epoch. rewrite Hs'. cbn [mbind option_bind].
    rewrite decide_False by lia. rewrite Hlen. split; [done|]. congruence.
  - destruct (lookup_lt_is_Some_2 batches 0) as [[images labels] Hfirst]; [lia|].
    exists images, labels. split.
    { unfold trainloader_next. rewrite Hiter. cbn [mbind option_bind].
      by rewrite head_lookup. }
    destruct (Hbatches 0 images labels Hfirst) as (_ & Hmin & Hsh & Hdata & _).
    cbn [Nat.mul] in Hmin. rewrite Nat.sub_0_r in Hmin. split; [done|].
    rewrite Hsh, numel_batch in Hdata. unfold resize_64_784. split.
    + intros Heq. apply (f_equal length) in Heq.
      rewrite resize_length, numel_64_784, Hdata in Heq. lia.
    + intros Hge. apply resize_same_numel. rewrite numel_64_784, Hdata. lia.
Qed.

Section LinearScorerLoader.
#[local] Existing Instance linear_scorer.

(** A dataset of 65 images: the first batch has 64 of them. *)
Lemma epoch_over_trainloader_witness :
  ∃ images labels,
    trainloader_next (seq 0 65)
      (replicate 65 (mkTensor [1; 28; 28] (replicate 784 Float32.zero), 3))
    = Some (images, labels)
    ∧ length labels = 64.
Proof.
  destruct (epoch_over_trainloader (F := Float64.float64) (λ _, Float32.one)
              Float32.lr_0_003 (seq 0 65)
              (replicate 65 (mkTensor [1; 28; 28] (replicate 784 Float32.zero), 3))
              float32_session)
    as (batches & _ & _ & images & labels & Hnext & Hlen & _).
  - discriminate.
  - reflexivity.
  - apply Forall_replicate. split; reflexivity.
  - exists images, labels. split; [exact Hnext|]. rewrite Hlen. reflexivity.
Defined.
End LinearScorerLoader.

(** ** The transform of the images *)

Section TransformFacts.
Import SpecFloat.

Lemma transform_lookup h w pixels j :
  data (Transform.transform h w pixels) !! j
  = (λ p, Transform.div
            (Float32.sub
               (Transform.div (Transform.of_Z (Z.of_N (Byte.to_N p)))
                              (Transform.of_Z 255))
               Transform.half)
            Transform.half) <$> pixels !! j.
Proof.
  unfold Transform.transform, Transform.Normalize, Transform.ToTensor.
  cbn [data]. rewrite !list_lookup_fmap. by destruct (pixels !! j).
Qed.

Lemma transform_pixel_range (p : Byte.byte) :
  let v := Transform.div
             (Float32.sub
                (Transform.div (Transform.of_Z (Z.of_N (Byte.to_N p)))
                               (Transform.of_Z 255))
                Transform.half)
             Transform.half in
  valid_binary Float32.prec Float32.emax v = true
  ∧ SFleb Transform.minus_one v = true
  ∧ SFleb v Float32.one = true
  ∧ (p = Byte.x00 → v = Transform.minus_one)
  ∧ (p = Byte.xff → v = Float32.one).
Proof.
  destruct p; vm_compute; (repeat split; try reflexivity; discriminate).
Qed.

Lemma strictly_increasing_lookup l i j v v' :
  strictly_increasing l = true → i < j →
  l !! i = Some v → l !! j = Some v' → SFltb v v' = true.
Proof.
  revert i j. induction l as [|x l IH]; intros i j; [done|].
  cbn [strictly_increasing]. intros [Hx Hl]%andb_true_iff Hij.
  destruct j as [|j]; [lia|]. destruct i as [|i]; cbn [lookup list_lookup].
  - intros [= <-] Hj. rewrite forallb_forall in Hx. apply Hx.
    apply list_elem_of_In. by apply list_elem_of_lookup_2 in Hj.
  - apply IH; [done|lia].
Qed.

Lemma transform_pixel_table :
  strictly_increasing
    ((λ n, Transform.div
             (Float32.sub
                (Transform.div (Transform.of_Z (Z.of_nat n)) (Transform.of_Z 255))
                Transform.half)
             Transform.half) <$> seq 0 256) = true.
Proof. vm_compute. reflexivity. Qed.

Lemma transform_pixel_monotone (p q : Byte.byte) :
  (Byte.to_N p < Byte.to_N q)%N →
  SFltb
    (Transform.div
       (Float32.sub
          (Transform.div (Transform.of_Z (Z.of_N (Byte.to_N p)))
                         (Transform.of_Z 255))
          Transform.half)
       Transform.half)
    (Transform.div
       (Float32.sub
          (Transform.div (Transform.of_Z (Z.of_N (Byte.to_N q)))
                         (Transform.of_Z 255))
          Transform.half)
       Transform.half) = true.
Proof.
  intros Hlt. pose proof (Byte.to_N_bounded p) as Hp.
  pose proof (Byte.to_N_bounded q) as Hq.
  rewrite <-(N_nat_Z (Byte.to_N p)), <-(N_nat_Z (Byte.to_N q)).
  apply (strictly_increasing_lookup _ (N.to_nat (Byte.to_N p))
           (N.to_nat (Byte.to_N q)) _ _ transform_pixel_table); [lia| |].
  - rewrite list_lookup_fmap, lookup_seq_lt by lia. done.
  - rewrite list_lookup_fmap, lookup_seq_lt by lia. done.
Qed.
End TransformFacts.

(** X15.  [transform] turns an 8-bit image of [h] rows and [w] columns
    into a float tensor of shape [1, h, w] whose elements all lie between
    -1.0 and 1.0: black (0) becomes -1.0 exactly, white (255) becomes 1.0
    exactly, and a brighter pixel always becomes a strictly greater
    float, so that no two grey levels are merged by the rounding. *)
Theorem transform_range (h w : nat) (pixels : list Byte.byte) :
  shape (Transform.transform h w pixels) = [1; h; w]
  ∧ length (data (Transform.transform h w pixels)) = length pixels
  ∧ (∀ j p, pixels !! j = Some p →
       ∃ v, data (Transform.transform h w pixels) !! j = Some v
         ∧ SpecFloat.valid_binary Float32.prec Float32.emax v = true
         ∧ SpecFloat.SFleb Transform.minus_one v = true
         ∧ SpecFloat.SFleb v Float32.one = true
         ∧ (p = Byte.x00 → v = Transform.minus_one)
         ∧ (p = Byte.xff → v = Float32.one))
  ∧ (∀ j k p q v v',
       pixels !! j = Some p → pixels !! k = Some q →
       data (Transform.transform h w pixels) !! j = Some v →
       data (Transform.transform h w pixels) !! k = Some v' →
       (Byte.to_N p < Byte.to_N q)%N →
       SpecFloat.SFltb v v' = true).
Proof.
  split; [done|]. split; [|split].
  - unfold Transform.transform, Transform.Normalize, Transform.ToTensor.
    cbn [data]. by rewrite !length_fmap.
  - intros j p Hp. eexists. split.
    + rewrite transform_lookup, Hp. reflexivity.
    + apply transform_pixel_range.
  - intros j k p q v v' Hp Hq. rewrite !transform_lookup, Hp, Hq.
    intros [= <-] [= <-]. apply transform_pixel_monotone.
Qed.

(** ** When strict loading accepts *)

Section Acceptance.
Context {A : Type}.
Implicit Types (model : Network A) (sd : list (string * Tensor A)).

Lemma entry_mismatches_inv sd (entries : list (string * Tensor A)) e :
  e ∈ entry_mismatches sd entries →
  ∃ key param input_param,
    (key, param) ∈ entries ∧ dict_get sd key = Some input_param
    ∧ shape input_param ≠ shape param.
Proof.
  unfold entry_mismatches. rewrite list_elem_of_join.
  intros (es & He & Hes). apply list_elem_of_fmap in Hes as ([k p] & -> & Hin).
  cbn in He. unfold load_tensor in He.
  destruct (dict_get sd k) as [t|] eqn:Hget; [|by apply elem_of_nil in He].
  destruct (decide (shape t = shape p)); [by apply elem_of_nil in He|].
  by exists k, p, t.
Qed.

Lemma error_msgs_affected model sd e :
  e ∈ error_msgs model sd → ∃ key, affected model sd key.
Proof.
  rewrite error_msgs_unfold, !elem_of_app. intros [He|[He|He]].
  - destruct (decide (entry_missing sd (state_dict model) = [])) as [|Hne];
      [by apply elem_of_nil in He|].
    destruct (entry_missing sd (state_dict model)) as [|key keys] eqn:Hmiss;
      [done|].
    assert (key ∈ entry_missing sd (state_dict model)) as Hkey
      by (rewrite Hmiss; apply elem_of_cons; by left).
    apply entry_missing_elem_of in Hkey as (param & Hin & Hget).
    exists key. left. exists param. by rewrite Hget.
  - destruct (decide (unexpected_keys model sd = [])) as [|Hne];
      [by apply elem_of_nil in He|].
    destruct (unexpected_keys model sd) as [|key keys] eqn:Hun; [done|].
    assert (key ∈ unexpected_keys model sd) as Hkey
      by (rewrite Hun; apply elem_of_cons; by left).
    unfold unexpected_keys in Hkey. apply list_elem_of_filter in Hkey as [? ?].
    exists key. by right.
  - apply entry_mismatches_inv in He as (key & param & input_param & ? & Hget & ?).
    exists key. left. exists param. by rewrite Hget.
Qed.
End Acceptance.

(** X16.  Strict loading accepts exactly the dictionaries that agree
    with the model: [load_state_dict] returns if and only if every
    parameter of the model has a saved tensor of its own shape under its
    name and the dictionary has no other name, whatever the order of its
    entries and the values of the tensors; it raises its RuntimeError if
    and only if model and dictionary disagree on some name, and it raises
    nothing else. *)
Theorem load_state_dict_accepts_iff {A} (model : Network A)
    (sd : list (string * Tensor A)) :
  ((∃ loaded, load_state_dict model sd = Return loaded)
   ↔ (∀ key param, (key, param) ∈ state_dict model →
        ∃ input_param, dict_get sd key = Some input_param
          ∧ shape input_param = shape param)
     ∧ (∀ key, key ∈ sd.*1 → key ∈ (state_dict model).*1))
  ∧ ((∃ msgs, load_state_dict model sd = Raise (RuntimeError msgs))
     ↔ ∃ key, affected model sd key)
  ∧ (∀ e, load_state_dict model sd = Raise e →
          ∃ msgs, e = RuntimeError msgs ∧ msgs ≠ []).
Proof.
  assert ((∃ msgs, load_state_dict model sd = Raise (RuntimeError msgs))
          ↔ ∃ key, affected model sd key) as Hraise.
  { split.
    - intros [msgs Hload]. unfold load_state_dict in Hload.
      destruct (error_msgs model sd) as [|e es] eqn:Hmsgs; [done|].
      apply (error_msgs_affected model sd e). rewrite Hmsgs.
      apply elem_of_cons. by left.
    - intros [key (e & He & _)%affected_named].
      exists (error_msgs model sd). by apply (load_state_dict_raises _ _ e). }
  split; [|split; [exact Hraise|]].
  - split.
    + intros [loaded Hload]. split.
      * intros key param Hin.
        destruct (dict_get sd key) as [input_param|] eqn:Hget.
        -- exists input_param. split; [done|].
           destruct (decide (shape input_param = shape param)) as [|Hne]; [done|].
           assert (∃ msgs, load_state_dict model sd = Raise (RuntimeError msgs))
             as [msgs Hmsgs]; [|congruence].
           apply Hraise. exists key. left. exists param. by rewrite Hget.
        -- assert (∃ msgs, load_state_dict model sd = Raise (RuntimeError msgs))
             as [msgs Hmsgs]; [|congruence].
           apply Hraise. exists key. left. exists param. by rewrite Hget.
      * intros key Hkey.
        destruct (decide (key ∈ (state_dict model).*1)) as [|Hnot]; [done|].
        assert (∃ msgs, load_state_dict model sd = Raise (RuntimeError msgs))
          as [msgs Hmsgs]; [|congruence].
        apply Hraise. exists key. by right.
    + intros [Hparams Hkeys].
      destruct (load_state_dict model sd) as [loaded|e] eqn:Hload; [by eexists|].
      assert (∃ key, affected model sd key) as [key Haff].
      { apply Hraise. unfold load_state_dict in Hload.
        destruct (error_msgs model sd); [done|]. injection Hload as <-.
        by eexists. }
      destruct Haff as [(param & Hin & Hget)|[Hin Hnot]].
      * destruct (Hparams key param Hin) as (input_param & Hsome & Hsh).
        rewrite Hsome in Hget. done.
      * destruct Hnot. by apply Hkeys.
  - intros e. unfold load_state_dict.
    destruct (error_msgs model sd) as [|m msgs]; [done|].
    intros [= <-]. by eexists.
Qed.

(** ** The demonstration step and the loop *)

(** X17.  On a full batch of 64 images the demonstration step is one
    pass of the loop: its [resize_(64, 784)] gives the very tensor that
    the loop's [view] gives, and the two steps return the same loss and
    leave the same session. *)
Theorem demonstration_step_is_training_pass {A} `{Scalar A} `{Autograd A}
    (uninit : nat → A) (lr : A) (images : Tensor A) (labels : list nat)
    (s : Session A) :
  shape images = [64; 1; 28; 28] →
  length (data images) = numel (shape images) →
  ∃ flat,
    flatten_batch images = Some flat
    ∧ resize_64_784 uninit images = flat
    ∧ demonstration_step uninit lr images labels s
      = training_pass lr flat labels s.
Proof.
  intros Hsh Hlen. exists (mkTensor [64; 784] (data images)).
  assert (resize_64_784 uninit images = mkTensor [64; 784] (data images)) as Hres.
  { pose proof (resize_same_numel uninit images [64; 784]) as Hdata.
    unfold resize_64_784. unfold resize_ in *. cbn [data] in Hdata.
    rewrite Hdata; [done|]. by rewrite Hlen, Hsh, numel_batch, numel_64_784. }
  split; [|split; [done|]].
  - unfold flatten_batch. rewrite Hsh. apply view_infer_batch; [lia|done].
  - unfold demonstration_step. by rewrite Hres.
Qed.

Section LinearScorerDemonstration.
#[local] Existing Instance linear_scorer.

Lemma demonstration_step_is_training_pass_witness :
  ∃ flat,
    flatten_batch (mkTensor [64; 1; 28; 28] (replicate (64 * 784) Float32.zero))
    = Some flat
    ∧ demonstration_step (λ _, Float32.one) Float32.lr_0_01
        (mkTensor [64; 1; 28; 28] (replicate (64 * 784) Float32.zero)) []
        float32_session
      = training_pass Float32.lr_0_01 flat [] float32_session.
Proof.
  destruct (demonstration_step_is_training_pass (λ _, Float32.one)
              Float32.lr_0_01
              (mkTensor [64; 1; 28; 28] (replicate (64 * 784) Float32.zero)) []
              float32_session)
    as (flat & Hflat & _ & Hstep).
  - reflexivity.
  - cbn [data shape]. rewrite length_replicate, numel_batch. reflexivity.
  - exists flat. split; [exact Hflat|exact Hstep].
Defined.
End LinearScorerDemonstration.

(** ** What the loaded model does not depend on *)

Section Independence.
Context {A : Type}.

Lemma layers_ok_same_shapes i hs (ls ls' : list (Linear A)) :
  layers_ok i hs ls → layers_ok i hs ls' → Forall2 same_shapes_Linear ls ls'.
Proof.
  revert i ls ls'. induction hs as [|h hs IH]; intros i [|l ls] [|l' ls'];
    try done; try (by constructor).
  cbn [layers_ok]. intros [(Hi & Ho & Hw & Hb) Hls] [(Hi' & Ho' & Hw' & Hb') Hls'].
  constructor; [|by eapply IH].
  unfold same_shapes_Linear. by rewrite Hi, Ho, Hw, Hb, Hi', Ho', Hw', Hb'.
Qed.

Lemma has_architecture_same_shapes i o hs (model model' : Network A) :
  has_architecture i o hs model → has_architecture i o hs model' →
  same_shapes model model'.
Proof.
  intros [Hls (Hi & Ho & Hw & Hb)] [Hls' (Hi' & Ho' & Hw' & Hb')]. split.
  - by eapply layers_ok_same_shapes.
  - unfold same_shapes_Linear. by rewrite Hi, Ho, Hw, Hb, Hi', Ho', Hw', Hb'.
Qed.
End Independence.

(** X18.  Nothing of the fresh model that [load_checkpoint] constructs
    shows in what it returns or raises: whatever values the
    initialisation draws, the result is the same model, or the same
    exception with the same message. *)
Theorem load_checkpoint_ignores_initialisation {A} (rng rng' : nat → A)
    (filepath : string) (fs : gmap string (Pickle A)) :
  load_checkpoint rng filepath fs = load_checkpoint rng' filepath fs.
Proof.
  unfold load_checkpoint. destruct (torch_load filepath fs) as [[sd|ck]|e];
    [done| |done].
  apply load_state_dict_congr.
  apply (has_architecture_same_shapes (ckpt_input_size ck) (ckpt_output_size ck)
           (ckpt_hidden_layers ck)); apply fc_model_Network_architecture.
Qed.

(** ** An epoch and the gradients before it *)

Section EpochHistory.
Context {A F : Type} `{Scalar A} `{Autograd A} `{PyFloat A F}.
Implicit Types (s : Session A) (batches : list (Tensor A * list nat)).

Lemma epoch_batches_same_parameters (lr : A) batches (running_loss : F) sa sb :
  model_parameters sa = model_parameters sb →
  match epoch_batches lr batches running_loss sa,
        epoch_batches lr batches running_loss sb with
  | Some (ra, sa'), Some (rb, sb') =>
      ra = rb ∧ model_parameters sa' = model_parameters sb'
  | None, None => True
  | _, _ => False
  end.
Proof.
  revert running_loss sa sb.
  induction batches as [|[images labels] batches IH];
    intros running_loss sa sb Hparams; [done|].
  cbn [epoch_batches]. destruct (flatten_batch images) as [flat|]; [|done].
  cbn [mbind option_bind]. rewrite !training_pass_unfold. cbn [loss_value].
  rewrite Hparams. by apply IH.
Qed.
End EpochHistory.

(** X19.  What an epoch prints does not depend on the gradients that
    were accumulated before it.  Two sessions with equal parameter values
    whose gradients hold arbitrary different values (of one shape and
    size) print the same training loss and end the epoch with identical
    parameters and gradients. *)
Theorem epoch_forgets_gradient_history {A F} `{Scalar A} `{Autograd A}
    `{PyFloat A F} (lr : A) (trainloader : list (Tensor A * list nat))
    (sa sb : Session A) (training_loss : F) (sa' : Session A) :
  Forall2 same_value_any_grad (model_parameters sa) (model_parameters sb) →
  epoch lr trainloader sa = Some (training_loss, sa') →
  ∃ sb', epoch lr trainloader sb = Some (training_loss, sb')
    ∧ model_parameters sa' = model_parameters sb'.
Proof.
  intros Hsame. unfold epoch.
  destruct trainloader as [|[images labels] batches]; [by cbn|].
  cbn [epoch_batches]. destruct (flatten_batch images) as [flat|]; [|done].
  cbn [mbind option_bind]. rewrite !training_pass_unfold. cbn [loss_value].
  rewrite <-(same_value_any_grad_values _ _ Hsame).
  rewrite <-(pass_same_params lr _ _ _ Hsame).
  set (ra := pf_add _ _).
  set (ta := mkSession _ (calls sa ++ _)). set (tb := mkSession _ (calls sb ++ _)).
  pose proof (epoch_batches_same_parameters lr batches ra ta tb eq_refl) as Hrest.
  destruct (epoch_batches lr batches ra ta) as [[xa sa1]|]; [|done].
  destruct (epoch_batches lr batches ra tb) as [[xb sb1]|]; [|done].
  destruct Hrest as [<- Hparams]. cbn.
  intros [= <- <-]. by exists sb1.
Qed.

Section LinearScorerHistory.
#[local] Existing Instance linear_scorer.

(** The weight 1.0 with the accumulated gradients 1.0 and 2.0. *)
Lemma epoch_forgets_gradient_history_witness :
  ∃ sb',
    epoch (F := Float64.float64) Float32.lr_0_003
      [(mkTensor [1; 1; 1; 1] [Float32.one], [3])] float32_session_grad_two
    = Some (SpecFloat.S754_finite false 4503599627370496 (-52), sb').
Proof.
  destruct (epoch_forgets_gradient_history (F := Float64.float64)
              Float32.lr_0_003 [(mkTensor [1; 1; 1; 1] [Float32.one], [3])]
              float32_session_grad_one float32_session_grad_two
              (SpecFloat.S754_finite false 4503599627370496 (-52))
              (mkSession
                 [mkParam
                    (mkTensor [1] [SpecFloat.S754_finite false 16726884 (-24)])
                    (Some (mkTensor [1] [Float32.one]))]
                 [CallZeroGrad; CallForward; CallCriterion; CallBackward;
                  CallStep]))
    as (sb' & Hsb' & _).
  - repeat constructor.
  - vm_compute. reflexivity.
  - exists sb'. exact Hsb'.
Defined.
End LinearScorerHistory.
